(** * Phase auto-encoder with neural sine fitting: a shallow embedding

    Embedding of [my_cyclops_new_loss.py]: the circular geometry helpers,
    the two networks' forward passes, the three loss terms and the joint
    training loop, followed by the properties established about them.

    Conventions.  Tensor entries are real numbers ([R]); a 1-D tensor is a
    [list R], a batch is a list of rows.  Two behaviours of the tensor
    library that the program can reach structurally are kept explicit:
    - the mean of an empty tensor is not a number ([NaN]), and every later
      arithmetic operation on it stays [NaN];
    - a linear layer applied to a row of the wrong width raises
      ([Raise ShapeError]), stacking an empty list of tensors raises
      ([Raise EmptyStack]), and differentiating a loss that does not depend
      on any parameter raises ([Raise NoGrad]). *)

From Stdlib Require Import String.
From Stdlib Require Import Reals Lra Lia List Bool Arith ZArith.
Import ListNotations.

Open Scope R_scope.

(** ** Scalars with a not-a-number element *)

Inductive tscalar : Type :=
| Fin (r : R)
| NaN.

Definition tadd (a b : tscalar) : tscalar :=
  match a, b with
  | Fin x, Fin y => Fin (x + y)
  | _, _ => NaN
  end.

Definition tscale (c : R) (a : tscalar) : tscalar :=
  match a with
  | Fin x => Fin (c * x)
  | NaN => NaN
  end.

Definition tdiv_nat (a : tscalar) (n : nat) : tscalar :=
  match a with
  | Fin x => Fin (x / INR n)
  | NaN => NaN
  end.

Definition rsum (l : list R) : R := fold_right Rplus 0 l.

(** [torch.mean] / [np.mean] of a 1-D tensor. *)
Definition tmean (l : list R) : tscalar :=
  match l with
  | [] => NaN
  | _ :: _ => Fin (rsum l / INR (length l))
  end.

(** ** Exceptions *)

Inductive error : Type :=
| ShapeError
| EmptyStack
| NoGrad.

Inductive result (A : Type) : Type :=
| Ok (a : A)
| Raise (e : error).

Arguments Ok {A} a.
Arguments Raise {A} e.

Definition bind {A B : Type} (m : result A) (k : A -> result B) : result B :=
  match m with
  | Ok a => k a
  | Raise e => Raise e
  end.

Notation "x <- m ;; k" := (bind m (fun x => k))
  (at level 61, m at next level, right associativity).

Fixpoint mapM {A B : Type} (f : A -> result B) (l : list A) : result (list B) :=
  match l with
  | [] => Ok []
  | a :: l' =>
      b <- f a ;;
      bs <- mapM f l' ;;
      Ok (b :: bs)
  end.

(** ** Circular geometry utilities *)

(** [torch.atan2] on finite arguments. *)
Definition atan2 (y x : R) : R :=
  if Rlt_dec 0 x then atan (y / x)
  else if Rlt_dec x 0 then
         if Rle_dec 0 y then atan (y / x) + PI else atan (y / x) - PI
       else if Rlt_dec 0 y then PI / 2
            else if Rlt_dec y 0 then - (PI / 2)
                 else 0.

(** [coords_to_phase], one row of the [coords] tensor at a time. *)
Definition coords_to_phase (c : R * R) : R :=
  let '(x, y) := c in
  let phase := atan2 y x in
  if Rlt_dec phase 0 then phase + 2 * PI else phase.

Definition phase_to_coords (phase : R) : R * R := (cos phase, sin phase).

Definition time_to_phase (time_hours period_hours : R) : R :=
  2 * PI * time_hours / period_hours.

(** The elementwise rule of [time_supervision_loss] (lines 362-363) and of
    [predict_and_save_phases] (lines 551-555): absolute difference, then the
    minimum with its complement to a full turn. *)
Definition circular_distance (a b : R) : R :=
  let phase_diff := Rabs (a - b) in
  Rmin phase_diff (2 * PI - phase_diff).

(** [time_supervision_loss]; [true_times = None] is Python's [None]. *)
Definition time_supervision_loss (phase_coords : list (R * R))
    (true_times : option (list R)) (lambda_time period_hours : R) : tscalar :=
  match true_times with
  | None => Fin 0
  | Some times =>
      let true_phases := map (fun t => time_to_phase t period_hours) times in
      let pred_phases := map coords_to_phase phase_coords in
      let phase_diff :=
        map (fun '(p, t) => circular_distance p t)
            (combine pred_phases true_phases) in
      tscale lambda_time (tmean phase_diff)
  end.

(** ** Tensor helpers *)

Definition count_true (mask : list bool) : nat :=
  List.length (filter (fun b => b) mask).

(** Boolean-mask indexing [xs[mask]]. *)
Definition mask_select {A : Type} (mask : list bool) (xs : list A) : list A :=
  map snd (filter fst (combine mask xs)).

Definition sq_diffs (a b : list R) : list R :=
  map (fun '(x, y) => (x - y) ^ 2) (combine a b).

(** [nn.MSELoss()] with its default mean reduction over all entries. *)
Definition mse_loss (input target : list (list R)) : tscalar :=
  tmean (sq_diffs (concat input) (concat target)).

(** ** Linear layers *)

Record Linear : Type := {
  in_features : nat;
  out_features : nat;
  weight : nat -> nat -> R;
  bias : nat -> R
}.

Definition dot (w : nat -> R) (x : list R) : R :=
  rsum (map (fun '(i, xi) => w i * xi) (combine (seq 0 (List.length x)) x)).

Definition linear (l : Linear) (x : list R) : result (list R) :=
  if Nat.eqb (List.length x) (in_features l)
  then Ok (map (fun o => dot (weight l o) x + bias l o)
               (seq 0 (out_features l)))
  else Raise ShapeError.

(** ** PhaseAutoEncoder *)

Module PhaseAutoEncoder.

(** The learned tensors, i.e. what [state_dict()] returns. *)
Record weights : Type := {
  encoder_weight : nat -> nat -> R;
  encoder_bias : nat -> R;
  decoder_weight : nat -> nat -> R;
  decoder_bias : nat -> R
}.

Record t : Type := {
  input_dim : nat;
  state_dict : weights
}.

Definition encoder (m : t) : Linear :=
  {| in_features := input_dim m;
     out_features := 2;
     weight := encoder_weight (state_dict m);
     bias := encoder_bias (state_dict m) |}.

Definition decoder (m : t) : Linear :=
  {| in_features := 2;
     out_features := input_dim m;
     weight := decoder_weight (state_dict m);
     bias := decoder_bias (state_dict m) |}.

Definition encode (m : t) (x : list R) : result (list R) :=
  linear (encoder m) x.

Definition decode (m : t) (phase_coords : list R) : result (list R) :=
  linear (decoder m) phase_coords.

(** Euclidean norm of the raw 2-D point ([torch.norm(raw_coords, dim=1)]). *)
Definition raw_norm (raw_coords : list R) : R :=
  sqrt (nth 0 raw_coords 0 ^ 2 + nth 1 raw_coords 0 ^ 2).

(** [forward] on one row of the batch. *)
Definition forward_row (m : t) (x : list R)
  : result ((R * R) * list R) :=
  raw_coords <- encode m x ;;
  let norm := raw_norm raw_coords + 1e-8 in
  let unit_coords := (nth 0 raw_coords 0 / norm, nth 1 raw_coords 0 / norm) in
  reconstructed <- decode m [fst unit_coords; snd unit_coords] ;;
  Ok (unit_coords, reconstructed).

(** [forward] on a batch: every operation is row-wise. *)
Definition forward (m : t) (x : list (list R))
  : result (list (R * R) * list (list R)) :=
  rows <- mapM (forward_row m) x ;;
  Ok (map fst rows, map snd rows).

End PhaseAutoEncoder.

(** ** SineParameterPredictor *)

Module SineParameterPredictor.

Record weights : Type := {
  fc1_weight : nat -> nat -> R;
  fc1_bias : nat -> R;
  fc2_weight : nat -> nat -> R;
  fc2_bias : nat -> R;
  fc3_weight : nat -> nat -> R;
  fc3_bias : nat -> R
}.

Record t : Type := {
  input_dim : nat;
  hidden_dim : nat;
  dropout : R;
  state_dict : weights
}.

(** The keep-masks the two [nn.Dropout] layers draw during one forward
    pass in training mode (the only mode in which the program calls the
    predictor). *)
Record masks : Type := {
  keep1 : nat -> bool;
  keep2 : nat -> bool
}.

Definition fc1 (p : t) : Linear :=
  {| in_features := input_dim p;
     out_features := hidden_dim p;
     weight := fc1_weight (state_dict p);
     bias := fc1_bias (state_dict p) |}.

Definition fc2 (p : t) : Linear :=
  {| in_features := hidden_dim p;
     out_features := Nat.div (hidden_dim p) 2;
     weight := fc2_weight (state_dict p);
     bias := fc2_bias (state_dict p) |}.

Definition fc3 (p : t) : Linear :=
  {| in_features := Nat.div (hidden_dim p) 2;
     out_features := 3;
     weight := fc3_weight (state_dict p);
     bias := fc3_bias (state_dict p) |}.

Definition relu (x : list R) : list R := map (Rmax 0) x.

Definition dropout_layer (p : R) (keep : nat -> bool) (x : list R) : list R :=
  map (fun '(i, xi) => if keep i then xi / (1 - p) else 0)
      (combine (seq 0 (List.length x)) x).

(** The [nn.Sequential] stack. *)
Definition network (p : t) (mk : masks) (x : list R) : result (list R) :=
  h1 <- linear (fc1 p) x ;;
  let a1 := dropout_layer (dropout p) (keep1 mk) (relu h1) in
  h2 <- linear (fc2 p) a1 ;;
  let a2 := dropout_layer (dropout p) (keep2 mk) (relu h2) in
  linear (fc3 p) a2.

(** [nn.Softplus()] with its defaults [beta = 1], [threshold = 20]. *)
Definition softplus (x : R) : R :=
  if Rlt_dec 20 x then x else ln (1 + exp x).

Definition forward (p : t) (mk : masks) (gene_expressions : list R)
  : result (R * R * R) :=
  raw_output <- network p mk gene_expressions ;;
  let amplitude := softplus (nth 0 raw_output 0) + 1e-6 in
  let phase_shift := tanh (nth 1 raw_output 0) * PI in
  let baseline := nth 2 raw_output 0 in
  Ok (amplitude, phase_shift, baseline).

End SineParameterPredictor.

(** ** Datasets and the sample-count adjustment of the preprocessing *)

Definition PADDING : string := "PADDING".

Record ExpressionDataset : Type := {
  expressions : list (list R);
  times : option (list R);
  celltypes : option (list string)
}.

Record sample : Type := {
  expression : list R;
  time : option R;
  celltype : option string
}.

Definition len (d : ExpressionDataset) : nat := List.length (expressions d).

Definition getitem (d : ExpressionDataset) (idx : nat) : sample :=
  {| expression := nth idx (expressions d) [];
     time := option_map (fun ts => nth idx ts 0) (times d);
     celltype := option_map (fun cs => nth idx cs EmptyString) (celltypes d) |}.

(** Lines 158-190 of [load_and_preprocess_train_data]: truncate to, or
    zero-pad up to, [max_samples] rows.  [selected_indices] is the sorted
    outcome of [np.random.choice], used by the truncating branch only.
    The padding block has [n_components] columns, and [np.vstack] raises
    when the selected matrix has another number of columns (a file with
    fewer genes than [n_components]).  A matrix without rows carries no
    width here; the scaler refuses zero samples before this point. *)
Definition resize_samples (selected_indices : list nat)
    (n_components max_samples : nat)
    (selected_expression : list (list R))
    (times : option (list R)) (celltypes : option (list string))
  : result ExpressionDataset :=
  let n_samples := List.length selected_expression in
  if Nat.ltb max_samples n_samples then
    Ok {| expressions := map (fun i => nth i selected_expression []) selected_indices;
          times := option_map (fun ts => map (fun i => nth i ts 0) selected_indices) times;
          celltypes :=
            option_map (fun cs => map (fun i => nth i cs EmptyString) selected_indices)
                       celltypes |}
  else if Nat.ltb n_samples max_samples then
    let pad_size := (max_samples - n_samples)%nat in
    if forallb (fun row => Nat.eqb (List.length row) n_components)
               selected_expression
    then
      Ok {| expressions :=
              selected_expression ++ repeat (repeat 0 n_components) pad_size;
            times := option_map (fun ts => ts ++ repeat 0 pad_size) times;
            celltypes :=
              option_map (fun cs => cs ++ repeat PADDING pad_size) celltypes |}
    else Raise ShapeError
  else
    Ok {| expressions := selected_expression;
          times := times;
          celltypes := celltypes |}.

(** The part of [preprocessing_info] that is plain data; the SVD factors and
    importance scores are further numeric payload carried along unchanged. *)
Record PreprocessingInfo : Type := {
  scaler_mean : list R;
  scaler_scale : list R;
  selected_gene_indices : list nat;
  selected_genes : list string;
  all_gene_names : list string;
  train_has_time : bool;
  train_has_celltype : bool;
  n_components : nat;
  max_samples : nat;
  actual_samples : nat;
  original_samples : nat
}.

(** ** Neural sine fitting loss *)

(** [np.unique] on an array of strings: sorted, without duplicates. *)
Fixpoint insert_unique (s : string) (l : list string) : list string :=
  match l with
  | [] => [s]
  | h :: t =>
      match String.compare s h with
      | Lt => s :: h :: t
      | Eq => h :: t
      | Gt => h :: insert_unique s t
      end
  end.

Definition np_unique (l : list string) : list string :=
  fold_right insert_unique [] l.

(** [expressions.shape[1]]. *)
Definition n_columns (x : list (list R)) : nat :=
  match x with
  | [] => 0%nat
  | row :: _ => List.length row
  end.

Definition is_nonzero (v : R) : bool :=
  if Req_dec_T v 0 then false else true.

Section NeuralSineFitting.

Variable sine_predictor : SineParameterPredictor.t.
(** Dropout randomness: the masks drawn by the predictor call made for a
    (celltype, gene index) pair. *)
Variable drawn : string -> nat -> SineParameterPredictor.masks.
Variable min_samples : nat.

(** Lines 325-326: a row of zeros whose leading entries are overwritten. *)
Definition gene_input_full (input_dim : nat) (gene_expression : list R)
  : result (list R) :=
  let zeros := repeat 0 input_dim in
  if Nat.leb (List.length gene_expression) input_dim
  then Ok (gene_expression ++ skipn (List.length gene_expression) zeros)
  else Raise ShapeError.

(** The body of the [try] block (lines 325-339): the value added to
    [total_loss], or the exception that makes the pair be skipped. *)
Definition score_pair (celltype : string) (gene_idx input_dim : nat)
    (celltype_phases gene_expression : list R) : result tscalar :=
  gene_input <- gene_input_full input_dim gene_expression ;;
  predicted_params <-
    SineParameterPredictor.forward sine_predictor (drawn celltype gene_idx)
                                   gene_input ;;
  let valid_mask := map is_nonzero gene_input in
  let '(amplitude, phase_shift, baseline) := predicted_params in
  let predicted_sine :=
    map (fun ph => amplitude * sin (ph + phase_shift) + baseline)
        celltype_phases in
  let valid_head := firstn (List.length gene_expression) valid_mask in
  let gene_loss :=
    tmean (sq_diffs (mask_select valid_head gene_expression)
                    (mask_select valid_head predicted_sine)) in
  let reg_loss := 0.01 * (amplitude ^ 2 + baseline ^ 2) in
  Ok (tadd gene_loss (Fin reg_loss)).

(** One iteration of the inner loop over [gene_idx]; the accumulator is
    ([total_loss], [total_combinations]). *)
Definition gene_step (celltype : string) (input_dim : nat)
    (celltype_phases : list R) (celltype_expressions : list (list R))
    (acc : tscalar * nat) (gene_idx : nat) : tscalar * nat :=
  let gene_expression := map (fun row => nth gene_idx row 0) celltype_expressions in
  if Nat.ltb (List.length gene_expression) min_samples then acc
  else
    match score_pair celltype gene_idx input_dim celltype_phases gene_expression with
    | Ok contribution => (tadd (fst acc) contribution, S (snd acc))
    | Raise _ => acc
    end.

(** One iteration of the outer loop over [unique_celltypes].  The boolean
    mask built from [celltypes] indexes [phases] and [expressions]; the
    program always passes the three with the same number of rows. *)
Definition celltype_step (phases : list R) (expressions : list (list R))
    (celltypes : list string) (acc : tscalar * nat) (celltype : string)
  : tscalar * nat :=
  if String.eqb celltype PADDING then acc
  else
    let celltype_mask := map (fun ct => String.eqb ct celltype) celltypes in
    if Nat.ltb (count_true celltype_mask) min_samples then acc
    else
      let celltype_phases := mask_select celltype_mask phases in
      let celltype_expressions := mask_select celltype_mask expressions in
      fold_left
        (gene_step celltype (List.length expressions)
                   celltype_phases celltype_expressions)
        (seq 0 (n_columns expressions)) acc.

(** The two accumulators after both loops. *)
Definition accumulate (phase_coords : list (R * R))
    (expressions : list (list R)) (celltypes : list string) : tscalar * nat :=
  let phases := map coords_to_phase phase_coords in
  fold_left (celltype_step phases expressions celltypes)
            (np_unique celltypes) (Fin 0, 0%nat).

Definition neural_sine_fitting_loss (phase_coords : list (R * R))
    (expressions : option (list (list R))) (celltypes : option (list string))
    (lambda_neural_sine : R) : tscalar :=
  match celltypes, expressions with
  | Some cts, Some ex =>
      let '(total_loss, total_combinations) := accumulate phase_coords ex cts in
      if Nat.ltb 0 total_combinations
      then tscale lambda_neural_sine (tdiv_nat total_loss total_combinations)
      else Fin 0
  | _, _ => Fin 0
  end.

End NeuralSineFitting.

(** An optional value as a list of at most one element. *)
Definition present {A : Type} (o : option A) : list A :=
  match o with
  | Some a => [a]
  | None => []
  end.

(** ** The sine-fit accumulation described pair by pair

    A description of the same term that does not follow the loops: which
    (celltype, gene) pairs are scored, what each one adds, and how the sum
    is averaged.  The loop above is compared with it below. *)

Definition tsum (l : list tscalar) : tscalar := fold_left tadd l (Fin 0).

Section SineFitPairs.

Variable sine_predictor : SineParameterPredictor.t.
Variable drawn : string -> nat -> SineParameterPredictor.masks.
Variable min_samples : nat.
Variable phases : list R.
Variable expressions : list (list R).
Variable celltypes : list string.

Definition group_mask (ct : string) : list bool :=
  map (fun c => String.eqb c ct) celltypes.

Definition group_size (ct : string) : nat := count_true (group_mask ct).

Definition group_phases (ct : string) : list R :=
  mask_select (group_mask ct) phases.

(** The group's values of one gene, in sample order. *)
Definition gene_column (ct : string) (g : nat) : list R :=
  map (fun row => nth g row 0) (mask_select (group_mask ct) expressions).

Definition group_qualifies (ct : string) : bool :=
  negb (String.eqb ct PADDING) && Nat.leb min_samples (group_size ct).

Definition pair_qualifies (ct : string) (g : nat) : bool :=
  group_qualifies ct && Nat.leb min_samples (List.length (gene_column ct g)).

(** What a pair adds to the running sum, if anything. *)
Definition pair_contribution (ct : string) (g : nat) : option tscalar :=
  if pair_qualifies ct g then
    match score_pair sine_predictor drawn ct g (List.length expressions)
                     (group_phases ct) (gene_column ct g) with
    | Ok c => Some c
    | Raise _ => None
    end
  else None.

Definition celltype_contributions (ct : string) : list tscalar :=
  flat_map (fun g => present (pair_contribution ct g))
           (seq 0 (n_columns expressions)).

Definition contributions : list tscalar :=
  flat_map celltype_contributions (np_unique celltypes).

(** Squared errors of the sinusoid at the group members whose expression
    value is non-zero. *)
Definition sinusoid_sq_errors (amplitude phase_shift baseline : R)
    (ct : string) (g : nat) : list R :=
  map (fun '(e, ph) => (e - (amplitude * sin (ph + phase_shift) + baseline)) ^ 2)
      (filter (fun '(e, _) => is_nonzero e)
              (combine (gene_column ct g) (group_phases ct))).

End SineFitPairs.

(** ** Joint training *)

(** The dictionary written to [final_model.pth]. *)
Record Checkpoint : Type := {
  model_state_dict : PhaseAutoEncoder.weights;
  preprocessing_info : PreprocessingInfo;
  train_losses : list tscalar
}.

(** What a finished call of [train_model] leaves behind: the saved file, the
    returned list, and the two network objects it updated in place. *)
Record TrainOutcome : Type := {
  final_checkpoint : Checkpoint;
  returned_losses : list tscalar;
  trained_model : PhaseAutoEncoder.weights;
  trained_sine_predictor : SineParameterPredictor.weights
}.

(** The tensors assembled before the epoch loop (lines 385-414). *)
Record Prepared : Type := {
  expressions_tensor : list (list R);
  valid_mask_tensor : list bool;
  times_tensor : option (list R);
  celltypes_array : option (list string)
}.

Definition is_valid (s : sample) : bool :=
  match celltype s with
  | Some c => if String.eqb c PADDING then false else true
  | None => true
  end.

Definition nonempty {A : Type} (l : list A) : option (list A) :=
  match l with
  | [] => None
  | _ :: _ => Some l
  end.

Definition prepare (train_dataset : ExpressionDataset) : result Prepared :=
  let samples := map (getitem train_dataset) (seq 0 (len train_dataset)) in
  let all_expressions := map expression samples in
  let valid_mask := map is_valid samples in
  let all_times := flat_map (fun s => present (time s)) samples in
  let all_celltypes := flat_map (fun s => present (celltype s)) samples in
  match all_expressions with
  | [] => Raise EmptyStack
  | _ :: _ =>
      Ok {| expressions_tensor := all_expressions;
            valid_mask_tensor := valid_mask;
            times_tensor := nonempty all_times;
            celltypes_array := nonempty all_celltypes |}
  end.

(** Number of rows the validity mask keeps. *)
Definition valid_count (train_dataset : ExpressionDataset) : nat :=
  count_true (map (fun i => is_valid (getitem train_dataset i))
                  (seq 0 (len train_dataset))).

Record LossTerms : Type := {
  recon_loss : tscalar;
  time_loss : tscalar;
  neural_sine_loss : tscalar
}.

Section TrainModel.

(** Shapes and hyper-parameters of the two networks; training changes
    their weights only. *)
Variable model_input_dim : nat.
Variables sine_input_dim sine_hidden_dim : nat.
Variable sine_dropout : R.

(** [optimizer.step(); scheduler.step()] of one epoch, with the gradients
    [total_loss.backward()] left there, as an update of both weight sets. *)
Variable optimizer_step :
  nat -> PhaseAutoEncoder.weights * SineParameterPredictor.weights ->
  PhaseAutoEncoder.weights * SineParameterPredictor.weights.

(** Dropout masks drawn in a given epoch for a (celltype, gene) pair. *)
Variable drawn : nat -> string -> nat -> SineParameterPredictor.masks.

Variable info : PreprocessingInfo.
Variables lambda_recon lambda_time lambda_neural_sine period_hours : R.

Definition model_of (w : PhaseAutoEncoder.weights) : PhaseAutoEncoder.t :=
  {| PhaseAutoEncoder.input_dim := model_input_dim;
     PhaseAutoEncoder.state_dict := w |}.

Definition predictor_of (w : SineParameterPredictor.weights)
  : SineParameterPredictor.t :=
  {| SineParameterPredictor.input_dim := sine_input_dim;
     SineParameterPredictor.hidden_dim := sine_hidden_dim;
     SineParameterPredictor.dropout := sine_dropout;
     SineParameterPredictor.state_dict := w |}.

(** Lines 431-436. *)
Definition recon_term (data : Prepared) (reconstructed : list (list R))
  : tscalar :=
  if Nat.ltb 0 (count_true (valid_mask_tensor data)) then
    let valid_expressions :=
      mask_select (valid_mask_tensor data) (expressions_tensor data) in
    let valid_reconstructed :=
      mask_select (valid_mask_tensor data) reconstructed in
    mse_loss valid_reconstructed valid_expressions
  else Fin 0.

(** Lines 438-443. *)
Definition time_term (data : Prepared) (phase_coords : list (R * R))
  : tscalar :=
  match train_has_time info, times_tensor data with
  | true, Some times =>
      let valid_phase_coords := mask_select (valid_mask_tensor data) phase_coords in
      let valid_times := mask_select (valid_mask_tensor data) times in
      if Nat.ltb 0 (List.length valid_times)
      then time_supervision_loss valid_phase_coords (Some valid_times) 1 period_hours
      else Fin 0
  | _, _ => Fin 0
  end.

(** Lines 445-459; [neural_sine_fitting_loss] runs with its default
    [min_samples = 5]. *)
Definition sine_term (epoch : nat) (sine_predictor : SineParameterPredictor.t)
    (data : Prepared) (phase_coords : list (R * R)) : tscalar :=
  match train_has_celltype info, celltypes_array data with
  | true, Some celltypes =>
      let valid_phase_coords := mask_select (valid_mask_tensor data) phase_coords in
      let valid_expressions :=
        mask_select (valid_mask_tensor data) (expressions_tensor data) in
      let valid_celltypes := mask_select (valid_mask_tensor data) celltypes in
      let non_padding_mask :=
        map (fun c => negb (String.eqb c PADDING)) valid_celltypes in
      if Nat.ltb 0 (count_true non_padding_mask) then
        let final_phase_coords := mask_select non_padding_mask valid_phase_coords in
        let final_expressions := mask_select non_padding_mask valid_expressions in
        let final_celltypes := mask_select non_padding_mask valid_celltypes in
        neural_sine_fitting_loss sine_predictor (drawn epoch) 5
          final_phase_coords (Some final_expressions) (Some final_celltypes) 1
      else Fin 0
  | _, _ => Fin 0
  end.

(** The forward pass and the three terms of one epoch. *)
Definition epoch_losses (epoch : nat) (data : Prepared)
    (mw : PhaseAutoEncoder.weights) (sw : SineParameterPredictor.weights)
  : result LossTerms :=
  out <- PhaseAutoEncoder.forward (model_of mw) (expressions_tensor data) ;;
  let '(phase_coords, reconstructed) := out in
  Ok {| recon_loss := recon_term data reconstructed;
        time_loss := time_term data phase_coords;
        neural_sine_loss := sine_term epoch (predictor_of sw) data phase_coords |}.

Definition total_of (l : LossTerms) : tscalar :=
  tadd (tadd (tscale lambda_recon (recon_loss l))
             (tscale lambda_time (time_loss l)))
       (tscale lambda_neural_sine (neural_sine_loss l)).

Record TrainState : Type := {
  model_weights : PhaseAutoEncoder.weights;
  sine_weights : SineParameterPredictor.weights;
  history : list tscalar
}.

(** [total_loss.backward()].  With no valid row none of the three terms
    is computed from the networks (each stays the constant
    [torch.tensor(0.0)]), and differentiating such a total raises; with a
    valid row the reconstruction term depends on the parameters. *)
Definition backward (data : Prepared) : result unit :=
  if Nat.ltb 0 (count_true (valid_mask_tensor data)) then Ok tt
  else Raise NoGrad.

(** One iteration of the epoch loop. *)
Definition epoch_step (data : Prepared) (epoch : nat) (st : TrainState)
  : result TrainState :=
  terms <- epoch_losses epoch data (model_weights st) (sine_weights st) ;;
  let total_loss := total_of terms in
  _ <- backward data ;;
  let '(mw, sw) := optimizer_step epoch (model_weights st, sine_weights st) in
  Ok {| model_weights := mw;
        sine_weights := sw;
        history := history st ++ [total_loss] |}.

Fixpoint run_epochs (data : Prepared) (epochs : list nat) (st : TrainState)
  : result TrainState :=
  match epochs with
  | [] => Ok st
  | epoch :: rest =>
      st' <- epoch_step data epoch st ;;
      run_epochs data rest st'
  end.

(** The two weight sets at the start of a given epoch. *)
Fixpoint weights_at (mw0 : PhaseAutoEncoder.weights)
    (sw0 : SineParameterPredictor.weights) (epoch : nat)
  : PhaseAutoEncoder.weights * SineParameterPredictor.weights :=
  match epoch with
  | O => (mw0, sw0)
  | S e => optimizer_step e (weights_at mw0 sw0 e)
  end.

(** The entry recorded for an epoch: the weighted total of the three
    terms computed with the weights that epoch started from. *)
Definition recorded (data : Prepared) (mw0 : PhaseAutoEncoder.weights)
    (sw0 : SineParameterPredictor.weights) (epoch : nat) (l : tscalar) : Prop :=
  exists terms,
    epoch_losses epoch data (fst (weights_at mw0 sw0 epoch))
                            (snd (weights_at mw0 sw0 epoch)) = Ok terms /\
    l = total_of terms.

Definition train_model (mw0 : PhaseAutoEncoder.weights)
    (sw0 : SineParameterPredictor.weights)
    (train_dataset : ExpressionDataset) (num_epochs : nat)
  : result TrainOutcome :=
  data <- prepare train_dataset ;;
  st <- run_epochs data (seq 0 num_epochs)
          {| model_weights := mw0; sine_weights := sw0; history := [] |} ;;
  let final_checkpoint :=
    {| model_state_dict := model_weights st;
       preprocessing_info := info;
       train_losses := history st |} in
  Ok {| final_checkpoint := final_checkpoint;
        returned_losses := history st;
        trained_model := model_weights st;
        trained_sine_predictor := sine_weights st |}.

End TrainModel.

(** ** Batches that differ only in masked-out rows *)

Inductive agree_on {A : Type} : list bool -> list A -> list A -> Prop :=
| agree_nil : agree_on [] [] []
| agree_kept (x : A) (mask : list bool) (xs ys : list A) :
    agree_on mask xs ys -> agree_on (true :: mask) (x :: xs) (x :: ys)
| agree_masked (x y : A) (mask : list bool) (xs ys : list A) :
    agree_on mask xs ys -> agree_on (false :: mask) (x :: xs) (y :: ys).

(** An optimizer with learning rate 0: both weight sets stay as they are. *)
Definition frozen_step (_ : nat)
    (w : PhaseAutoEncoder.weights * SineParameterPredictor.weights)
  : PhaseAutoEncoder.weights * SineParameterPredictor.weights := w.

(** An optimizer whose every step raises the decoder bias of the phase
    model by 1 and leaves all other parameters as they are. *)
Definition bias_step (_ : nat)
    (w : PhaseAutoEncoder.weights * SineParameterPredictor.weights)
  : PhaseAutoEncoder.weights * SineParameterPredictor.weights :=
  ({| PhaseAutoEncoder.encoder_weight := PhaseAutoEncoder.encoder_weight (fst w);
      PhaseAutoEncoder.encoder_bias := PhaseAutoEncoder.encoder_bias (fst w);
      PhaseAutoEncoder.decoder_weight := PhaseAutoEncoder.decoder_weight (fst w);
      PhaseAutoEncoder.decoder_bias :=
        fun o => PhaseAutoEncoder.decoder_bias (fst w) o + 1 |},
   snd w).

(** ** Concrete networks and data used in worked instances *)

Definition zero_phase_weights : PhaseAutoEncoder.weights :=
  {| PhaseAutoEncoder.encoder_weight := fun _ _ => 0;
     PhaseAutoEncoder.encoder_bias := fun _ => 0;
     PhaseAutoEncoder.decoder_weight := fun _ _ => 0;
     PhaseAutoEncoder.decoder_bias := fun _ => 0 |}.

(** Encoder output fixed at the point (1, 0); decoder output fixed at
    [level] in every feature. *)
Definition east_phase_weights (level : R) : PhaseAutoEncoder.weights :=
  {| PhaseAutoEncoder.encoder_weight := fun _ _ => 0;
     PhaseAutoEncoder.encoder_bias := fun o => match o with O => 1 | S _ => 0 end;
     PhaseAutoEncoder.decoder_weight := fun _ _ => 0;
     PhaseAutoEncoder.decoder_bias := fun _ => level |}.

Definition const_sine_weights (b3 : R) : SineParameterPredictor.weights :=
  {| SineParameterPredictor.fc1_weight := fun _ _ => 0;
     SineParameterPredictor.fc1_bias := fun _ => 0;
     SineParameterPredictor.fc2_weight := fun _ _ => 0;
     SineParameterPredictor.fc2_bias := fun _ => 0;
     SineParameterPredictor.fc3_weight := fun _ _ => 0;
     SineParameterPredictor.fc3_bias := fun _ => b3 |}.

Definition const_predictor (input_dim : nat) (b3 : R) : SineParameterPredictor.t :=
  {| SineParameterPredictor.input_dim := input_dim;
     SineParameterPredictor.hidden_dim := 2;
     SineParameterPredictor.dropout := 0.1;
     SineParameterPredictor.state_dict := const_sine_weights b3 |}.

Definition keep_all : SineParameterPredictor.masks :=
  {| SineParameterPredictor.keep1 := fun _ => true;
     SineParameterPredictor.keep2 := fun _ => true |}.

Definition east_coords (n : nat) : list (R * R) := repeat (1, 0) n.

(** Five samples of one celltype, one gene, the first value exactly zero. *)
Definition zero_first_expressions : list (list R) := [[0]; [1]; [1]; [1]; [1]].

Definition five_A : list string := repeat "A"%string 5.

(** Five labelled samples of one gene, padded by the preprocessing to six
    rows: the value of [resize_samples] on the five samples with
    [max_samples = 6]. *)
Definition padded_dataset : ExpressionDataset :=
  {| expressions := repeat [1] 5 ++ [[0]];
     times := None;
     celltypes := Some (five_A ++ [PADDING]) |}.

(** Two unlabelled samples of one gene, as they are and padded by the
    preprocessing to three rows. *)
Definition two_samples : ExpressionDataset :=
  {| expressions := [[1]; [-1]]; times := None; celltypes := None |}.


(** One unlabelled sample of one gene, as it is. *)
Definition single_sample : ExpressionDataset :=
  {| expressions := [[1]]; times := None; celltypes := None |}.


Definition scenario_B_celltypes : list string :=
  repeat "A"%string 6 ++ repeat "B"%string 4.

Definition info_of (has_time has_celltype : bool) (n_comp max_s orig : nat)
  : PreprocessingInfo :=
  {| scaler_mean := repeat 0 n_comp;
     scaler_scale := repeat 1 n_comp;
     selected_gene_indices := seq 0 n_comp;
     selected_genes := [];
     all_gene_names := [];
     train_has_time := has_time;
     train_has_celltype := has_celltype;
     n_components := n_comp;
     max_samples := max_s;
     actual_samples := max_s;
     original_samples := orig |}.

(** A loss value that is not a negative number. *)
Definition nonneg_or_nan (c : tscalar) : Prop :=
  match c with
  | Fin r => 0 <= r
  | NaN => True
  end.

(** Five labelled samples of one gene, without padding. *)
Definition five_labelled : ExpressionDataset :=
  {| expressions := repeat [1] 5; times := None; celltypes := Some five_A |}.

(** A dataset whose only row is a padding row. *)
Definition only_padding : ExpressionDataset :=
  {| expressions := [[0]]; times := None; celltypes := Some [PADDING] |}.

(** Five timed and labelled samples followed by one padding row, and the
    same with other values in the padding row. *)
Definition timed_padded_dataset : ExpressionDataset :=
  {| expressions := repeat [1] 5 ++ [[0]];
     times := Some [0; 4; 8; 12; 16; 0];
     celltypes := Some (five_A ++ [PADDING]) |}.

Definition timed_padded_dataset_noise : ExpressionDataset :=
  {| expressions := repeat [1] 5 ++ [[7]];
     times := Some [0; 4; 8; 12; 16; 99];
     celltypes := Some (five_A ++ [PADDING]) |}.

(** ** Aligning test genes with the genes selected in training *)

(** [np.where(names == gene)[0][0]]; [None] when [gene in names] is false. *)
Fixpoint first_index (gene : string) (names : list string) : option nat :=
  match names with
  | [] => None
  | name :: rest =>
      if String.eqb name gene then Some 0%nat
      else option_map S (first_index gene rest)
  end.

(** [m[:, j]]. *)
Definition column (m : list (list R)) (j : nat) : list R :=
  map (fun row => nth j row 0) m.

Fixpoint set_nth {A : Type} (k : nat) (v : A) (l : list A) : list A :=
  match l, k with
  | [], _ => []
  | _ :: t, O => v :: t
  | h :: t, S k' => h :: set_nth k' v t
  end.

(** [m[:, j] = col]. *)
Definition set_column (m : list (list R)) (j : nat) (col : list R)
  : list (list R) :=
  map (fun '(row, v) => set_nth j v row) (combine m col).

Record AlignState : Type := {
  test_selected_expression : list (list R);
  found_genes : list string;
  missing_genes : list string
}.

(** One iteration of the loop of lines 264-271; [None] is the index error of
    writing a column the matrix does not have. *)
Definition align_step (test_gene_names : list string)
    (test_expression_scaled : list (list R)) (n_components : nat)
    (st : AlignState) (entry : nat * string) : option AlignState :=
  let '(train_idx, gene) := entry in
  if Nat.ltb train_idx n_components then
    match first_index gene test_gene_names with
    | Some test_gene_idx =>
        Some {| test_selected_expression :=
                  set_column (test_selected_expression st) train_idx
                             (column test_expression_scaled test_gene_idx);
                found_genes := found_genes st ++ [gene];
                missing_genes := missing_genes st |}
    | None =>
        Some {| test_selected_expression :=
                  map (set_nth train_idx 0) (test_selected_expression st);
                found_genes := found_genes st;
                missing_genes := missing_genes st ++ [gene] |}
    end
  else None.

(** Lines 260-271 of [load_and_preprocess_test_data]: the matrix starts as
    zeros of shape (n_samples, n_components) and is filled gene by gene. *)
Definition align_test_genes (selected_genes test_gene_names : list string)
    (test_expression_scaled : list (list R)) (n_components : nat)
  : option AlignState :=
  fold_left
    (fun acc entry =>
       match acc with
       | Some st =>
           align_step test_gene_names test_expression_scaled n_components st entry
       | None => None
       end)
    (combine (seq 0 (List.length selected_genes)) selected_genes)
    (Some {| test_selected_expression :=
               repeat (repeat 0 n_components) (List.length test_expression_scaled);
             found_genes := [];
             missing_genes := [] |}).

Definition gene_present (test_gene_names : list string) (gene : string) : bool :=
  match first_index gene test_gene_names with
  | Some _ => true
  | None => false
  end.

(** The entry the aligned matrix should hold for a test row and a training
    gene position. *)
Definition aligned_entry (selected_genes test_gene_names : list string)
    (row : list R) (j : nat) : R :=
  match nth_error selected_genes j with
  | Some gene =>
      match first_index gene test_gene_names with
      | Some k => nth k row 0
      | None => 0
      end
  | None => 0
  end.
(** ** Custom genes for plotting *)

(** One iteration of the loop of lines 685-693. *)
Definition collect_step (test_gene_names : list string)
    (test_expression_scaled : list (list R))
    (acc : list (list R) * list string) (gene : string)
  : list (list R) * list string :=
  match first_index gene test_gene_names with
  | Some gene_idx =>
      (fst acc ++ [column test_expression_scaled gene_idx], snd acc ++ [gene])
  | None => acc
  end.

(** [np.column_stack] of 1-D arrays of length [n_samples]. *)
Definition column_stack (n_samples : nat) (cols : list (list R))
  : list (list R) :=
  map (fun s => map (fun col => nth s col 0) cols) (seq 0 n_samples).

(** Lines 682-704 of [get_original_gene_expressions], after the file has
    been read and scaled; [None] is the pair [(None, None)]. *)
Definition get_original_gene_expressions (custom_genes test_gene_names : list string)
    (test_expression_scaled : list (list R))
  : option (list (list R) * list string) :=
  let '(gene_expressions_list, found) :=
    fold_left (collect_step test_gene_names test_expression_scaled)
              custom_genes ([], []) in
  match found with
  | [] => None
  | _ :: _ =>
      Some (column_stack (List.length test_expression_scaled) gene_expressions_list,
            found)
  end.

(** Value of a named gene in a test row: the first column with that name. *)
Definition named_value (test_gene_names : list string) (row : list R)
    (gene : string) : R :=
  match first_index gene test_gene_names with
  | Some k => nth k row 0
  | None => 0
  end.

(** ** Phase prediction on a test set *)

(** A collated batch of the [DataLoader]: the keys ['time'] and
    ['celltype'] are present when the dataset has them. *)
Record Batch : Type := {
  batch_expression : list (list R);
  batch_time : option (list R);
  batch_celltype : option (list string)
}.

(** The sequential sampler with [shuffle=False]: consecutive slices of
    [batch_size] samples, the last one possibly shorter.  [fuel] bounds the
    number of batches. *)
Fixpoint data_loader_from (fuel batch_size : nat) (d : ExpressionDataset)
  : list Batch :=
  match fuel with
  | O => []
  | S fuel' =>
      match expressions d with
      | [] => []
      | _ :: _ =>
          {| batch_expression := firstn batch_size (expressions d);
             batch_time := option_map (firstn batch_size) (times d);
             batch_celltype := option_map (firstn batch_size) (celltypes d) |}
          :: data_loader_from fuel' batch_size
               {| expressions := skipn batch_size (expressions d);
                  times := option_map (skipn batch_size) (times d);
                  celltypes := option_map (skipn batch_size) (celltypes d) |}
      end
  end.

(** [DataLoader(dataset, batch_size=..., shuffle=False)], iterated once;
    [None] is the [ValueError] of a batch size that is not positive. *)
Definition DataLoader (d : ExpressionDataset) (batch_size : nat)
  : option (list Batch) :=
  if Nat.eqb batch_size 0 then None
  else Some (data_loader_from (len d) batch_size d).

(** The label columns of a dataset have one entry per row. *)
Definition columns_match (d : ExpressionDataset) : Prop :=
  (forall ts, times d = Some ts -> List.length ts = len d) /\
  (forall cs, celltypes d = Some cs -> List.length cs = len d).

(** The accumulators of the loop of [predict_and_save_phases]. *)
Record PredictState : Type := {
  all_phase_coords : list (list (R * R));
  all_phases : list (list R);
  all_times : list (list R);
  all_celltypes : list string;
  sample_indices : list nat;
  batch_start_idx : nat
}.

Definition predict_init : PredictState :=
  {| all_phase_coords := []; all_phases := []; all_times := [];
     all_celltypes := []; sample_indices := []; batch_start_idx := 0 |}.

(** One iteration of the loop (lines 503-522). *)
Definition predict_step (model : PhaseAutoEncoder.t) (st : PredictState)
    (batch : Batch) : result PredictState :=
  out <- PhaseAutoEncoder.forward model (batch_expression batch) ;;
  let phase_coords := fst out in
  let phases := map coords_to_phase phase_coords in
  let batch_size := List.length (batch_expression batch) in
  let batch_indices := seq (batch_start_idx st) batch_size in
  Ok {| all_phase_coords := all_phase_coords st ++ [phase_coords];
        all_phases := all_phases st ++ [phases];
        all_times :=
          match batch_time batch with
          | Some t => all_times st ++ [t]
          | None => all_times st
          end;
        all_celltypes :=
          match batch_celltype batch with
          | Some c => all_celltypes st ++ c
          | None => all_celltypes st
          end;
        sample_indices := sample_indices st ++ batch_indices;
        batch_start_idx := batch_start_idx st + batch_size |}.

Fixpoint predict_loop (model : PhaseAutoEncoder.t) (st : PredictState)
    (test_loader : list Batch) : result PredictState :=
  match test_loader with
  | [] => Ok st
  | batch :: rest =>
      st' <- predict_step model st batch ;;
      predict_loop model st' rest
  end.

(** The columns of [phase_predictions.csv]. *)
Record PhasePredictions : Type := {
  Sample_Index : list nat;
  Phase_X : list R;
  Phase_Y : list R;
  Predicted_Phase_Radians : list R;
  Predicted_Phase_Degrees : list R;
  Predicted_Phase_Hours : list R;
  True_Time_Hours : option (list R);
  True_Phase_Radians : option (list R);
  Phase_Error_Radians : option (list R);
  Phase_Error_Hours : option (list R);
  Cell_Type : option (list string)
}.

(** [preprocessing_info.get('period_hours', 24.0)]. *)
Definition period_of (period_entry : option R) : R :=
  match period_entry with
  | Some p => p
  | None => 24
  end.

Definition same_rows {A : Type} (n : nat) (column : option (list A)) : bool :=
  match column with
  | Some l => Nat.eqb (List.length l) n
  | None => true
  end.

(** Lines 539-561: the columns and the data frame.  A true-time or celltype
    column of another length than the predictions makes the subtraction or
    the frame constructor raise. *)
Definition results_frame (indices : list nat) (phase_coords : list (R * R))
    (phases : list R) (true_times : option (list R))
    (labels : option (list string)) (period_entry : option R)
  : result PhasePredictions :=
  let period_hours := period_of period_entry in
  let true_phases :=
    option_map (map (fun t => time_to_phase t period_hours)) true_times in
  let errors :=
    option_map
      (fun tp => map (fun pt => circular_distance (fst pt) (snd pt))
                     (combine phases tp))
      true_phases in
  if same_rows (List.length phases) true_times
     && same_rows (List.length phases) labels
  then
    Ok {| Sample_Index := indices;
          Phase_X := map fst phase_coords;
          Phase_Y := map snd phase_coords;
          Predicted_Phase_Radians := phases;
          Predicted_Phase_Degrees := map (fun p => p * 180 / PI) phases;
          Predicted_Phase_Hours :=
            map (fun p => p * period_hours / (2 * PI)) phases;
          True_Time_Hours := true_times;
          True_Phase_Radians := true_phases;
          Phase_Error_Radians := errors;
          Phase_Error_Hours :=
            option_map (map (fun e => e * period_hours / (2 * PI))) errors;
          Cell_Type := labels |}
  else Raise ShapeError.

(** [predict_and_save_phases], up to the returned frame.  [np.vstack] of an
    empty list raises. *)
Definition predict_and_save_phases (model : PhaseAutoEncoder.t)
    (test_loader : list Batch) (period_entry : option R)
  : result PhasePredictions :=
  st <- predict_loop model predict_init test_loader ;;
  match all_phase_coords st with
  | [] => Raise EmptyStack
  | _ :: _ =>
      let phase_coords := concat (all_phase_coords st) in
      let phases := concat (all_phases st) in
      let true_times :=
        match all_times st with
        | [] => None
        | _ :: _ => Some (concat (all_times st))
        end in
      let labels :=
        match all_celltypes st with
        | [] => None
        | _ :: _ => Some (all_celltypes st)
        end in
      results_frame (sample_indices st) phase_coords phases true_times labels
        period_entry
  end.

(** What the loop collects from the optional keys of the batches. *)
Definition collected_times (test_loader : list Batch) : list (list R) :=
  flat_map (fun b => match batch_time b with Some t => [t] | None => [] end)
    test_loader.

Definition collected_celltypes (test_loader : list Batch) : list string :=
  flat_map (fun b => match batch_celltype b with Some c => c | None => [] end)
    test_loader.

Definition loader_rows (test_loader : list Batch) : list (list R) :=
  concat (map batch_expression test_loader).

(** ** Gene expression plots of the test stage *)

(** What [plot_gene_expression_with_custom_data] and the plotting functions
    it calls can raise. *)
Inductive plot_exception : Type :=
| ModelError (e : error)
| ValueError
| AttributeError
| IndexError
| ZeroDivisionError.

(** The plots requested, by the function called and its arguments. *)
Inductive PlotCall : Type :=
| plot_celltype_gene_expression_raw (rows : list (list R))
    (phase_hours : list R) (gene_names : list string) (label : string)
| plot_celltype_comparison_raw (rows : list (list R)) (phase_hours : list R)
    (labels : list string) (gene_names : list string)
    (valid_celltypes : list string).

(** One iteration of the loop of lines 900-910. *)
Definition plot_step (model : PhaseAutoEncoder.t) (period_entry : option R)
    (acc : list (list R) * list string) (batch : Batch)
  : result (list (list R) * list string) :=
  out <- PhaseAutoEncoder.forward model (batch_expression batch) ;;
  let phases := map coords_to_phase (fst out) in
  let phase_hours :=
    map (fun p => p * period_of period_entry / (2 * PI)) phases in
  Ok (fst acc ++ [phase_hours],
      match batch_celltype batch with
      | Some c => snd acc ++ c
      | None => snd acc
      end).

Fixpoint plot_loop (model : PhaseAutoEncoder.t) (period_entry : option R)
    (acc : list (list R) * list string) (test_loader : list Batch)
  : result (list (list R) * list string) :=
  match test_loader with
  | [] => Ok acc
  | batch :: rest =>
      acc' <- plot_step model period_entry acc batch ;;
      plot_loop model period_entry acc' rest
  end.

(** [xs[mask]]: a boolean mask of another length than [xs] is an
    [IndexError]. *)
Definition mask_index {A : Type} (mask : list bool) (xs : list A)
  : plot_exception + list A :=
  if Nat.eqb (List.length mask) (List.length xs)
  then inr (mask_select mask xs)
  else inl IndexError.

(** The subplot grid of the two plotting functions: [n_cols = min(width, n)]
    and [n_rows = (n + n_cols - 1) // n_cols]; [None] is the division by
    zero of an empty gene list. *)
Definition subplot_grid (width n_panels : nat) : option (nat * nat) :=
  let n_cols := Nat.min width n_panels in
  if Nat.eqb n_cols 0 then None
  else Some (((n_panels + n_cols - 1) / n_cols)%nat, n_cols).

(** The loop over the genes in [plot_celltype_gene_expression_raw] (lines
    729-777), from gene [i] on: what it raises, if anything.  [axes[i]] and
    [expressions[:, i]] are index errors out of range; [ax.scatter] raises
    when the phases and the column differ in size; the curve fit is inside
    a [try] that swallows its exceptions.  A matrix without rows has width
    0 here; none is handed to the plots. *)
Fixpoint gene_panels (n_axes : nat) (rows : list (list R))
    (phase_hours : list R) (i : nat) (gene_names : list string)
  : option plot_exception :=
  match gene_names with
  | [] => None
  | _ :: rest =>
      if Nat.leb n_axes i then Some IndexError
      else if Nat.leb (n_columns rows) i then Some IndexError
      else if Nat.eqb (List.length phase_hours) 0
      then gene_panels n_axes rows phase_hours (S i) rest
      else if Nat.eqb (List.length phase_hours) (List.length rows)
      then gene_panels n_axes rows phase_hours (S i) rest
      else Some ValueError
  end.

(** What a call of [plot_celltype_gene_expression_raw] raises, if anything
    ([None]: the figure is drawn and saved).  Drawing and file output are
    not modelled. *)
Definition gene_plot_outcome (rows : list (list R)) (phase_hours : list R)
    (gene_names : list string) : option plot_exception :=
  match subplot_grid 5 (List.length gene_names) with
  | None => Some ZeroDivisionError
  | Some (n_rows, n_cols) =>
      gene_panels (n_rows * n_cols) rows phase_hours 0 gene_names
  end.

(** The loop over [valid_celltypes] for gene [i] in
    [plot_celltype_comparison_raw] (lines 827-853). *)
Fixpoint comparison_groups (rows : list (list R)) (phase_hours : list R)
    (labels : list string) (i : nat) (valid_celltypes : list string)
  : option plot_exception :=
  match valid_celltypes with
  | [] => None
  | ct :: rest =>
      let celltype_mask := map (fun c => String.eqb c ct) labels in
      if negb (Nat.eqb (List.length celltype_mask) (List.length rows))
         || Nat.leb (n_columns rows) i
      then Some IndexError
      else
        match mask_index celltype_mask phase_hours with
        | inl e => Some e
        | inr _ => comparison_groups rows phase_hours labels i rest
        end
  end.

(** The loop over [top_genes] (lines 821-867), from gene [i] on. *)
Fixpoint comparison_panels (n_axes : nat) (rows : list (list R))
    (phase_hours : list R) (labels : list string)
    (valid_celltypes : list string) (i : nat) (top_genes : list string)
  : option plot_exception :=
  match top_genes with
  | [] => None
  | _ :: rest =>
      if Nat.leb n_axes i then None
      else
        match comparison_groups rows phase_hours labels i valid_celltypes with
        | Some e => Some e
        | None =>
            comparison_panels n_axes rows phase_hours labels valid_celltypes
              (S i) rest
        end
  end.

(** What a call of [plot_celltype_comparison_raw] raises, if anything, with
    its default [n_genes_to_compare = 4]. *)
Definition comparison_plot_outcome (rows : list (list R))
    (phase_hours : list R) (labels : list string) (gene_names : list string)
    (valid_celltypes : list string) : option plot_exception :=
  let n_genes_to_compare := Nat.min 4 (List.length gene_names) in
  let top_genes := firstn n_genes_to_compare gene_names in
  match subplot_grid 2 n_genes_to_compare with
  | None => Some ZeroDivisionError
  | Some (n_rows, n_cols) =>
      comparison_panels (n_rows * n_cols) rows phase_hours labels
        valid_celltypes 0 top_genes
  end.

(** The loop over [unique_celltypes] (lines 927-941): the plots requested,
    in order, and the exception that ended the loop, if any. *)
Fixpoint celltype_plots (custom_gene_expressions : list (list R))
    (phase_hours_data : list R) (celltypes_data : list string)
    (custom_gene_names : list string) (unique_celltypes : list string)
  : list PlotCall * option plot_exception :=
  match unique_celltypes with
  | [] => ([], None)
  | ct :: rest =>
      if String.eqb ct PADDING
      then celltype_plots custom_gene_expressions phase_hours_data
             celltypes_data custom_gene_names rest
      else
        let celltype_mask := map (fun c => String.eqb c ct) celltypes_data in
        match mask_index celltype_mask custom_gene_expressions with
        | inl e => ([], Some e)
        | inr celltype_expressions =>
            match mask_index celltype_mask phase_hours_data with
            | inl e => ([], Some e)
            | inr celltype_phases =>
                if Nat.ltb (List.length celltype_expressions) 5
                then celltype_plots custom_gene_expressions phase_hours_data
                       celltypes_data custom_gene_names rest
                else
                  let call :=
                    plot_celltype_gene_expression_raw celltype_expressions
                      celltype_phases custom_gene_names ct in
                  match gene_plot_outcome celltype_expressions celltype_phases
                          custom_gene_names with
                  | Some e => ([call], Some e)
                  | None =>
                      let later :=
                        celltype_plots custom_gene_expressions
                          phase_hours_data celltypes_data custom_gene_names
                          rest in
                      (call :: fst later, snd later)
                  end
            end
        end
  end.

Definition not_padding (ct : string) : bool := negb (String.eqb ct PADDING).

(** Lines 925-954, for a non-empty list of labels. *)
Definition labelled_plots (custom_gene_expressions : list (list R))
    (phase_hours_data : list R) (celltypes_data : list string)
    (custom_gene_names : list string)
  : list PlotCall * option plot_exception :=
  let unique_celltypes := np_unique celltypes_data in
  let gene_plots :=
    celltype_plots custom_gene_expressions phase_hours_data
      celltypes_data custom_gene_names unique_celltypes in
  match snd gene_plots with
  | Some e => (fst gene_plots, Some e)
  | None =>
      let valid_celltypes := filter not_padding unique_celltypes in
      if Nat.ltb 1 (List.length unique_celltypes)
         && Nat.ltb 1 (List.length valid_celltypes)
      then (fst gene_plots
            ++ [plot_celltype_comparison_raw custom_gene_expressions
                  phase_hours_data celltypes_data custom_gene_names
                  valid_celltypes],
            comparison_plot_outcome custom_gene_expressions phase_hours_data
              celltypes_data custom_gene_names valid_celltypes)
      else (fst gene_plots, None)
  end.

(** [plot_gene_expression_with_custom_data]: the plots it requests, in
    order, and the exception that ends it, if any ([None]: it returns).
    [custom] is the pair returned by [get_original_gene_expressions],
    [None] for [(None, None)]. *)
Definition plot_gene_expression_with_custom_data (model : PhaseAutoEncoder.t)
    (test_loader : list Batch) (period_entry : option R)
    (custom : option (list (list R) * list string))
  : list PlotCall * option plot_exception :=
  match plot_loop model period_entry ([], []) test_loader with
  | Raise e => ([], Some (ModelError e))
  | Ok (all_phase_hours, all_labels) =>
      match all_phase_hours with
      | [] => ([], Some ValueError)
      | _ :: _ =>
          let phase_hours_data := concat all_phase_hours in
          match custom with
          | None => ([], Some AttributeError)
          | Some (custom_gene_expressions, custom_gene_names) =>
              match all_labels with
              | [] =>
                  ([plot_celltype_gene_expression_raw
                      custom_gene_expressions phase_hours_data
                      custom_gene_names "All_Samples"],
                   gene_plot_outcome custom_gene_expressions phase_hours_data
                     custom_gene_names)
              | _ :: _ =>
                  labelled_plots custom_gene_expressions phase_hours_data
                    all_labels custom_gene_names
              end
          end
      end
  end.

(** * Properties *)

Lemma atan2_pos_x_axis : atan2 0 1 = 0.
Proof.
  unfold atan2.
  destruct (Rlt_dec 0 1) as [_ | H]; [ | exfalso; lra ].
  replace (0 / 1) with 0 by lra.
  exact atan_0.
Qed.

Lemma coords_to_phase_east : coords_to_phase (1, 0) = 0.
Proof.
  unfold coords_to_phase. rewrite atan2_pos_x_axis.
  destruct (Rlt_dec 0 0); lra.
Qed.

Lemma circular_distance_sym (a b : R) :
  circular_distance a b = circular_distance b a.
Proof.
  unfold circular_distance. now rewrite (Rabs_minus_sym a b).
Qed.

Lemma circular_distance_beyond_turn (a b : R) :
  2 * PI < Rabs (a - b) -> circular_distance a b < 0.
Proof.
  intros H. unfold circular_distance.
  apply Rle_lt_trans with (2 * PI - Rabs (a - b)); [ apply Rmin_r | lra ].
Qed.

(** ** Circular distance and time supervision *)

Lemma circular_distance_range (a b : R) :
  Rabs (a - b) <= 2 * PI -> 0 <= circular_distance a b <= PI.
Proof.
  intros H. unfold circular_distance.
  pose proof (Rabs_pos (a - b)) as Hd.
  revert H Hd. generalize (Rabs (a - b)). intros d H Hd.
  unfold Rmin. destruct (Rle_dec d (2 * PI - d)); lra.
Qed.

Lemma circular_distance_zero_cases (a b : R) :
  circular_distance a b = 0 <-> Rabs (a - b) = 0 \/ Rabs (a - b) = 2 * PI.
Proof.
  unfold circular_distance. generalize (Rabs (a - b)). intros d.
  unfold Rmin. destruct (Rle_dec d (2 * PI - d)) as [Hle | Hgt].
  - split; [ intros ->; now left | ].
    intros [-> | ->]; [ reflexivity | ].
    pose proof PI_RGT_0. lra.
  - split; [ intros H; right; lra | ].
    intros [-> | ->]; [ | lra ].
    pose proof PI_RGT_0. lra.
Qed.

Lemma full_turn_multiple_small (a b : R) (k : Z) :
  Rabs (a - b) <= 2 * PI -> a - b = 2 * PI * IZR k ->
  k = (-1)%Z \/ k = 0%Z \/ k = 1%Z.
Proof.
  intros Hd Hk. pose proof PI_RGT_0 as Hpi.
  rewrite Hk in Hd.
  assert (H1 : -1 <= IZR k <= 1).
  { unfold Rabs in Hd. destruct (Rcase_abs (2 * PI * IZR k)); split; nra. }
  destruct H1 as [Hl Hu].
  apply le_IZR in Hl. apply le_IZR in Hu. lia.
Qed.

Lemma circular_distance_zero_iff (a b : R) :
  Rabs (a - b) <= 2 * PI ->
  (circular_distance a b = 0 <-> exists k : Z, a - b = 2 * PI * IZR k).
Proof.
  intros Hd. rewrite circular_distance_zero_cases. split.
  - intros [H0 | H2].
    + exists 0%Z. unfold Rabs in H0. destruct (Rcase_abs (a - b)); lra.
    + unfold Rabs in H2. destruct (Rcase_abs (a - b)).
      * exists (-1)%Z. lra.
      * exists 1%Z. lra.
  - intros [k Hk].
    destruct (full_turn_multiple_small a b k Hd Hk) as [-> | [-> | ->]];
      rewrite Hk; pose proof PI_RGT_0 as Hpi.
    + right. replace (2 * PI * -1) with (- (2 * PI)) by lra.
      rewrite Rabs_Ropp. apply Rabs_pos_eq. lra.
    + left. rewrite Rmult_0_r. apply Rabs_R0.
    + right. rewrite Rmult_1_r. apply Rabs_pos_eq. lra.
Qed.

Lemma circular_distance_example :
  circular_distance 0.1 (2 * PI - 0.1) = 0.2.
Proof.
  pose proof PI2_1 as Hpi.
  unfold circular_distance.
  replace (0.1 - (2 * PI - 0.1)) with (- (2 * PI - 0.2)) by lra.
  rewrite Rabs_Ropp, Rabs_pos_eq by lra.
  rewrite Rmin_right by lra. lra.
Qed.

(** C4 (as amended).  The rule is symmetric for all arguments; whenever the
    two angles are at most one full turn apart (in particular when both lie
    in [0, 2*PI]) its value lies in [0, PI] and is zero exactly when the
    angles differ by a multiple of 2*PI; and it sends 0.1 and 2*PI - 0.1
    to 0.2. *)
Theorem circular_distance_spec (a b : R) :
  circular_distance a b = circular_distance b a /\
  (Rabs (a - b) <= 2 * PI ->
   0 <= circular_distance a b <= PI /\
   (circular_distance a b = 0 <-> exists k : Z, a - b = 2 * PI * IZR k)) /\
  circular_distance 0.1 (2 * PI - 0.1) = 0.2.
Proof.
  split; [ apply circular_distance_sym | split ].
  - intros H. split.
    + now apply circular_distance_range.
    + now apply circular_distance_zero_iff.
  - apply circular_distance_example.
Qed.

Lemma circular_distance_spec_witness :
  Rabs (3 - 1) <= 2 * PI /\ 0 <= circular_distance 3 1 <= PI.
Proof.
  assert (H : Rabs (3 - 1) <= 2 * PI).
  { pose proof PI2_1. replace (3 - 1) with 2 by lra.
    rewrite Rabs_pos_eq; lra. }
  split; [ exact H | ].
  exact (proj1 (proj1 (proj2 (circular_distance_spec 3 1)) H)).
Defined.

Lemma target_phase_30h : time_to_phase 30 24 = 5 * PI / 2.
Proof. unfold time_to_phase. lra. Qed.

Lemma circular_distance_30h :
  circular_distance (coords_to_phase (1, 0)) (time_to_phase 30 24) = - (PI / 2).
Proof.
  pose proof PI_RGT_0 as Hpi.
  rewrite coords_to_phase_east, target_phase_30h.
  unfold circular_distance.
  replace (0 - 5 * PI / 2) with (- (5 * PI / 2)) by lra.
  rewrite Rabs_Ropp, Rabs_pos_eq by lra.
  rewrite Rmin_right by lra. lra.
Qed.

(** C4, counterexample.  Against the target phase of a 30-hour time label
    (period 24 h) the rule applied by [time_supervision_loss] leaves
    [0, PI]: the prediction at angle 0 is at "distance" -PI/2. *)
Lemma circular_distance_unwrapped_target_negative :
  ~ (0 <= circular_distance (coords_to_phase (1, 0)) (time_to_phase 30 24) <= PI).
Proof.
  rewrite circular_distance_30h. pose proof PI_RGT_0. lra.
Qed.

(** C10.  The time-supervision loss can be strictly negative: one sample
    predicted at angle 0 whose time label is 30 h, with a 24 h period. *)
Theorem time_supervision_loss_can_be_negative :
  exists (phase_coords : list (R * R)) (true_times : list R) (v : R),
    time_supervision_loss phase_coords (Some true_times) 1 24 = Fin v /\
    v < 0 /\
    Forall (fun t => ~ (0 <= t < 24)) true_times /\
    Forall (fun t => 2 * PI < time_to_phase t 24) true_times.
Proof.
  exists [(1, 0)], [30], (- (PI / 2)).
  pose proof PI_RGT_0 as Hpi.
  split; [ | split; [ lra | split ] ].
  - unfold time_supervision_loss. cbn [map combine tmean rsum fold_right List.length].
    rewrite circular_distance_30h. cbn [tscale INR]. f_equal. lra.
  - constructor; [ lra | constructor ].
  - constructor; [ rewrite target_phase_30h; lra | constructor ].
Qed.

(** ** Shapes of the layers *)

Lemma linear_ok (l : Linear) (x : list R) :
  List.length x = in_features l ->
  linear l x =
    Ok (map (fun o => dot (weight l o) x + bias l o) (seq 0 (out_features l))).
Proof.
  intros H. unfold linear. now rewrite H, Nat.eqb_refl.
Qed.

Lemma linear_inv (l : Linear) (x y : list R) :
  linear l x = Ok y ->
  List.length x = in_features l /\
  y = map (fun o => dot (weight l o) x + bias l o) (seq 0 (out_features l)).
Proof.
  unfold linear. destruct (Nat.eqb_spec (List.length x) (in_features l)).
  - intros [= <-]. now split.
  - discriminate.
Qed.

Lemma linear_raise (l : Linear) (x : list R) :
  List.length x <> in_features l -> linear l x = Raise ShapeError.
Proof.
  intros H. unfold linear.
  destruct (Nat.eqb_spec (List.length x) (in_features l)); [ contradiction | reflexivity ].
Qed.

Lemma linear_length (l : Linear) (x y : list R) :
  linear l x = Ok y -> List.length y = out_features l.
Proof.
  intros H. apply linear_inv in H as [_ ->].
  now rewrite length_map, length_seq.
Qed.

Lemma relu_length (x : list R) :
  List.length (SineParameterPredictor.relu x) = List.length x.
Proof. unfold SineParameterPredictor.relu. apply length_map. Qed.

Lemma dropout_layer_length (p : R) (keep : nat -> bool) (x : list R) :
  List.length (SineParameterPredictor.dropout_layer p keep x) = List.length x.
Proof.
  unfold SineParameterPredictor.dropout_layer.
  rewrite length_map, length_combine, length_seq. apply Nat.min_id.
Qed.

Lemma network_ok (p : SineParameterPredictor.t) (mk : SineParameterPredictor.masks)
    (x : list R) :
  List.length x = SineParameterPredictor.input_dim p ->
  exists raw, SineParameterPredictor.network p mk x = Ok raw /\ List.length raw = 3%nat.
Proof.
  intros Hx. unfold SineParameterPredictor.network.
  rewrite (linear_ok (SineParameterPredictor.fc1 p) x) by exact Hx.
  cbn [bind].
  rewrite linear_ok.
  2:{ rewrite dropout_layer_length, relu_length, length_map, length_seq.
      reflexivity. }
  cbn [bind].
  rewrite linear_ok.
  2:{ rewrite dropout_layer_length, relu_length, length_map, length_seq.
      reflexivity. }
  eexists. split; [ reflexivity | ].
  now rewrite length_map, length_seq.
Qed.

Lemma network_raise (p : SineParameterPredictor.t) (mk : SineParameterPredictor.masks)
    (x : list R) :
  List.length x <> SineParameterPredictor.input_dim p ->
  SineParameterPredictor.network p mk x = Raise ShapeError.
Proof.
  intros Hx. unfold SineParameterPredictor.network.
  now rewrite (linear_raise (SineParameterPredictor.fc1 p) x) by exact Hx.
Qed.

Lemma predictor_forward_ok (p : SineParameterPredictor.t)
    (mk : SineParameterPredictor.masks) (x : list R) :
  List.length x = SineParameterPredictor.input_dim p ->
  exists out, SineParameterPredictor.forward p mk x = Ok out.
Proof.
  intros Hx. destruct (network_ok p mk x Hx) as [raw [Hraw _]].
  unfold SineParameterPredictor.forward. rewrite Hraw. cbn [bind].
  eexists. reflexivity.
Qed.

Lemma predictor_forward_raise (p : SineParameterPredictor.t)
    (mk : SineParameterPredictor.masks) (x : list R) :
  List.length x <> SineParameterPredictor.input_dim p ->
  SineParameterPredictor.forward p mk x = Raise ShapeError.
Proof.
  intros Hx. unfold SineParameterPredictor.forward.
  now rewrite network_raise.
Qed.

(** ** Output shaping of the sine-parameter predictor *)

Lemma softplus_pos (x : R) : 0 < SineParameterPredictor.softplus x.
Proof.
  unfold SineParameterPredictor.softplus.
  destruct (Rlt_dec 20 x) as [H | _]; [ lra | ].
  pose proof (exp_pos x) as He.
  rewrite <- ln_1. apply ln_increasing; lra.
Qed.

Lemma tanh_bounds (x : R) : -1 < tanh x < 1.
Proof.
  unfold tanh, sinh, cosh.
  pose proof (exp_pos x) as H1. pose proof (exp_pos (- x)) as H2.
  assert (Hc : 0 < (exp x + exp (- x)) / 2) by lra.
  set (s := (exp x - exp (- x)) / 2) in *.
  set (c := (exp x + exp (- x)) / 2) in *.
  assert (Hq : s / c * c = s) by (field; lra).
  assert (Hlo : - c < s) by (unfold s, c; lra).
  assert (Hhi : s < c) by (unfold s, c; lra).
  split; nra.
Qed.

Lemma predictor_forward_inv (p : SineParameterPredictor.t)
    (mk : SineParameterPredictor.masks) (x : list R) (out : R * R * R) :
  SineParameterPredictor.forward p mk x = Ok out ->
  exists r0 r1 r2,
    out = (SineParameterPredictor.softplus r0 + 1e-6, tanh r1 * PI, r2).
Proof.
  unfold SineParameterPredictor.forward.
  destruct (SineParameterPredictor.network p mk x) as [raw | e]; cbn [bind].
  - intros [= <-]. eexists _, _, _. reflexivity.
  - discriminate.
Qed.

(** C8.  The predictor's forward pass returns a triple on every input of
    the width it was built for, and every triple it returns has amplitude at
    least 1e-6 (hence strictly positive) and phase offset in [-PI, PI]; the
    baseline is the raw third output. *)
Theorem sine_prediction_bounds (p : SineParameterPredictor.t)
    (mk : SineParameterPredictor.masks) (x : list R) :
  (List.length x = SineParameterPredictor.input_dim p ->
   exists out, SineParameterPredictor.forward p mk x = Ok out) /\
  (forall amplitude phase_shift baseline,
     SineParameterPredictor.forward p mk x = Ok (amplitude, phase_shift, baseline) ->
     1e-6 <= amplitude /\ 0 < amplitude /\ - PI <= phase_shift <= PI).
Proof.
  split; [ apply predictor_forward_ok | ].
  intros a ph b H.
  apply predictor_forward_inv in H as (r0 & r1 & r2 & [= -> -> ->]).
  pose proof (softplus_pos r0) as Hs.
  pose proof (tanh_bounds r1) as Ht.
  pose proof PI_RGT_0 as Hpi.
  repeat split; try lra; nra.
Qed.

Lemma sine_prediction_bounds_witness :
  exists out,
    SineParameterPredictor.forward (const_predictor 1 0) keep_all [0] = Ok out /\
    1e-6 <= fst (fst out) /\ 0 < fst (fst out) /\
    - PI <= snd (fst out) <= PI.
Proof.
  destruct (proj1 (sine_prediction_bounds (const_predictor 1 0) keep_all [0])
                  eq_refl) as [[[a ph] b] H].
  exists (a, ph, b). split; [ exact H | ].
  exact (proj2 (sine_prediction_bounds (const_predictor 1 0) keep_all [0])
               a ph b H).
Defined.

(** ** Normalisation onto the unit circle *)

Lemma raw_norm_nonneg (raw : list R) : 0 <= PhaseAutoEncoder.raw_norm raw.
Proof. unfold PhaseAutoEncoder.raw_norm. apply sqrt_pos. Qed.

Lemma scaled_point_norm (r0 r1 n : R) :
  0 < n ->
  sqrt ((r0 / n) ^ 2 + (r1 / n) ^ 2) = sqrt (r0 ^ 2 + r1 ^ 2) / n.
Proof.
  intros Hn.
  replace ((r0 / n) ^ 2 + (r1 / n) ^ 2) with ((r0 ^ 2 + r1 ^ 2) / n ^ 2)
    by (field; lra).
  rewrite sqrt_div; [ | nra | nra ].
  rewrite sqrt_pow2 by lra. reflexivity.
Qed.

Lemma shrink_within_tolerance (r : R) :
  0 <= r ->
  (Rabs (r / (r + 1e-8) - 1) <= 1e-6 <-> 0.00999999 <= r).
Proof.
  intros Hr.
  assert (Hn : 0 < r + 1e-8) by lra.
  assert (Hq : r / (r + 1e-8) - 1 = - (1e-8 / (r + 1e-8))) by (field; lra).
  assert (Hpos : 0 < 1e-8 / (r + 1e-8)) by (apply Rdiv_lt_0_compat; lra).
  rewrite Hq, Rabs_Ropp, Rabs_pos_eq by lra.
  assert (Hm : 1e-8 / (r + 1e-8) * (r + 1e-8) = 1e-8) by (field; lra).
  split; intros H; nra.
Qed.

Lemma forward_row_inv (m : PhaseAutoEncoder.t) (x : list R)
    (u : R * R) (rec : list R) :
  PhaseAutoEncoder.forward_row m x = Ok (u, rec) ->
  exists raw,
    PhaseAutoEncoder.encode m x = Ok raw /\
    u = (nth 0 raw 0 / (PhaseAutoEncoder.raw_norm raw + 1e-8),
         nth 1 raw 0 / (PhaseAutoEncoder.raw_norm raw + 1e-8)) /\
    PhaseAutoEncoder.decode m [fst u; snd u] = Ok rec.
Proof.
  unfold PhaseAutoEncoder.forward_row.
  destruct (PhaseAutoEncoder.encode m x) as [raw | e]; cbn [bind]; [ | discriminate ].
  cbn [fst snd].
  destruct (PhaseAutoEncoder.decode m _) as [rec' | e] eqn:Hd; cbn [bind];
    [ | discriminate ].
  intros [= <- <-]. exists raw. cbn [fst snd]. now repeat split.
Qed.

Lemma forward_row_ok (m : PhaseAutoEncoder.t) (x : list R) :
  List.length x = PhaseAutoEncoder.input_dim m ->
  exists u rec,
    PhaseAutoEncoder.forward_row m x = Ok (u, rec) /\
    List.length rec = PhaseAutoEncoder.input_dim m.
Proof.
  intros Hx. unfold PhaseAutoEncoder.forward_row, PhaseAutoEncoder.encode,
    PhaseAutoEncoder.decode.
  rewrite (linear_ok (PhaseAutoEncoder.encoder m) x) by exact Hx.
  cbn [bind].
  rewrite linear_ok by reflexivity.
  cbn [bind]. eexists _, _. split; [ reflexivity | ].
  now rewrite length_map, length_seq.
Qed.

Lemma unit_coords_norm_formula (m : PhaseAutoEncoder.t) (x raw : list R)
    (u : R * R) (rec : list R) :
  PhaseAutoEncoder.encode m x = Ok raw ->
  PhaseAutoEncoder.forward_row m x = Ok (u, rec) ->
  sqrt (fst u ^ 2 + snd u ^ 2) =
  PhaseAutoEncoder.raw_norm raw / (PhaseAutoEncoder.raw_norm raw + 1e-8).
Proof.
  intros He Hf.
  apply forward_row_inv in Hf as (raw' & He' & -> & _).
  rewrite He in He'. injection He' as <-.
  cbn [fst snd].
  pose proof (raw_norm_nonneg raw) as Hr.
  rewrite scaled_point_norm by lra. reflexivity.
Qed.

(** C5 (as amended).  On a row of the configured width the forward pass
    returns a phase coordinate whose Euclidean norm is r / (r + 1e-8), where
    r is the norm of the raw encoder output for that row; this is below 1,
    and it is within 1e-6 of 1 exactly when r is at least 0.00999999. *)
Theorem unit_coords_norm (m : PhaseAutoEncoder.t) (x : list R) :
  List.length x = PhaseAutoEncoder.input_dim m ->
  exists raw u rec,
    PhaseAutoEncoder.encode m x = Ok raw /\
    PhaseAutoEncoder.forward_row m x = Ok (u, rec) /\
    let r := PhaseAutoEncoder.raw_norm raw in
    let norm := sqrt (fst u ^ 2 + snd u ^ 2) in
    norm = r / (r + 1e-8) /\
    0 <= norm < 1 /\
    (Rabs (norm - 1) <= 1e-6 <-> 0.00999999 <= r).
Proof.
  intros Hx.
  destruct (forward_row_ok m x Hx) as (u & rec & Hf & _).
  destruct (forward_row_inv m x u rec Hf) as (raw & He & _ & _).
  exists raw, u, rec. split; [ exact He | split; [ exact Hf | ] ].
  cbv zeta. rewrite (unit_coords_norm_formula m x raw u rec He Hf).
  pose proof (raw_norm_nonneg raw) as Hr.
  set (r := PhaseAutoEncoder.raw_norm raw) in *.
  split; [ reflexivity | split ].
  - assert (Hm : r / (r + 1e-8) * (r + 1e-8) = r) by (field; lra).
    assert (Hn : 0 < r + 1e-8) by lra.
    split; nra.
  - now apply shrink_within_tolerance.
Qed.

Lemma unit_coords_norm_witness :
  exists raw u rec,
    PhaseAutoEncoder.encode
      {| PhaseAutoEncoder.input_dim := 1;
         PhaseAutoEncoder.state_dict := east_phase_weights 0 |} [2] = Ok raw /\
    PhaseAutoEncoder.forward_row
      {| PhaseAutoEncoder.input_dim := 1;
         PhaseAutoEncoder.state_dict := east_phase_weights 0 |} [2] = Ok (u, rec) /\
    sqrt (fst u ^ 2 + snd u ^ 2) =
    PhaseAutoEncoder.raw_norm raw / (PhaseAutoEncoder.raw_norm raw + 1e-8).
Proof.
  destruct (unit_coords_norm
              {| PhaseAutoEncoder.input_dim := 1;
                 PhaseAutoEncoder.state_dict := east_phase_weights 0 |} [2]
              eq_refl) as (raw & u & rec & He & Hf & Hn & _).
  exists raw, u, rec. repeat split; assumption.
Defined.

Lemma dot_zero_weights (x : list R) : dot (fun _ => 0) x = 0.
Proof.
  unfold dot. generalize 0%nat at 1.
  induction x as [ | xi x IH ]; intros s; cbn [List.length seq combine map rsum fold_right].
  - reflexivity.
  - fold (rsum (map (fun '(i, xi0) => 0 * xi0) (combine (seq (S s) (List.length x)) x))).
    rewrite IH. lra.
Qed.

Lemma zero_encoder_raw (d : nat) (x : list R) :
  List.length x = d ->
  PhaseAutoEncoder.encode
    {| PhaseAutoEncoder.input_dim := d;
       PhaseAutoEncoder.state_dict := zero_phase_weights |} x = Ok [0 + 0; 0 + 0].
Proof.
  intros Hx. unfold PhaseAutoEncoder.encode.
  rewrite linear_ok by exact Hx.
  cbn [PhaseAutoEncoder.encoder out_features weight bias seq map
       PhaseAutoEncoder.state_dict zero_phase_weights
       PhaseAutoEncoder.encoder_weight PhaseAutoEncoder.encoder_bias].
  now rewrite dot_zero_weights.
Qed.

(** C5, counterexample.  With an encoder whose weights and bias are zero,
    the all-zero padding row is sent to the origin: its phase coordinate has
    norm 0, not 1. *)
Lemma padding_row_off_circle :
  exists u rec,
    PhaseAutoEncoder.forward_row
      {| PhaseAutoEncoder.input_dim := 2;
         PhaseAutoEncoder.state_dict := zero_phase_weights |} (repeat 0 2)
    = Ok (u, rec) /\
    sqrt (fst u ^ 2 + snd u ^ 2) = 0 /\
    ~ (Rabs (sqrt (fst u ^ 2 + snd u ^ 2) - 1) <= 1e-6).
Proof.
  destruct (forward_row_ok
              {| PhaseAutoEncoder.input_dim := 2;
                 PhaseAutoEncoder.state_dict := zero_phase_weights |}
              (repeat 0 2) eq_refl) as (u & rec & Hf & _).
  exists u, rec. split; [ exact Hf | ].
  rewrite (unit_coords_norm_formula _ _ _ _ _ (zero_encoder_raw 2 (repeat 0 2) eq_refl) Hf).
  assert (Hr : PhaseAutoEncoder.raw_norm [0 + 0; 0 + 0] = 0).
  { unfold PhaseAutoEncoder.raw_norm. cbn [nth].
    replace ((0 + 0) ^ 2 + (0 + 0) ^ 2) with 0 by lra. apply sqrt_0. }
  rewrite Hr.
  replace (0 / (0 + 1e-8)) with 0 by (field; lra).
  split; [ reflexivity | ].
  replace (0 - 1) with (- (1)) by lra.
  rewrite Rabs_Ropp, Rabs_R1. lra.
Qed.

(** ** The sine-fit loops against the pairwise description *)

Lemma fold_left_accumulate {A : Type} (step : tscalar * nat -> A -> tscalar * nat)
    (adds : A -> list tscalar) :
  (forall acc a,
     step acc a = (fold_left tadd (adds a) (fst acc),
                   (snd acc + List.length (adds a))%nat)) ->
  forall l acc,
    fold_left step l acc =
    (fold_left tadd (flat_map adds l) (fst acc),
     (snd acc + List.length (flat_map adds l))%nat).
Proof.
  intros Hstep l. induction l as [ | a l IH ]; intros acc.
  - cbn. destruct acc. cbn. now rewrite Nat.add_0_r.
  - cbn [fold_left flat_map]. rewrite IH, Hstep. cbn [fst snd].
    rewrite fold_left_app, length_app. f_equal. lia.
Qed.

Lemma flat_map_all_nil {A B : Type} (f : A -> list B) (l : list A) :
  (forall a, f a = []) -> flat_map f l = [].
Proof.
  intros H. induction l as [ | a l IH ]; cbn; [ reflexivity | ].
  now rewrite H, IH.
Qed.

Section SineFitLoops.

Variable sine_predictor : SineParameterPredictor.t.
Variable drawn : string -> nat -> SineParameterPredictor.masks.
Variable min_samples : nat.
Variable phases : list R.
Variable expressions : list (list R).
Variable celltypes : list string.

Local Abbreviation contribution :=
  (pair_contribution sine_predictor drawn min_samples phases expressions celltypes).
Local Abbreviation per_celltype :=
  (celltype_contributions sine_predictor drawn min_samples phases expressions
                          celltypes).

Lemma gene_step_qualified (ct : string) (acc : tscalar * nat) (g : nat) :
  group_qualifies min_samples celltypes ct = true ->
  gene_step sine_predictor drawn min_samples ct (List.length expressions)
            (group_phases phases celltypes ct)
            (mask_select (group_mask celltypes ct) expressions) acc g =
  (fold_left tadd (present (contribution ct g)) (fst acc),
   (snd acc + List.length (present (contribution ct g)))%nat).
Proof.
  intros Hq. unfold gene_step, contribution, pair_contribution, pair_qualifies.
  rewrite Hq. cbn [andb]. fold (gene_column expressions celltypes ct g).
  rewrite Nat.ltb_antisym.
  destruct (Nat.leb min_samples (List.length (gene_column expressions celltypes ct g)));
    cbn [negb].
  - destruct (score_pair _ _ _ _ _ _ _) as [c | e]; cbn [present fold_left List.length].
    + f_equal. lia.
    + destruct acc. cbn. now rewrite Nat.add_0_r.
  - destruct acc. cbn. now rewrite Nat.add_0_r.
Qed.

Lemma unqualified_group_adds_nothing (ct : string) :
  group_qualifies min_samples celltypes ct = false -> per_celltype ct = [].
Proof.
  intros Hq. unfold per_celltype, celltype_contributions.
  apply flat_map_all_nil. intros g.
  unfold pair_contribution, pair_qualifies. now rewrite Hq.
Qed.

Lemma celltype_step_skips (acc : tscalar * nat) (ct : string) :
  group_qualifies min_samples celltypes ct = false ->
  celltype_step sine_predictor drawn min_samples phases expressions celltypes acc ct
  = acc.
Proof.
  unfold group_qualifies, celltype_step, group_size, group_mask.
  destruct (String.eqb ct PADDING); cbn [negb andb]; [ reflexivity | ].
  rewrite Nat.ltb_antisym. now intros ->.
Qed.

Lemma celltype_step_adds (acc : tscalar * nat) (ct : string) :
  celltype_step sine_predictor drawn min_samples phases expressions celltypes acc ct
  = (fold_left tadd (per_celltype ct) (fst acc),
     (snd acc + List.length (per_celltype ct))%nat).
Proof.
  destruct (group_qualifies min_samples celltypes ct) eqn:Hq.
  - pose proof Hq as Hq'. unfold group_qualifies in Hq'.
    apply andb_prop in Hq' as [Hpad Hsize].
    unfold celltype_step.
    destruct (String.eqb ct PADDING); [ discriminate | ].
    fold (group_mask celltypes ct). fold (group_size celltypes ct).
    rewrite Nat.ltb_antisym, Hsize. cbn [negb].
    fold (group_phases phases celltypes ct).
    apply (fold_left_accumulate _ (fun g => present (contribution ct g))).
    intros acc' g. now apply gene_step_qualified.
  - rewrite celltype_step_skips by exact Hq.
    rewrite unqualified_group_adds_nothing by exact Hq.
    destruct acc. cbn. now rewrite Nat.add_0_r.
Qed.

End SineFitLoops.

Lemma accumulate_closed_form (sine_predictor : SineParameterPredictor.t)
    (drawn : string -> nat -> SineParameterPredictor.masks) (min_samples : nat)
    (phase_coords : list (R * R)) (expressions : list (list R))
    (celltypes : list string) :
  let cs := contributions sine_predictor drawn min_samples
                          (map coords_to_phase phase_coords) expressions celltypes in
  accumulate sine_predictor drawn min_samples phase_coords expressions celltypes
  = (tsum cs, List.length cs).
Proof.
  cbv zeta. unfold accumulate, contributions, tsum.
  rewrite (fold_left_accumulate _
             (celltype_contributions sine_predictor drawn min_samples
                (map coords_to_phase phase_coords) expressions celltypes)).
  - reflexivity.
  - intros acc ct. apply celltype_step_adds.
Qed.

(** ** What one scored pair adds *)

Lemma mask_select_length_le {A : Type} (mask : list bool) (xs : list A) :
  (List.length (mask_select mask xs) <= List.length xs)%nat.
Proof.
  unfold mask_select. rewrite length_map.
  etransitivity; [ apply filter_length_le | ].
  rewrite length_combine. apply Nat.le_min_r.
Qed.

Lemma skipn_zeros (k d : nat) : skipn k (repeat 0 d) = repeat 0 (d - k).
Proof.
  revert d. induction k as [ | k IH ]; intros d.
  - now rewrite Nat.sub_0_r.
  - destruct d as [ | d ]; [ reflexivity | ]. cbn. apply IH.
Qed.

Lemma gene_input_full_ok (d : nat) (ge : list R) :
  (List.length ge <= d)%nat ->
  gene_input_full d ge = Ok (ge ++ repeat 0 (d - List.length ge)).
Proof.
  intros H. unfold gene_input_full.
  apply Nat.leb_le in H. rewrite H. now rewrite skipn_zeros.
Qed.

Lemma gene_input_full_inv (d : nat) (ge v : list R) :
  gene_input_full d ge = Ok v ->
  (List.length ge <= d)%nat /\ v = ge ++ repeat 0 (d - List.length ge).
Proof.
  unfold gene_input_full.
  destruct (Nat.leb_spec (List.length ge) d) as [Hle | Hgt]; [ | discriminate ].
  intros [= <-]. now rewrite skipn_zeros.
Qed.

Lemma padded_length (d : nat) (ge : list R) :
  (List.length ge <= d)%nat ->
  List.length (ge ++ repeat 0 (d - List.length ge)) = d.
Proof.
  intros H. rewrite length_app, repeat_length. lia.
Qed.

Lemma valid_head_is_nonzero_mask (ge zeros : list R) :
  firstn (List.length ge) (map is_nonzero (ge ++ zeros)) = map is_nonzero ge.
Proof.
  rewrite firstn_map, firstn_app, Nat.sub_diag, firstn_all. cbn.
  now rewrite app_nil_r.
Qed.

Lemma masked_sq_diffs (f : R -> R) (ge phs : list R) :
  sq_diffs (mask_select (map is_nonzero ge) ge)
           (mask_select (map is_nonzero ge) (map f phs)) =
  map (fun '(e, ph) => (e - f ph) ^ 2)
      (filter (fun '(e, _) => is_nonzero e) (combine ge phs)).
Proof.
  unfold sq_diffs, mask_select.
  revert phs. induction ge as [ | e ge IH ]; intros phs.
  - reflexivity.
  - destruct phs as [ | ph phs ].
    + cbn [map combine filter].
      destruct (is_nonzero e); cbn [fst filter map snd combine].
      * now destruct (combine (map is_nonzero ge) ge).
      * now destruct (map snd (filter fst (combine (map is_nonzero ge) ge))).
    + cbn [map combine filter fst]. destruct (is_nonzero e); cbn [map snd combine].
      * f_equal. apply IH.
      * apply IH.
Qed.

Section ScorePair.

Variable sine_predictor : SineParameterPredictor.t.
Variable drawn : string -> nat -> SineParameterPredictor.masks.

Lemma score_pair_value (ct : string) (g d : nat) (phs ge : list R)
    (a ph b : R) :
  (List.length ge <= d)%nat ->
  SineParameterPredictor.forward sine_predictor (drawn ct g)
    (ge ++ repeat 0 (d - List.length ge)) = Ok (a, ph, b) ->
  score_pair sine_predictor drawn ct g d phs ge =
  Ok (tadd (tmean (map (fun '(e, p) => (e - (a * sin (p + ph) + b)) ^ 2)
                       (filter (fun '(e, _) => is_nonzero e) (combine ge phs))))
           (Fin (0.01 * (a ^ 2 + b ^ 2)))).
Proof.
  intros Hle Hf. unfold score_pair.
  rewrite gene_input_full_ok by exact Hle. cbn [bind].
  rewrite Hf. cbn [bind].
  rewrite valid_head_is_nonzero_mask.
  now rewrite (masked_sq_diffs (fun p => a * sin (p + ph) + b)).
Qed.

Lemma score_pair_inv (ct : string) (g d : nat) (phs ge : list R) (c : tscalar) :
  score_pair sine_predictor drawn ct g d phs ge = Ok c ->
  exists a ph b,
    SineParameterPredictor.forward sine_predictor (drawn ct g)
      (ge ++ repeat 0 (d - List.length ge)) = Ok (a, ph, b) /\
    c = tadd (tmean (map (fun '(e, p) => (e - (a * sin (p + ph) + b)) ^ 2)
                         (filter (fun '(e, _) => is_nonzero e) (combine ge phs))))
             (Fin (0.01 * (a ^ 2 + b ^ 2))).
Proof.
  intros H.
  destruct (gene_input_full d ge) as [v | e] eqn:Hv.
  2:{ unfold score_pair in H. rewrite Hv in H. discriminate. }
  apply gene_input_full_inv in Hv as [Hle ->].
  destruct (SineParameterPredictor.forward sine_predictor (drawn ct g)
              (ge ++ repeat 0 (d - List.length ge))) as [[[a ph] b] | e] eqn:Hf.
  - exists a, ph, b. split; [ reflexivity | ].
    rewrite (score_pair_value ct g d phs ge a ph b Hle Hf) in H.
    now injection H as <-.
  - unfold score_pair in H. rewrite gene_input_full_ok in H by exact Hle.
    cbn [bind] in H. rewrite Hf in H. discriminate.
Qed.

Lemma score_pair_shape_error (ct : string) (g d : nat) (phs ge : list R) :
  (List.length ge <= d)%nat ->
  d <> SineParameterPredictor.input_dim sine_predictor ->
  score_pair sine_predictor drawn ct g d phs ge = Raise ShapeError.
Proof.
  intros Hle Hd. unfold score_pair.
  rewrite gene_input_full_ok by exact Hle. cbn [bind].
  rewrite predictor_forward_raise; [ reflexivity | ].
  now rewrite padded_length.
Qed.

Lemma score_pair_succeeds (ct : string) (g d : nat) (phs ge : list R) :
  (List.length ge <= d)%nat ->
  d = SineParameterPredictor.input_dim sine_predictor ->
  exists c, score_pair sine_predictor drawn ct g d phs ge = Ok c.
Proof.
  intros Hle Hd.
  destruct (predictor_forward_ok sine_predictor (drawn ct g)
              (ge ++ repeat 0 (d - List.length ge))) as [[[a ph] b] Hf].
  { now rewrite padded_length. }
  eexists. now apply score_pair_value with (a := a) (ph := ph) (b := b).
Qed.

End ScorePair.

Lemma neural_sine_loss_closed_form (sine_predictor : SineParameterPredictor.t)
    (drawn : string -> nat -> SineParameterPredictor.masks) (min_samples : nat)
    (phase_coords : list (R * R)) (expressions : list (list R))
    (celltypes : list string) (lambda_neural_sine : R) :
  neural_sine_fitting_loss sine_predictor drawn min_samples phase_coords
    (Some expressions) (Some celltypes) lambda_neural_sine =
  match contributions sine_predictor drawn min_samples
          (map coords_to_phase phase_coords) expressions celltypes with
  | [] => Fin 0
  | c :: cs =>
      tscale lambda_neural_sine
             (tdiv_nat (tsum (c :: cs)) (List.length (c :: cs)))
  end.
Proof.
  unfold neural_sine_fitting_loss.
  rewrite accumulate_closed_form. cbv zeta.
  now destruct (contributions _ _ _ _ _ _).
Qed.

Lemma gene_column_length_le (expressions : list (list R)) (celltypes : list string)
    (ct : string) (g : nat) :
  (List.length (gene_column expressions celltypes ct g) <= List.length expressions)%nat.
Proof.
  unfold gene_column. rewrite length_map. apply mask_select_length_le.
Qed.

Lemma pair_contribution_iff (sine_predictor : SineParameterPredictor.t)
    (drawn : string -> nat -> SineParameterPredictor.masks) (min_samples : nat)
    (phases : list R) (expressions : list (list R)) (celltypes : list string)
    (ct : string) (g : nat) (c : tscalar) :
  pair_contribution sine_predictor drawn min_samples phases expressions celltypes ct g
  = Some c <->
  pair_qualifies min_samples expressions celltypes ct g = true /\
  exists a ph b,
    SineParameterPredictor.forward sine_predictor (drawn ct g)
      (gene_column expressions celltypes ct g ++
       repeat 0 (List.length expressions
                 - List.length (gene_column expressions celltypes ct g)))
    = Ok (a, ph, b) /\
    c = tadd (tmean (sinusoid_sq_errors phases expressions celltypes a ph b ct g))
             (Fin (0.01 * (a ^ 2 + b ^ 2))).
Proof.
  unfold pair_contribution, sinusoid_sq_errors. split.
  - destruct (pair_qualifies _ _ _ _ _); [ | discriminate ].
    destruct (score_pair _ _ _ _ _ _ _) as [c' | e] eqn:Hs; [ | discriminate ].
    intros [= <-]. split; [ reflexivity | ].
    now apply score_pair_inv in Hs.
  - intros [-> (a & ph & b & Hf & ->)].
    rewrite (score_pair_value sine_predictor drawn ct g _ _ _ a ph b
               (gene_column_length_le expressions celltypes ct g) Hf).
    reflexivity.
Qed.

Lemma filter_all_nonzero (ge phs : list R) :
  Forall (fun e => e <> 0) ge ->
  filter (fun '(e, _) => is_nonzero e) (combine ge phs) = combine ge phs.
Proof.
  intros H. revert phs. induction H as [ | e ge He _ IH ]; intros phs.
  - reflexivity.
  - destruct phs as [ | ph phs ]; [ reflexivity | ].
    cbn [combine filter]. unfold is_nonzero at 1.
    destruct (Req_dec_T e 0); [ contradiction | ]. now rewrite IH.
Qed.

(** C6 (as amended).  The neural-sine-fitting term is 0 when no pair was
    scored and otherwise the weight times the sum of the scored pairs'
    contributions divided by their number.  A pair is scored exactly when
    it qualifies and the predictor returns a triple on its zero-filled
    input; it then adds the mean squared error between the sinusoid
    amplitude * sin(phase + phaseOffset) + baseline and the expression
    values, taken over the group members whose expression value is
    non-zero, plus 0.01 * (amplitude^2 + baseline^2).  When no value of the
    group is zero these members are all k members of the group. *)
Theorem neural_sine_term_pairwise (sine_predictor : SineParameterPredictor.t)
    (drawn : string -> nat -> SineParameterPredictor.masks) (min_samples : nat)
    (phase_coords : list (R * R)) (expressions : list (list R))
    (celltypes : list string) (lambda_neural_sine : R) :
  let phases := map coords_to_phase phase_coords in
  let cs := contributions sine_predictor drawn min_samples phases expressions
                          celltypes in
  neural_sine_fitting_loss sine_predictor drawn min_samples phase_coords
    (Some expressions) (Some celltypes) lambda_neural_sine =
  match cs with
  | [] => Fin 0
  | _ :: _ => tscale lambda_neural_sine (tdiv_nat (tsum cs) (List.length cs))
  end /\
  (forall ct g c,
     pair_contribution sine_predictor drawn min_samples phases expressions
                       celltypes ct g = Some c <->
     pair_qualifies min_samples expressions celltypes ct g = true /\
     exists amplitude phase_shift baseline,
       SineParameterPredictor.forward sine_predictor (drawn ct g)
         (gene_column expressions celltypes ct g ++
          repeat 0 (List.length expressions
                    - List.length (gene_column expressions celltypes ct g)))
       = Ok (amplitude, phase_shift, baseline) /\
       c = tadd (tmean (sinusoid_sq_errors phases expressions celltypes
                          amplitude phase_shift baseline ct g))
                (Fin (0.01 * (amplitude ^ 2 + baseline ^ 2)))) /\
  (forall ct g amplitude phase_shift baseline,
     Forall (fun e => e <> 0) (gene_column expressions celltypes ct g) ->
     sinusoid_sq_errors phases expressions celltypes
       amplitude phase_shift baseline ct g =
     map (fun '(e, ph) =>
            (e - (amplitude * sin (ph + phase_shift) + baseline)) ^ 2)
         (combine (gene_column expressions celltypes ct g)
                  (group_phases phases celltypes ct))).
Proof.
  cbv zeta. split; [ | split ].
  - rewrite neural_sine_loss_closed_form.
    now destruct (contributions _ _ _ _ _ _).
  - intros ct g c. apply pair_contribution_iff.
  - intros ct g a ph b Hnz. unfold sinusoid_sq_errors.
    now rewrite filter_all_nonzero.
Qed.

(** ** Worked evaluation of the sine-fit term *)

Lemma tanh_0 : tanh 0 = 0.
Proof. unfold tanh. rewrite sinh_0. unfold Rdiv. apply Rmult_0_l. Qed.

Lemma nonzero_0 : is_nonzero 0 = false.
Proof. unfold is_nonzero. destruct (Req_dec_T 0 0); [ reflexivity | contradiction ]. Qed.

Lemma nonzero_1 : is_nonzero 1 = true.
Proof. unfold is_nonzero. destruct (Req_dec_T 1 0); [ lra | reflexivity ]. Qed.

Lemma const_predictor_forward (d : nat) (b3 : R)
    (mk : SineParameterPredictor.masks) (x : list R) :
  List.length x = d ->
  SineParameterPredictor.forward (const_predictor d b3) mk x =
  Ok (SineParameterPredictor.softplus (0 + b3) + 1e-6, tanh (0 + b3) * PI, 0 + b3).
Proof.
  intros Hx. unfold SineParameterPredictor.forward, SineParameterPredictor.network.
  rewrite linear_ok by exact Hx. cbn [bind].
  rewrite linear_ok.
  2:{ rewrite dropout_layer_length, relu_length, length_map, length_seq. reflexivity. }
  cbn [bind].
  rewrite linear_ok.
  2:{ rewrite dropout_layer_length, relu_length, length_map, length_seq. reflexivity. }
  cbn [bind SineParameterPredictor.fc3 out_features weight bias seq map nth
       const_predictor const_sine_weights SineParameterPredictor.state_dict
       SineParameterPredictor.fc3_weight SineParameterPredictor.fc3_bias].
  rewrite !dot_zero_weights. reflexivity.
Qed.

Lemma zero_first_sq_errors (a : R) :
  sinusoid_sq_errors (map coords_to_phase (east_coords 5)) zero_first_expressions
    five_A a (tanh (0 + 0) * PI) (0 + 0) "A" 0 = [1; 1; 1; 1].
Proof.
  unfold sinusoid_sq_errors.
  change (gene_column zero_first_expressions five_A "A" 0) with [0; 1; 1; 1; 1].
  change (group_phases (map coords_to_phase (east_coords 5)) five_A "A")
    with (repeat (coords_to_phase (1, 0)) 5).
  rewrite coords_to_phase_east.
  cbn [repeat combine filter]. rewrite nonzero_0, nonzero_1.
  cbn [map].
  replace (0 + 0) with 0 by lra. rewrite tanh_0.
  replace (0 + 0 * PI) with 0 by lra. rewrite sin_0.
  replace ((1 - (a * 0 + 0)) ^ 2) with 1 by lra.
  reflexivity.
Qed.

Lemma zero_first_loss :
  neural_sine_fitting_loss (const_predictor 5 0) (fun _ _ => keep_all) 5
    (east_coords 5) (Some zero_first_expressions) (Some five_A) 1 =
  Fin (1 + 0.01 * ((SineParameterPredictor.softplus (0 + 0) + 1e-6) ^ 2
                   + (0 + 0) ^ 2)).
Proof.
  rewrite neural_sine_loss_closed_form.
  unfold contributions.
  change (np_unique five_A) with ["A"%string].
  cbn [flat_map]. unfold celltype_contributions.
  change (n_columns zero_first_expressions) with 1%nat.
  cbn [seq flat_map].
  assert (H : pair_contribution (const_predictor 5 0) (fun _ _ => keep_all) 5
                (map coords_to_phase (east_coords 5)) zero_first_expressions five_A "A" 0
              = Some (tadd (tmean [1; 1; 1; 1])
                           (Fin (0.01 * ((SineParameterPredictor.softplus (0 + 0) + 1e-6) ^ 2
                                         + (0 + 0) ^ 2))))).
  { apply pair_contribution_iff. split; [ reflexivity | ].
    eexists _, _, _. split.
    - apply const_predictor_forward. reflexivity.
    - now rewrite zero_first_sq_errors. }
  rewrite H. cbn [present app tsum fold_left tadd tmean tdiv_nat tscale List.length rsum fold_right INR].
  f_equal. lra.
Qed.

Lemma neural_sine_term_pairwise_witness :
  Forall (fun e => e <> 0) (gene_column (repeat [1] 5) five_A "A" 0) /\
  sinusoid_sq_errors (map coords_to_phase (east_coords 5)) (repeat [1] 5) five_A
    2 0 1 "A" 0 =
  map (fun '(e, ph) => (e - (2 * sin (ph + 0) + 1)) ^ 2)
      (combine (gene_column (repeat [1] 5) five_A "A" 0)
               (group_phases (map coords_to_phase (east_coords 5)) five_A "A")).
Proof.
  assert (H : Forall (fun e => e <> 0) (gene_column (repeat [1] 5) five_A "A" 0)).
  { change (gene_column (repeat [1] 5) five_A "A" 0) with [1; 1; 1; 1; 1].
    repeat constructor; lra. }
  split; [ exact H | ].
  exact (proj2 (proj2 (neural_sine_term_pairwise (const_predictor 5 0)
                         (fun _ _ => keep_all) 5 (east_coords 5) (repeat [1] 5)
                         five_A 1))
               "A"%string 0%nat 2 0 1 H).
Defined.

(** C6, counterexample.  Five samples of one celltype and one gene with
    expression values 0, 1, 1, 1, 1, all predicted at angle 0, and a
    predictor returning phase offset 0 and baseline 0: the sinusoid is 0 at
    every member, the code averages the squared error over the four
    non-zero members (giving 1), whereas the mean over the first k = 5
    positions is 4/5. *)
Lemma zero_valued_member_left_out :
  exists amplitude phase_shift baseline v,
    SineParameterPredictor.forward (const_predictor 5 0) keep_all [0; 1; 1; 1; 1]
    = Ok (amplitude, phase_shift, baseline) /\
    neural_sine_fitting_loss (const_predictor 5 0) (fun _ _ => keep_all) 5
      (east_coords 5) (Some zero_first_expressions) (Some five_A) 1 = Fin v /\
    v <> 1 * ((rsum (map (fun '(e, ph) =>
                            (e - (amplitude * sin (ph + phase_shift) + baseline)) ^ 2)
                         (combine [0; 1; 1; 1; 1]
                                  (map coords_to_phase (east_coords 5)))) / 5
               + 0.01 * (amplitude ^ 2 + baseline ^ 2)) / 1).
Proof.
  eexists _, _, _, _. split; [ | split ].
  - apply const_predictor_forward. reflexivity.
  - apply zero_first_loss.
  - change (map coords_to_phase (east_coords 5))
      with (repeat (coords_to_phase (1, 0)) 5).
    rewrite coords_to_phase_east.
    cbn [repeat combine map rsum fold_right].
    replace (0 + 0) with 0 by lra. rewrite tanh_0.
    replace (0 + 0 * PI) with 0 by lra. rewrite sin_0.
    set (a := SineParameterPredictor.softplus 0 + 1e-6).
    lra.
Qed.

(** ** Counting the scored pairs *)

Lemma mask_select_length {A : Type} (mask : list bool) (xs : list A) :
  List.length mask = List.length xs ->
  List.length (mask_select mask xs) = count_true mask.
Proof.
  unfold mask_select, count_true. rewrite length_map.
  revert xs. induction mask as [ | b mask IH ]; intros xs Hlen.
  - reflexivity.
  - destruct xs as [ | x xs ]; [ discriminate | ].
    injection Hlen as Hlen. cbn [combine filter fst].
    destruct b; cbn [List.length]; now rewrite IH.
Qed.

Lemma gene_column_length (expressions : list (list R)) (celltypes : list string)
    (ct : string) (g : nat) :
  List.length celltypes = List.length expressions ->
  List.length (gene_column expressions celltypes ct g) = group_size celltypes ct.
Proof.
  intros Hlen. unfold gene_column, group_size. rewrite length_map.
  apply mask_select_length. unfold group_mask. now rewrite length_map.
Qed.

Lemma flat_map_singletons {A B : Type} (f : A -> list B) (l : list A) :
  (forall a, List.length (f a) = 1%nat) ->
  List.length (flat_map f l) = List.length l.
Proof.
  intros H. induction l as [ | a l IH ]; cbn [flat_map List.length]; [ reflexivity | ].
  now rewrite length_app, H, IH.
Qed.

Section Counting.

Variable sine_predictor : SineParameterPredictor.t.
Variable drawn : string -> nat -> SineParameterPredictor.masks.
Variable min_samples : nat.
Variable phases : list R.
Variable expressions : list (list R).
Variable celltypes : list string.
Hypothesis aligned : List.length celltypes = List.length expressions.
Hypothesis fits :
  SineParameterPredictor.input_dim sine_predictor = List.length expressions.

Lemma qualified_pair_is_scored (ct : string) (g : nat) :
  group_qualifies min_samples celltypes ct = true ->
  List.length
    (present (pair_contribution sine_predictor drawn min_samples phases
                                expressions celltypes ct g)) = 1%nat.
Proof.
  intros Hq. unfold pair_contribution, pair_qualifies. rewrite Hq.
  rewrite gene_column_length by exact aligned.
  pose proof Hq as Hq'. unfold group_qualifies in Hq'.
  apply andb_prop in Hq' as [_ ->]. cbn [andb].
  destruct (score_pair_succeeds sine_predictor drawn ct g
              (List.length expressions) (group_phases phases celltypes ct)
              (gene_column expressions celltypes ct g)
              (gene_column_length_le expressions celltypes ct g)
              (eq_sym fits)) as [c ->].
  reflexivity.
Qed.

Lemma celltype_contributions_count (ct : string) :
  List.length (celltype_contributions sine_predictor drawn min_samples phases
                                      expressions celltypes ct) =
  if group_qualifies min_samples celltypes ct then n_columns expressions else 0%nat.
Proof.
  destruct (group_qualifies min_samples celltypes ct) eqn:Hq.
  - unfold celltype_contributions.
    rewrite flat_map_singletons, length_seq; [ reflexivity | ].
    intros g. now apply qualified_pair_is_scored.
  - now rewrite unqualified_group_adds_nothing.
Qed.

Lemma contributions_count :
  List.length (contributions sine_predictor drawn min_samples phases
                             expressions celltypes) =
  (n_columns expressions *
   List.length (filter (group_qualifies min_samples celltypes)
                       (np_unique celltypes)))%nat.
Proof.
  unfold contributions.
  induction (np_unique celltypes) as [ | ct l IH ].
  - cbn. lia.
  - cbn [flat_map filter]. rewrite length_app, IH, celltype_contributions_count.
    destruct (group_qualifies min_samples celltypes ct); cbn [List.length]; lia.
Qed.

End Counting.

(** C7.  The combination counter equals the number of scored pairs.  A pair
    is scored only if its celltype is not the PADDING sentinel, its group
    has at least [min_samples] members and the gene has at least
    [min_samples] values for that group; the loop iteration of a PADDING or
    under-sized group leaves both accumulators untouched.  When the
    predictor accepts the rows it is given, the counter is the gene count
    times the number of qualifying groups; with groups of sizes 6 and 4 and
    threshold 5 it is the gene count, one gene count lower than with
    threshold 4. *)
Theorem sine_fit_combination_count (sine_predictor : SineParameterPredictor.t)
    (drawn : string -> nat -> SineParameterPredictor.masks) (min_samples : nat)
    (phase_coords : list (R * R)) (expressions : list (list R))
    (celltypes : list string) :
  let phases := map coords_to_phase phase_coords in
  snd (accumulate sine_predictor drawn min_samples phase_coords expressions celltypes)
  = List.length (contributions sine_predictor drawn min_samples phases
                               expressions celltypes) /\
  (forall ct g c,
     pair_contribution sine_predictor drawn min_samples phases expressions
                       celltypes ct g = Some c ->
     ct <> PADDING /\
     (min_samples <= group_size celltypes ct)%nat /\
     (min_samples <= List.length (gene_column expressions celltypes ct g))%nat) /\
  (forall acc ct,
     ct = PADDING \/ (group_size celltypes ct < min_samples)%nat ->
     celltype_step sine_predictor drawn min_samples phases expressions celltypes
                   acc ct = acc) /\
  (List.length celltypes = List.length expressions ->
   SineParameterPredictor.input_dim sine_predictor = List.length expressions ->
   snd (accumulate sine_predictor drawn min_samples phase_coords expressions celltypes)
   = (n_columns expressions *
      List.length (filter (group_qualifies min_samples celltypes)
                          (np_unique celltypes)))%nat) /\
  (List.length expressions = 10%nat ->
   SineParameterPredictor.input_dim sine_predictor = 10%nat ->
   snd (accumulate sine_predictor drawn 5 phase_coords expressions
                   scenario_B_celltypes) = n_columns expressions /\
   snd (accumulate sine_predictor drawn 4 phase_coords expressions
                   scenario_B_celltypes)
   = (n_columns expressions + n_columns expressions)%nat).
Proof.
  cbv zeta. split; [ | split; [ | split; [ | split ] ] ].
  - now rewrite accumulate_closed_form.
  - intros ct g c H. apply pair_contribution_iff in H as [Hq _].
    unfold pair_qualifies, group_qualifies in Hq.
    apply andb_prop in Hq as [Hq Hcol]. apply andb_prop in Hq as [Hpad Hsize].
    apply negb_true_iff, String.eqb_neq in Hpad.
    apply Nat.leb_le in Hsize. apply Nat.leb_le in Hcol. now repeat split.
  - intros acc ct H. apply celltype_step_skips. unfold group_qualifies.
    destruct H as [-> | Hlt].
    + now rewrite String.eqb_refl.
    + apply Nat.leb_gt in Hlt. rewrite Hlt. apply andb_false_r.
  - intros Hlen Hfit. rewrite accumulate_closed_form. cbn [snd].
    now apply contributions_count.
  - intros Hlen Hfit. rewrite !accumulate_closed_form. cbn [snd].
    rewrite !contributions_count by (rewrite ?Hlen; (reflexivity || assumption)).
    change (filter (group_qualifies 5 scenario_B_celltypes)
                   (np_unique scenario_B_celltypes)) with ["A"%string].
    change (filter (group_qualifies 4 scenario_B_celltypes)
                   (np_unique scenario_B_celltypes)) with ["A"%string; "B"%string].
    cbn [List.length]. lia.
Qed.

Lemma sine_fit_combination_count_witness :
  List.length five_A = List.length (repeat [1] 5) /\
  SineParameterPredictor.input_dim (const_predictor 5 0) = List.length (repeat [1] 5) /\
  snd (accumulate (const_predictor 5 0) (fun _ _ => keep_all) 5 (east_coords 5)
                  (repeat [1] 5) five_A)
  = (n_columns (repeat [1%R] 5) *
     List.length (filter (group_qualifies 5 five_A) (np_unique five_A)))%nat.
Proof.
  split; [ reflexivity | split; [ reflexivity | ] ].
  exact (proj1 (proj2 (proj2 (proj2
           (sine_fit_combination_count (const_predictor 5 0)
              (fun _ _ => keep_all) 5 (east_coords 5) (repeat [1] 5) five_A))))
           eq_refl eq_refl).
Defined.

(** ** Preparing the training tensors *)

Lemma map_nth_seq {A : Type} (l : list A) (d : A) :
  map (fun i => nth i l d) (seq 0 (List.length l)) = l.
Proof.
  induction l as [ | a l IH ]; [ reflexivity | ].
  cbn [List.length seq map nth]. f_equal.
  rewrite <- seq_shift, map_map. exact IH.
Qed.


Lemma prepare_inv (ds : ExpressionDataset) (data : Prepared) :
  prepare ds = Ok data ->
  expressions ds <> [] /\
  expressions_tensor data = expressions ds /\
  valid_mask_tensor data = map (fun i => is_valid (getitem ds i)) (seq 0 (len ds)) /\
  times_tensor data =
    nonempty (flat_map (fun i => present (time (getitem ds i))) (seq 0 (len ds))) /\
  celltypes_array data =
    nonempty (flat_map (fun i => present (celltype (getitem ds i))) (seq 0 (len ds))).
Proof.
  unfold prepare. rewrite !map_map, !flat_map_concat_map, !map_map.
  cbn [expression getitem].
  unfold len. rewrite map_nth_seq.
  destruct (expressions ds) as [ | row rows ] eqn:He; [ discriminate | ].
  intros [= <-].
  cbn [expressions_tensor valid_mask_tensor times_tensor celltypes_array].
  repeat split. discriminate.
Qed.

Lemma prepare_ok (ds : ExpressionDataset) :
  expressions ds <> [] -> exists data, prepare ds = Ok data.
Proof.
  intros Hne. unfold prepare. rewrite !map_map. cbn [expression getitem].
  unfold len. rewrite map_nth_seq.
  destruct (expressions ds) as [ | row rows ]; [ contradiction | ].
  eexists. reflexivity.
Qed.



(** ** Row-wise forward pass and masked rows *)

Lemma agree_on_length {A : Type} (mask : list bool) (xs ys : list A) :
  agree_on mask xs ys ->
  List.length xs = List.length mask /\ List.length ys = List.length mask.
Proof.
  induction 1 as [ | x mask xs ys _ [IH1 IH2] | x y mask xs ys _ [IH1 IH2] ];
    cbn [List.length]; split; congruence.
Qed.

Lemma agree_on_select {A : Type} (mask : list bool) (xs ys : list A) :
  agree_on mask xs ys -> mask_select mask xs = mask_select mask ys.
Proof.
  unfold mask_select.
  induction 1 as [ | x mask xs ys _ IH | x y mask xs ys _ IH ];
    cbn [combine filter fst map snd]; [ reflexivity | now f_equal | exact IH ].
Qed.

Lemma agree_on_map {A B : Type} (f : A -> B) (mask : list bool) (xs ys : list A) :
  agree_on mask xs ys -> agree_on mask (map f xs) (map f ys).
Proof.
  induction 1; cbn [map]; now constructor.
Qed.

Lemma agree_on_mapM {A B : Type} (f : A -> result B) (mask : list bool)
    (xs ys : list A) (us vs : list B) :
  agree_on mask xs ys ->
  mapM f xs = Ok us -> mapM f ys = Ok vs -> agree_on mask us vs.
Proof.
  intros H. revert us vs.
  induction H as [ | x mask xs ys _ IH | x y mask xs ys _ IH ]; intros us vs;
    cbn [mapM].
  - intros [= <-] [= <-]. constructor.
  - destruct (f x) as [b | e]; cbn [bind]; [ | discriminate ].
    destruct (mapM f xs) as [bs | e]; cbn [bind]; [ | discriminate ].
    destruct (mapM f ys) as [cs | e]; cbn [bind]; [ | discriminate ].
    intros [= <-] [= <-]. constructor. now apply IH.
  - destruct (f x) as [b | e]; cbn [bind]; [ | discriminate ].
    destruct (mapM f xs) as [bs | e]; cbn [bind]; [ | discriminate ].
    destruct (f y) as [c | e]; cbn [bind]; [ | discriminate ].
    destruct (mapM f ys) as [cs | e]; cbn [bind]; [ | discriminate ].
    intros [= <-] [= <-]. constructor. now apply IH.
Qed.

Lemma mapM_ok {A B : Type} (f : A -> result B) (xs : list A) :
  Forall (fun x => exists b, f x = Ok b) xs ->
  exists bs, mapM f xs = Ok bs /\ List.length bs = List.length xs.
Proof.
  induction 1 as [ | x xs [b Hb] _ [bs [IH Hlen]] ]; cbn [mapM].
  - now exists [].
  - rewrite Hb, IH. cbn [bind]. exists (b :: bs).
    split; [ reflexivity | ]. cbn [List.length]. now rewrite Hlen.
Qed.

Lemma forward_ok (m : PhaseAutoEncoder.t) (x : list (list R)) :
  Forall (fun row => List.length row = PhaseAutoEncoder.input_dim m) x ->
  exists phase_coords reconstructed,
    PhaseAutoEncoder.forward m x = Ok (phase_coords, reconstructed) /\
    List.length phase_coords = List.length x /\
    List.length reconstructed = List.length x.
Proof.
  intros Hw.
  destruct (mapM_ok (PhaseAutoEncoder.forward_row m) x) as (rows & Hrows & Hlen).
  { eapply Forall_impl; [ | exact Hw ]. cbn beta. intros row Hrow.
    destruct (forward_row_ok m row Hrow) as (u & rec & Hf & _).
    exists (u, rec). exact Hf. }
  unfold PhaseAutoEncoder.forward. rewrite Hrows. cbn [bind].
  eexists _, _. split; [ reflexivity | ].
  now rewrite !length_map.
Qed.

Lemma forward_agree (m : PhaseAutoEncoder.t) (mask : list bool)
    (x x' : list (list R)) (pc pc' : list (R * R)) (rec rec' : list (list R)) :
  agree_on mask x x' ->
  PhaseAutoEncoder.forward m x = Ok (pc, rec) ->
  PhaseAutoEncoder.forward m x' = Ok (pc', rec') ->
  mask_select mask pc = mask_select mask pc' /\
  mask_select mask rec = mask_select mask rec'.
Proof.
  intros Hag. unfold PhaseAutoEncoder.forward.
  destruct (mapM (PhaseAutoEncoder.forward_row m) x) as [rows | e] eqn:Hr;
    cbn [bind]; [ | discriminate ].
  destruct (mapM (PhaseAutoEncoder.forward_row m) x') as [rows' | e] eqn:Hr';
    cbn [bind]; [ | discriminate ].
  intros [= <- <-] [= <- <-].
  pose proof (agree_on_mapM _ _ _ _ _ _ Hag Hr Hr') as Hrows.
  split; apply agree_on_select; now apply agree_on_map.
Qed.

(** ** The epoch loop *)

Section TrainingFacts.

Variable model_input_dim : nat.
Variables sine_input_dim sine_hidden_dim : nat.
Variable sine_dropout : R.
Variable optimizer_step :
  nat -> PhaseAutoEncoder.weights * SineParameterPredictor.weights ->
  PhaseAutoEncoder.weights * SineParameterPredictor.weights.
Variable drawn : nat -> string -> nat -> SineParameterPredictor.masks.
Variable info : PreprocessingInfo.
Variables lambda_recon lambda_time lambda_neural_sine period_hours : R.

Local Abbreviation losses :=
  (epoch_losses model_input_dim sine_input_dim sine_hidden_dim sine_dropout
                drawn info period_hours).
Local Abbreviation total := (total_of lambda_recon lambda_time lambda_neural_sine).
Local Abbreviation run :=
  (run_epochs model_input_dim sine_input_dim sine_hidden_dim sine_dropout
              optimizer_step drawn info lambda_recon lambda_time
              lambda_neural_sine period_hours).
Local Abbreviation train :=
  (train_model model_input_dim sine_input_dim sine_hidden_dim sine_dropout
               optimizer_step drawn info lambda_recon lambda_time
               lambda_neural_sine period_hours).
Local Abbreviation trajectory := (weights_at optimizer_step).

Local Abbreviation recorded :=
  (recorded model_input_dim sine_input_dim sine_hidden_dim sine_dropout
            optimizer_step drawn info lambda_recon lambda_time
            lambda_neural_sine period_hours).

Lemma epoch_losses_inv (epoch : nat) (data : Prepared)
    (mw : PhaseAutoEncoder.weights) (sw : SineParameterPredictor.weights)
    (terms : LossTerms) :
  losses epoch data mw sw = Ok terms ->
  exists phase_coords reconstructed,
    PhaseAutoEncoder.forward (model_of model_input_dim mw)
                             (expressions_tensor data)
    = Ok (phase_coords, reconstructed) /\
    recon_loss terms = recon_term data reconstructed /\
    time_loss terms = time_term info period_hours data phase_coords /\
    neural_sine_loss terms =
      sine_term drawn info epoch
                (predictor_of sine_input_dim sine_hidden_dim sine_dropout sw)
                data phase_coords.
Proof.
  unfold epoch_losses.
  destruct (PhaseAutoEncoder.forward _ _) as [[pc rec] | e]; cbn [bind];
    [ | discriminate ].
  intros [= <-]. exists pc, rec. now repeat split.
Qed.

Lemma epoch_losses_ok (epoch : nat) (data : Prepared)
    (mw : PhaseAutoEncoder.weights) (sw : SineParameterPredictor.weights) :
  Forall (fun row => List.length row = model_input_dim) (expressions_tensor data) ->
  exists terms, losses epoch data mw sw = Ok terms.
Proof.
  intros Hw.
  destruct (forward_ok (model_of model_input_dim mw) (expressions_tensor data) Hw)
    as (pc & rec & Hf & _).
  unfold epoch_losses. rewrite Hf. cbn [bind]. eexists. reflexivity.
Qed.

Lemma run_epochs_inv (data : Prepared) (mw0 : PhaseAutoEncoder.weights)
    (sw0 : SineParameterPredictor.weights) (n : nat) :
  forall (s : nat) (st st' : TrainState),
    (model_weights st, sine_weights st) = trajectory mw0 sw0 s ->
    run data (seq s n) st = Ok st' ->
    (model_weights st', sine_weights st') = trajectory mw0 sw0 (s + n) /\
    exists new,
      history st' = history st ++ new /\
      Forall2 (recorded data mw0 sw0) (seq s n) new.
Proof.
  induction n as [ | n IH ]; intros s st st' Hst; cbn [seq run_epochs].
  - intros [= <-]. rewrite Nat.add_0_r. split; [ exact Hst | ].
    exists []. split; [ now rewrite app_nil_r | constructor ].
  - unfold epoch_step at 1.
    destruct (losses s data (model_weights st) (sine_weights st))
      as [terms | e] eqn:Hl; cbn [bind]; [ | discriminate ].
    destruct (backward data) as [ [] | e ]; cbn [bind]; [ | discriminate ].
    destruct (optimizer_step s (model_weights st, sine_weights st))
      as [mw sw] eqn:Hopt. cbn [bind].
    intros Hrun. apply IH in Hrun.
    + destruct Hrun as [Hw (new & Hh & Hrec)]. cbn [history] in Hh.
      split; [ now rewrite Nat.add_succ_r | ].
      exists (total terms :: new). split.
      * now rewrite Hh, <- app_assoc.
      * constructor; [ | exact Hrec ].
        exists terms. rewrite <- Hst. cbn [fst snd]. now split.
    + cbn [model_weights sine_weights weights_at]. now rewrite <- Hst, Hopt.
Qed.

Lemma run_epochs_ok (data : Prepared) (n : nat) :
  Forall (fun row => List.length row = model_input_dim) (expressions_tensor data) ->
  (0 < count_true (valid_mask_tensor data))%nat ->
  forall (s : nat) (st : TrainState), exists st', run data (seq s n) st = Ok st'.
Proof.
  intros Hw Hv. induction n as [ | n IH ]; intros s st; cbn [seq run_epochs].
  - now exists st.
  - unfold epoch_step at 1.
    destruct (epoch_losses_ok s data (model_weights st) (sine_weights st) Hw)
      as [terms ->]. cbn [bind].
    unfold backward. apply Nat.ltb_lt in Hv. rewrite Hv. cbn [bind].
    destruct (optimizer_step s (model_weights st, sine_weights st)) as [mw sw].
    cbn [bind]. apply IH.
Qed.

Lemma train_model_inv (mw0 : PhaseAutoEncoder.weights)
    (sw0 : SineParameterPredictor.weights) (ds : ExpressionDataset)
    (num_epochs : nat) (outcome : TrainOutcome) :
  train mw0 sw0 ds num_epochs = Ok outcome ->
  exists data,
    prepare ds = Ok data /\
    final_checkpoint outcome =
      {| model_state_dict := fst (trajectory mw0 sw0 num_epochs);
         preprocessing_info := info;
         train_losses := returned_losses outcome |} /\
    trained_model outcome = fst (trajectory mw0 sw0 num_epochs) /\
    trained_sine_predictor outcome = snd (trajectory mw0 sw0 num_epochs) /\
    Forall2 (recorded data mw0 sw0) (seq 0 num_epochs) (returned_losses outcome).
Proof.
  unfold train_model.
  destruct (prepare ds) as [data | e]; cbn [bind]; [ | discriminate ].
  destruct (run data (seq 0 num_epochs) _) as [st | e] eqn:Hrun; cbn [bind];
    [ | discriminate ].
  intros [= <-]. exists data. split; [ reflexivity | ].
  apply (run_epochs_inv data mw0 sw0) in Hrun; [ | reflexivity ].
  destruct Hrun as [Hw (new & Hh & Hrec)]. cbn [history app] in Hh.
  cbn [final_checkpoint trained_model trained_sine_predictor returned_losses
       Nat.add] in *.
  rewrite <- Hw, Hh. cbn [fst snd]. now repeat split.
Qed.

Lemma train_model_ok (mw0 : PhaseAutoEncoder.weights)
    (sw0 : SineParameterPredictor.weights) (ds : ExpressionDataset)
    (num_epochs : nat) :
  expressions ds <> [] ->
  Forall (fun row => List.length row = model_input_dim) (expressions ds) ->
  (0 < valid_count ds)%nat ->
  exists outcome, train mw0 sw0 ds num_epochs = Ok outcome.
Proof.
  intros Hne Hw Hv. destruct (prepare_ok ds Hne) as [data Hp].
  unfold train_model. rewrite Hp. cbn [bind].
  pose proof Hp as Hi. apply prepare_inv in Hi as (_ & He & Hm & _).
  rewrite <- He in Hw. unfold valid_count in Hv. rewrite <- Hm in Hv.
  destruct (run_epochs_ok data num_epochs Hw Hv 0%nat
              {| model_weights := mw0; sine_weights := sw0; history := [] |})
    as [st ->].
  cbn [bind]. eexists. reflexivity.
Qed.


Lemma celltypes_array_absent (ds : ExpressionDataset) (data : Prepared) :
  prepare ds = Ok data -> celltypes ds = None -> celltypes_array data = None.
Proof.
  intros Hp Hc. apply prepare_inv in Hp as (_ & _ & _ & _ & ->).
  unfold getitem. cbn [celltype]. rewrite Hc. cbn [option_map present].
  now rewrite flat_map_all_nil.
Qed.


Lemma sine_term_absent (epoch : nat) (sp : SineParameterPredictor.t)
    (data : Prepared) (phase_coords : list (R * R)) :
  celltypes_array data = None ->
  sine_term drawn info epoch sp data phase_coords = Fin 0.
Proof.
  intros H. unfold sine_term. rewrite H. now destruct (train_has_celltype info).
Qed.

(** C2 (as amended).  When training completes, the saved checkpoint holds
    the phase encoder/decoder's learned parameters (the initial weights
    after the optimizer updates of all epochs, in order; the returned model
    holds the same), the preprocessing metadata it was given, and the loss
    history: one entry per epoch, each the weighted total of that epoch's
    three terms.  (The checkpoint has no entry for the sine-parameter
    predictor.) *)
Theorem checkpoint_contents (mw0 : PhaseAutoEncoder.weights)
    (sw0 : SineParameterPredictor.weights) (ds : ExpressionDataset)
    (num_epochs : nat) (outcome : TrainOutcome) :
  train mw0 sw0 ds num_epochs = Ok outcome ->
  model_state_dict (final_checkpoint outcome)
  = fst (trajectory mw0 sw0 num_epochs) /\
  trained_model outcome = fst (trajectory mw0 sw0 num_epochs) /\
  model_state_dict (final_checkpoint outcome) = trained_model outcome /\
  preprocessing_info (final_checkpoint outcome) = info /\
  train_losses (final_checkpoint outcome) = returned_losses outcome /\
  List.length (train_losses (final_checkpoint outcome)) = num_epochs /\
  exists data,
    prepare ds = Ok data /\
    Forall2 (recorded data mw0 sw0) (seq 0 num_epochs)
            (train_losses (final_checkpoint outcome)).
Proof.
  intros H. apply train_model_inv in H as (data & Hp & -> & -> & _ & Hrec).
  cbn [model_state_dict preprocessing_info train_losses].
  repeat split.
  - apply Forall2_length in Hrec. now rewrite length_seq in Hrec.
  - now exists data.
Qed.

Lemma count_true_all (A : Type) (l : list A) :
  count_true (map (fun _ => true) l) = List.length l.
Proof.
  unfold count_true.
  induction l as [ | a l IH ]; cbn [map filter List.length];
    [ reflexivity | now rewrite IH ].
Qed.

Lemma unlabelled_rows_all_valid (ds : ExpressionDataset) :
  celltypes ds = None -> valid_count ds = len ds.
Proof.
  intros Hc. unfold valid_count, is_valid, getitem. cbn [celltype].
  rewrite Hc. cbn [option_map].
  now rewrite count_true_all, length_seq.
Qed.





End TrainingFacts.

(** ** Worked training runs *)

Lemma checkpoint_contents_witness :
  exists outcome,
    train_model 1 1 2 0.1 bias_step (fun _ _ _ => keep_all)
      (info_of false false 1 1 1) 1 0.5 0.1 24
      zero_phase_weights (const_sine_weights 0) single_sample 3 = Ok outcome /\
    PhaseAutoEncoder.decoder_bias (model_state_dict (final_checkpoint outcome))
      0%nat = 3 /\
    PhaseAutoEncoder.decoder_bias zero_phase_weights 0%nat = 0 /\
    model_state_dict (final_checkpoint outcome) = trained_model outcome /\
    List.length (train_losses (final_checkpoint outcome)) = 3%nat.
Proof.
  destruct (train_model_ok 1 1 2 0.1 bias_step (fun _ _ _ => keep_all)
              (info_of false false 1 1 1) 1 0.5 0.1 24
              zero_phase_weights (const_sine_weights 0) single_sample 3)
    as [outcome H].
  - discriminate.
  - repeat constructor.
  - cbn. lia.
  - exists outcome. split; [ exact H | ].
    destruct (checkpoint_contents _ _ _ _ _ _ _ _ _ _ _ _ _ _ _ _ H)
      as (Hw & _ & Hm & _ & _ & Hn & _).
    split; [ | split; [ reflexivity | split; assumption ] ].
    rewrite Hw.
    cbn [weights_at bias_step fst PhaseAutoEncoder.decoder_bias
         zero_phase_weights].
    lra.
Defined.



Lemma epoch_losses_without_celltypes (d si sh : nat) (sd : R)
    (drawn : nat -> string -> nat -> SineParameterPredictor.masks)
    (info : PreprocessingInfo) (period : R) (epoch : nat) (data : Prepared)
    (mw : PhaseAutoEncoder.weights) (sw sw' : SineParameterPredictor.weights) :
  celltypes_array data = None ->
  epoch_losses d si sh sd drawn info period epoch data mw sw =
  epoch_losses d si sh sd drawn info period epoch data mw sw'.
Proof.
  intros Hc. unfold epoch_losses.
  destruct (PhaseAutoEncoder.forward _ _) as [[pc rec] | e]; cbn [bind];
    [ | reflexivity ].
  now rewrite !sine_term_absent.
Qed.

(** C2, counterexample.  Two runs of one epoch on a dataset without
    celltypes, with a frozen optimizer, that differ only in the sine
    predictor's parameters: the saved checkpoints are equal although the
    predictors' final parameters differ. *)
Lemma checkpoint_omits_sine_predictor :
  exists o1 o2,
    train_model 1 1 2 0.1 frozen_step (fun _ _ _ => keep_all)
      (info_of false false 1 1 1) 1 0.5 0.1 24
      zero_phase_weights (const_sine_weights 0) single_sample 1 = Ok o1 /\
    train_model 1 1 2 0.1 frozen_step (fun _ _ _ => keep_all)
      (info_of false false 1 1 1) 1 0.5 0.1 24
      zero_phase_weights (const_sine_weights 1) single_sample 1 = Ok o2 /\
    final_checkpoint o1 = final_checkpoint o2 /\
    trained_sine_predictor o1 <> trained_sine_predictor o2.
Proof.
  assert (Hne : expressions single_sample <> []) by discriminate.
  assert (Hw : Forall (fun row => List.length row = 1%nat) (expressions single_sample))
    by (repeat constructor).
  assert (Hv : (0 < valid_count single_sample)%nat) by (cbn; lia).
  destruct (train_model_ok 1 1 2 0.1 frozen_step (fun _ _ _ => keep_all)
              (info_of false false 1 1 1) 1 0.5 0.1 24
              zero_phase_weights (const_sine_weights 0) single_sample 1 Hne Hw Hv)
    as [o1 H1].
  destruct (train_model_ok 1 1 2 0.1 frozen_step (fun _ _ _ => keep_all)
              (info_of false false 1 1 1) 1 0.5 0.1 24
              zero_phase_weights (const_sine_weights 1) single_sample 1 Hne Hw Hv)
    as [o2 H2].
  exists o1, o2. split; [ exact H1 | split; [ exact H2 | ] ].
  apply train_model_inv in H1 as (data & Hp & -> & _ & -> & Hr1).
  apply train_model_inv in H2 as (data' & Hp' & -> & _ & -> & Hr2).
  rewrite Hp in Hp'. injection Hp' as <-.
  cbn [weights_at frozen_step fst snd seq] in *.
  split.
  - f_equal.
    inversion Hr1 as [ | e1 l1 es1 ls1 Hrec1 Hrest1 ]; subst.
    inversion Hr2 as [ | e2 l2 es2 ls2 Hrec2 Hrest2 ]; subst.
    inversion Hrest1; subst. inversion Hrest2; subst.
    destruct Hrec1 as (t1 & Ht1 & ->). destruct Hrec2 as (t2 & Ht2 & ->).
    cbn [weights_at fst snd] in Ht1, Ht2.
    rewrite (epoch_losses_without_celltypes _ _ _ _ _ _ _ _ _ _ _ (const_sine_weights 1))
      in Ht1 by (now apply (celltypes_array_absent single_sample)).
    rewrite Ht1 in Ht2. now injection Ht2 as <-.
  - intros Heq.
    apply (f_equal (fun w => SineParameterPredictor.fc3_bias w 0%nat)) in Heq.
    cbn in Heq. lra.
Qed.

(** ** Rows outside the mask *)




(** ** Width of the vector fed to the sine-parameter predictor *)

Lemma gene_input_full_shape (d : nat) (ge v : list R) :
  gene_input_full d ge = Ok v ->
  List.length v = d /\
  firstn (List.length ge) v = ge /\
  skipn (List.length ge) v = repeat 0 (d - List.length ge).
Proof.
  intros H. apply gene_input_full_inv in H as [Hle ->].
  split; [ now apply padded_length | split ].
  - rewrite firstn_app, Nat.sub_diag, firstn_all. cbn. apply app_nil_r.
  - rewrite skipn_app, Nat.sub_diag, skipn_all. reflexivity.
Qed.

Lemma contributions_nil_on_mismatch (sine_predictor : SineParameterPredictor.t)
    (drawn : string -> nat -> SineParameterPredictor.masks) (min_samples : nat)
    (phases : list R) (expressions : list (list R)) (celltypes : list string) :
  List.length expressions <> SineParameterPredictor.input_dim sine_predictor ->
  contributions sine_predictor drawn min_samples phases expressions celltypes = [].
Proof.
  intros Hd. unfold contributions.
  apply flat_map_all_nil. intros ct. unfold celltype_contributions.
  apply flat_map_all_nil. intros g. unfold pair_contribution.
  destruct (pair_qualifies _ _ _ _ _); [ | reflexivity ].
  rewrite score_pair_shape_error;
    [ reflexivity | apply gene_column_length_le | exact Hd ].
Qed.

Lemma neural_sine_loss_on_mismatch (sine_predictor : SineParameterPredictor.t)
    (drawn : string -> nat -> SineParameterPredictor.masks) (min_samples : nat)
    (phase_coords : list (R * R)) (expressions : list (list R))
    (celltypes : list string) (lambda_neural_sine : R) :
  List.length expressions <> SineParameterPredictor.input_dim sine_predictor ->
  neural_sine_fitting_loss sine_predictor drawn min_samples phase_coords
    (Some expressions) (Some celltypes) lambda_neural_sine = Fin 0.
Proof.
  intros Hd. rewrite neural_sine_loss_closed_form.
  now rewrite contributions_nil_on_mismatch.
Qed.

(** C3, at a failing input.  Five labelled samples padded to N = 6 rows,
    one gene, and a predictor built for N = 6 inputs as [main] builds it:
    the rows handed to the sine-fit term are the 5 valid ones, the
    zero-filled vector constructed for the qualifying pair has length 5,
    the predictor rejects it, and the term is 0 in every epoch. *)
Theorem sine_input_width_drops_padding :
  resize_samples [] 1 6 (repeat [1] 5) None (Some five_A) = Ok padded_dataset /\
  exists data,
    prepare padded_dataset = Ok data /\
    List.length (expressions_tensor data) = 6%nat /\
    valid_mask_tensor data = [true; true; true; true; true; false] /\
    mask_select (valid_mask_tensor data) (expressions_tensor data) = repeat [1] 5 /\
    gene_column (repeat [1] 5) five_A "A" 0 = [1; 1; 1; 1; 1] /\
    pair_qualifies 5 (repeat [1] 5) five_A "A" 0 = true /\
    gene_input_full (List.length (repeat [1] 5)) [1; 1; 1; 1; 1]
    = Ok [1; 1; 1; 1; 1] /\
    SineParameterPredictor.forward (const_predictor 6 0) keep_all [1; 1; 1; 1; 1]
    = Raise ShapeError /\
    forall epoch phase_coords,
      List.length phase_coords = 6%nat ->
      sine_term (fun _ _ _ => keep_all) (info_of false true 1 6 5) epoch
                (const_predictor 6 0) data phase_coords = Fin 0.
Proof.
  split; [ reflexivity | ].
  exists {| expressions_tensor := repeat [1] 5 ++ [[0]];
            valid_mask_tensor := [true; true; true; true; true; false];
            times_tensor := None;
            celltypes_array := Some (five_A ++ [PADDING]) |}.
  do 7 (split; [ reflexivity | ]).
  split.
  - apply predictor_forward_raise. cbn. discriminate.
  - intros epoch pc Hpc.
    destruct pc as [ | p1 [ | p2 [ | p3 [ | p4 [ | p5 [ | p6 [ | ? ? ] ] ] ] ] ] ];
      try discriminate.
    change (sine_term (fun _ _ _ => keep_all) (info_of false true 1 6 5) epoch
              (const_predictor 6 0)
              {| expressions_tensor := repeat [1] 5 ++ [[0]];
                 valid_mask_tensor := [true; true; true; true; true; false];
                 times_tensor := None;
                 celltypes_array := Some (five_A ++ [PADDING]) |}
              [p1; p2; p3; p4; p5; p6])
      with (neural_sine_fitting_loss (const_predictor 6 0) (fun _ _ => keep_all) 5
              [p1; p2; p3; p4; p5] (Some (repeat [1] 5)) (Some five_A) 1).
    apply neural_sine_loss_on_mismatch. cbn. discriminate.
Qed.


(** ** Angles of points *)

Lemma atan_neg (t : R) : t < 0 -> atan t < 0.
Proof. intros H. rewrite <- atan_0. now apply atan_increasing. Qed.

Lemma atan_pos (t : R) : 0 < t -> 0 < atan t.
Proof. intros H. rewrite <- atan_0. now apply atan_increasing. Qed.

Lemma atan_nonpos (t : R) : t <= 0 -> atan t <= 0.
Proof.
  intros [H | ->]; [ left; now apply atan_neg | rewrite atan_0; lra ].
Qed.

Lemma ratio_neg_pos (y x : R) : x < 0 -> 0 <= y -> y / x <= 0.
Proof.
  intros Hx Hy. unfold Rdiv.
  assert (H : / x < 0) by now apply Rinv_lt_0_compat.
  nra.
Qed.

Lemma ratio_neg_neg (y x : R) : x < 0 -> y < 0 -> 0 < y / x.
Proof.
  intros Hx Hy. unfold Rdiv.
  assert (H : / x < 0) by now apply Rinv_lt_0_compat.
  nra.
Qed.

Lemma atan2_range (y x : R) : - PI < atan2 y x <= PI.
Proof.
  pose proof PI_RGT_0 as Hpi. unfold atan2.
  destruct (Rlt_dec 0 x) as [Hx | Hx].
  - pose proof (atan_bound (y / x)). lra.
  - destruct (Rlt_dec x 0) as [Hx' | Hx'].
    + destruct (Rle_dec 0 y) as [Hy | Hy].
      * pose proof (atan_bound (y / x)).
        pose proof (atan_nonpos _ (ratio_neg_pos y x Hx' Hy)). lra.
      * pose proof (atan_bound (y / x)).
        assert (Hy' : y < 0) by lra.
        pose proof (atan_pos _ (ratio_neg_neg y x Hx' Hy')). lra.
    + destruct (Rlt_dec 0 y); [ lra | ].
      destruct (Rlt_dec y 0); lra.
Qed.

Lemma atan2_of_angle (phi : R) :
  - PI < phi <= PI -> atan2 (sin phi) (cos phi) = phi.
Proof.
  intros [Hlo Hhi]. pose proof PI_RGT_0 as Hpi. unfold atan2.
  destruct (Rlt_or_le phi (- (PI / 2))) as [H1 | H1].
  - (* third quadrant *)
    assert (Hc : cos phi < 0).
    { rewrite <- cos_neg. apply cos_lt_0; lra. }
    assert (Hs : sin phi < 0) by (apply sin_lt_0_var; lra).
    destruct (Rlt_dec 0 (cos phi)); [ lra | ].
    destruct (Rlt_dec (cos phi) 0); [ | lra ].
    destruct (Rle_dec 0 (sin phi)); [ lra | ].
    replace (sin phi / cos phi) with (tan (phi + PI)).
    + rewrite atan_tan; lra.
    + unfold tan. rewrite neg_sin, neg_cos. field.
      now apply Rlt_not_eq.
  - destruct (Req_dec phi (- (PI / 2))) as [-> | H1'].
    + rewrite cos_neg, sin_neg, cos_PI2, sin_PI2.
      repeat match goal with
             | |- context [Rlt_dec ?a ?b] => destruct (Rlt_dec a b)
             end; lra.
    + destruct (Rlt_or_le phi (PI / 2)) as [H2 | H2].
      * assert (Hc : 0 < cos phi) by (apply cos_gt_0; lra).
        destruct (Rlt_dec 0 (cos phi)); [ | lra ].
        change (sin phi / cos phi) with (tan phi).
        apply atan_tan. lra.
      * destruct (Req_dec phi (PI / 2)) as [-> | H2'].
        -- rewrite cos_PI2, sin_PI2.
           repeat match goal with
                  | |- context [Rlt_dec ?a ?b] => destruct (Rlt_dec a b)
                  end; lra.
        -- assert (Hc : cos phi < 0) by (apply cos_lt_0; lra).
           assert (Hs : 0 <= sin phi) by (apply sin_ge_0; lra).
           destruct (Rlt_dec 0 (cos phi)); [ lra | ].
           destruct (Rlt_dec (cos phi) 0); [ | lra ].
           destruct (Rle_dec 0 (sin phi)); [ | lra ].
           assert (Hs' : sin phi = - sin (phi - PI))
             by (rewrite <- neg_sin; f_equal; lra).
           assert (Hc' : cos phi = - cos (phi - PI))
             by (rewrite <- neg_cos; f_equal; lra).
           replace (sin phi / cos phi) with (tan (phi - PI)).
           ++ rewrite atan_tan; lra.
           ++ unfold tan. rewrite Hs', Hc'. field. lra.
Qed.

Lemma coords_to_phase_lower_upper (c : R * R) :
  0 <= coords_to_phase c < 2 * PI.
Proof.
  destruct c as [x y]. unfold coords_to_phase.
  pose proof (atan2_range y x) as H.
  destruct (Rlt_dec (atan2 y x) 0); lra.
Qed.

Lemma round_trip_angle (theta : R) :
  0 <= theta < 2 * PI -> coords_to_phase (phase_to_coords theta) = theta.
Proof.
  intros [Hlo Hhi]. pose proof PI_RGT_0 as Hpi.
  unfold phase_to_coords, coords_to_phase.
  destruct (Rle_or_lt theta PI) as [H | H].
  - rewrite atan2_of_angle by lra.
    destruct (Rlt_dec theta 0); lra.
  - replace (sin theta) with (sin (theta - 2 * PI))
      by (rewrite <- (sin_period (theta - 2 * PI) 1); f_equal; simpl; lra).
    replace (cos theta) with (cos (theta - 2 * PI))
      by (rewrite <- (cos_period (theta - 2 * PI) 1); f_equal; simpl; lra).
    rewrite atan2_of_angle by lra.
    destruct (Rlt_dec (theta - 2 * PI) 0); lra.
Qed.

Lemma atan2_scale (y x n : R) :
  0 < n -> atan2 (y / n) (x / n) = atan2 y x.
Proof.
  intros Hn.
  assert (Hx : x / n * n = x) by (field; lra).
  assert (Hy : y / n * n = y) by (field; lra).
  unfold atan2.
  destruct (Rlt_dec 0 (x / n)) as [H1 | H1]; destruct (Rlt_dec 0 x) as [H2 | H2];
    try (exfalso; nra).
  - f_equal. field. split; lra.
  - destruct (Rlt_dec (x / n) 0) as [H3 | H3]; destruct (Rlt_dec x 0) as [H4 | H4];
      try (exfalso; nra).
    + assert (Hr : y / n / (x / n) = y / x) by (field; split; lra).
      rewrite Hr.
      destruct (Rle_dec 0 (y / n)) as [H5 | H5]; destruct (Rle_dec 0 y) as [H6 | H6];
        try reflexivity; exfalso; nra.
    + destruct (Rlt_dec 0 (y / n)) as [H5 | H5]; destruct (Rlt_dec 0 y) as [H6 | H6];
        try reflexivity; try (exfalso; nra).
      destruct (Rlt_dec (y / n) 0) as [H7 | H7]; destruct (Rlt_dec y 0) as [H8 | H8];
        try reflexivity; exfalso; nra.
Qed.

Lemma square_pos (x : R) : x <> 0 -> 0 < x ^ 2.
Proof.
  intros Hx. destruct (Rtotal_order x 0) as [H | [H | H]]; [ | contradiction | ]; nra.
Qed.

Lemma slope_norm (y x : R) :
  x <> 0 -> sqrt (1 + (y / x)²) = sqrt (x ^ 2 + y ^ 2) / Rabs x.
Proof.
  intros Hx.
  assert (Hx2 : 0 < x ^ 2) by (apply square_pos; exact Hx).
  replace (1 + (y / x)²) with ((x ^ 2 + y ^ 2) / x ^ 2)
    by (unfold Rsqr; field; exact Hx).
  rewrite sqrt_div; [ | nra | exact Hx2 ].
  f_equal. rewrite <- Rsqr_pow2. apply sqrt_Rsqr_abs.
Qed.

Lemma point_norm_pos (x y : R) :
  (x, y) <> (0, 0) -> 0 < sqrt (x ^ 2 + y ^ 2).
Proof.
  intros H. apply sqrt_lt_R0.
  destruct (Req_dec x 0) as [-> | Hx].
  - destruct (Req_dec y 0) as [-> | Hy]; [ contradiction | ].
    assert (0 < y ^ 2) by (apply square_pos; exact Hy). nra.
  - assert (0 < x ^ 2) by (apply square_pos; exact Hx). nra.
Qed.

Lemma cos_sin_atan2 (y x : R) :
  (x, y) <> (0, 0) ->
  cos (atan2 y x) = x / sqrt (x ^ 2 + y ^ 2) /\
  sin (atan2 y x) = y / sqrt (x ^ 2 + y ^ 2).
Proof.
  intros Hne. pose proof (point_norm_pos x y Hne) as Hr.
  unfold atan2.
  destruct (Rlt_dec 0 x) as [Hx | Hx].
  - rewrite cos_atan, sin_atan, slope_norm by lra.
    rewrite Rabs_pos_eq by lra.
    split; field; lra.
  - destruct (Rlt_dec x 0) as [Hx' | Hx'].
    + assert (Hs : sqrt (1 + (y / x)²) = sqrt (x ^ 2 + y ^ 2) / - x).
      { rewrite slope_norm by lra. now rewrite Rabs_left by lra. }
      destruct (Rle_dec 0 y) as [Hy | Hy].
      * rewrite neg_cos, neg_sin, cos_atan, sin_atan, Hs.
        split; field; lra.
      * assert (Hc1 : cos (atan (y / x)) = - cos (atan (y / x) - PI))
          by (rewrite <- neg_cos; f_equal; lra).
        assert (Hs1 : sin (atan (y / x)) = - sin (atan (y / x) - PI))
          by (rewrite <- neg_sin; f_equal; lra).
        replace (cos (atan (y / x) - PI)) with (- cos (atan (y / x))) by lra.
        replace (sin (atan (y / x) - PI)) with (- sin (atan (y / x))) by lra.
        rewrite cos_atan, sin_atan, Hs.
        split; field; lra.
    + assert (Hx0 : x = 0) by lra. subst x.
      assert (Hy0 : y <> 0) by (intros ->; now apply Hne).
      replace (0 ^ 2 + y ^ 2) with (y ^ 2) by lra.
      rewrite <- Rsqr_pow2, sqrt_Rsqr_abs.
      destruct (Rlt_dec 0 y) as [Hy | Hy].
      * rewrite cos_PI2, sin_PI2, Rabs_pos_eq by lra. split; field; lra.
      * destruct (Rlt_dec y 0) as [Hy' | Hy']; [ | lra ].
        rewrite cos_neg, sin_neg, cos_PI2, sin_PI2, Rabs_left by lra.
        split; field; lra.
Qed.

Lemma direction_of_phase (x y : R) :
  (x, y) <> (0, 0) ->
  phase_to_coords (coords_to_phase (x, y)) =
  (x / sqrt (x ^ 2 + y ^ 2), y / sqrt (x ^ 2 + y ^ 2)).
Proof.
  intros Hne. destruct (cos_sin_atan2 y x Hne) as [Hc Hs].
  unfold phase_to_coords, coords_to_phase.
  destruct (Rlt_dec (atan2 y x) 0).
  - rewrite <- Hc, <- Hs. f_equal.
    + rewrite <- (cos_period (atan2 y x) 1). f_equal. simpl. lra.
    + rewrite <- (sin_period (atan2 y x) 1). f_equal. simpl. lra.
  - now rewrite Hc, Hs.
Qed.

(** X1.  [coords_to_phase] maps every point, the origin included, to an
    angle in [0, 2*PI). *)
Theorem coords_to_phase_in_turn (c : R * R) :
  0 <= coords_to_phase c < 2 * PI.
Proof. apply coords_to_phase_lower_upper. Qed.

(** X2.  On angles in [0, 2*PI), [coords_to_phase] undoes
    [phase_to_coords]. *)
Theorem phase_coords_round_trip (theta : R) :
  0 <= theta < 2 * PI -> coords_to_phase (phase_to_coords theta) = theta.
Proof. apply round_trip_angle. Qed.

Lemma phase_coords_round_trip_witness :
  0 <= 1 < 2 * PI /\ coords_to_phase (phase_to_coords 1) = 1.
Proof.
  assert (H : 0 <= 1 < 2 * PI) by (pose proof PI2_1; lra).
  split; [ exact H | exact (phase_coords_round_trip 1 H) ].
Defined.

(** X3.  [phase_to_coords] after [coords_to_phase] sends a point other than
    the origin to the unit vector of the same direction; on the unit circle
    it gives the point back. *)
Theorem coords_phase_round_trip (x y : R) :
  (x, y) <> (0, 0) ->
  phase_to_coords (coords_to_phase (x, y)) =
    (x / sqrt (x ^ 2 + y ^ 2), y / sqrt (x ^ 2 + y ^ 2)) /\
  (x ^ 2 + y ^ 2 = 1 -> phase_to_coords (coords_to_phase (x, y)) = (x, y)).
Proof.
  intros Hne. split; [ now apply direction_of_phase | ].
  intros Hu. rewrite direction_of_phase by exact Hne.
  rewrite Hu, sqrt_1. f_equal; field.
Qed.

Lemma coords_phase_round_trip_witness :
  (0, 1) <> (0, 0) /\ phase_to_coords (coords_to_phase (0, 1)) = (0, 1).
Proof.
  assert (H : (0, 1) <> (0, 0)) by (intros [= H]; lra).
  split; [ exact H | ].
  apply (proj2 (coords_phase_round_trip 0 1 H)). lra.
Defined.

(** X4.  The phase read off the normalised coordinate returned by the
    forward pass is the angle of the raw encoder output: dividing by the
    norm plus 1e-8 does not move the angle. *)
Theorem predicted_phase_is_raw_angle (m : PhaseAutoEncoder.t) (x raw : list R)
    (u : R * R) (rec : list R) :
  PhaseAutoEncoder.encode m x = Ok raw ->
  PhaseAutoEncoder.forward_row m x = Ok (u, rec) ->
  coords_to_phase u = coords_to_phase (nth 0 raw 0, nth 1 raw 0).
Proof.
  intros He Hf. apply forward_row_inv in Hf as (raw' & He' & -> & _).
  rewrite He in He'. injection He' as <-.
  unfold coords_to_phase. rewrite atan2_scale; [ reflexivity | ].
  pose proof (raw_norm_nonneg raw). lra.
Qed.

Lemma predicted_phase_is_raw_angle_witness :
  exists raw u rec,
    PhaseAutoEncoder.encode (model_of 1 (east_phase_weights 0)) [2] = Ok raw /\
    PhaseAutoEncoder.forward_row (model_of 1 (east_phase_weights 0)) [2]
    = Ok (u, rec) /\
    coords_to_phase u = coords_to_phase (nth 0 raw 0, nth 1 raw 0).
Proof.
  destruct (forward_row_ok (model_of 1 (east_phase_weights 0)) [2] eq_refl)
    as (u & rec & Hf & _).
  destruct (forward_row_inv _ _ _ _ Hf) as (raw & He & _ & _).
  exists raw, u, rec. split; [ exact He | split; [ exact Hf | ] ].
  exact (predicted_phase_is_raw_angle _ _ _ _ _ He Hf).
Defined.

(** ** Bounds on the time-supervision term *)

Lemma rsum_bounds (a b : R) (l : list R) :
  Forall (fun v => a <= v <= b) l ->
  a * INR (List.length l) <= rsum l <= b * INR (List.length l).
Proof.
  induction 1 as [ | v l [Hlo Hhi] _ IH ].
  - cbn. lra.
  - change (rsum (v :: l)) with (v + rsum l).
    change (List.length (v :: l)) with (S (List.length l)).
    rewrite S_INR. lra.
Qed.

Lemma tmean_bounds (a b : R) (l : list R) :
  l <> [] -> Forall (fun v => a <= v <= b) l ->
  exists m, tmean l = Fin m /\ a <= m <= b.
Proof.
  intros Hne Hall. destruct l as [ | v l ]; [ contradiction | ].
  eexists. split; [ reflexivity | ].
  pose proof (rsum_bounds a b (v :: l) Hall) as Hs.
  assert (Hn : 0 < INR (List.length (v :: l))) by (apply lt_0_INR; cbn; lia).
  set (n := INR (List.length (v :: l))) in *.
  set (s := rsum (v :: l)) in *.
  assert (Hq : s / n * n = s) by (field; lra).
  split; nra.
Qed.

Lemma target_phase_in_turn (t period : R) :
  0 < period -> 0 <= t <= period -> 0 <= time_to_phase t period <= 2 * PI.
Proof.
  intros Hp [Hlo Hhi]. pose proof PI_RGT_0 as Hpi. unfold time_to_phase.
  assert (Hq : 0 <= t / period <= 1).
  { assert (Hm : t / period * period = t) by (field; lra). split; nra. }
  replace (2 * PI * t / period) with (2 * PI * (t / period)) by (field; lra).
  split; nra.
Qed.

Lemma in_period_distances (period : R) (coords : list (R * R)) (times : list R) :
  0 < period ->
  Forall (fun t => 0 <= t <= period) times ->
  Forall (fun v => 0 <= v <= PI)
         (map (fun '(p, t) => circular_distance p t)
              (combine (map coords_to_phase coords)
                       (map (fun t => time_to_phase t period) times))).
Proof.
  intros Hp Hall. revert coords.
  induction Hall as [ | t times Ht _ IH ]; intros coords.
  - destruct coords; constructor.
  - destruct coords as [ | c coords ]; [ constructor | ].
    cbn [map combine]. constructor; [ | apply IH ].
    apply circular_distance_range.
    pose proof (coords_to_phase_lower_upper c) as Hc.
    pose proof (target_phase_in_turn t period Hp Ht) as Htp.
    unfold Rabs. destruct (Rcase_abs _); lra.
Qed.

(** X5.  When every time label lies within one period, the
    time-supervision loss of a non-empty batch is a number between 0 and
    the weight times PI. *)
Theorem time_supervision_loss_in_period (phase_coords : list (R * R))
    (true_times : list R) (lambda_time period_hours : R) :
  0 < period_hours -> 0 <= lambda_time ->
  phase_coords <> [] -> true_times <> [] ->
  Forall (fun t => 0 <= t <= period_hours) true_times ->
  exists v,
    time_supervision_loss phase_coords (Some true_times) lambda_time period_hours
    = Fin v /\
    0 <= v <= lambda_time * PI.
Proof.
  intros Hp Hl Hc Ht Hall. unfold time_supervision_loss.
  pose proof (in_period_distances period_hours phase_coords true_times Hp Hall)
    as Hd.
  cbv zeta.
  set (dists := map (fun '(p, t) => circular_distance p t) _) in *.
  assert (Hne : dists <> []).
  { unfold dists. destruct phase_coords; [ contradiction | ].
    destruct true_times; [ contradiction | ]. discriminate. }
  destruct (tmean_bounds 0 PI dists Hne Hd) as (m & -> & Hm).
  exists (lambda_time * m). split; [ reflexivity | ].
  pose proof PI_RGT_0. split; nra.
Qed.

Lemma time_supervision_loss_in_period_witness :
  exists v,
    time_supervision_loss [(1, 0)] (Some [6]) 0.5 24 = Fin v /\
    0 <= v <= 0.5 * PI.
Proof.
  apply time_supervision_loss_in_period.
  - lra.
  - lra.
  - discriminate.
  - discriminate.
  - repeat constructor; lra.
Defined.

(** ** Shape contract of the forward passes *)

Lemma forward_row_raise (m : PhaseAutoEncoder.t) (x : list R) :
  List.length x <> PhaseAutoEncoder.input_dim m ->
  PhaseAutoEncoder.forward_row m x = Raise ShapeError.
Proof.
  intros Hx. unfold PhaseAutoEncoder.forward_row, PhaseAutoEncoder.encode.
  now rewrite linear_raise.
Qed.

Lemma forward_raise (m : PhaseAutoEncoder.t) (x : list (list R)) :
  Exists (fun row => List.length row <> PhaseAutoEncoder.input_dim m) x ->
  PhaseAutoEncoder.forward m x = Raise ShapeError.
Proof.
  intros Hex. unfold PhaseAutoEncoder.forward.
  assert (H : mapM (PhaseAutoEncoder.forward_row m) x = Raise ShapeError).
  { induction x as [ | row x IH ]; [ inversion Hex | ].
    cbn [mapM].
    destruct (Nat.eq_dec (List.length row) (PhaseAutoEncoder.input_dim m))
      as [Heq | Hne].
    - destruct (forward_row_ok m row Heq) as (u & rec & -> & _). cbn [bind].
      rewrite IH; [ reflexivity | ].
      inversion Hex; subst; [ contradiction | assumption ].
    - now rewrite forward_row_raise. }
  now rewrite H.
Qed.

Lemma forward_rows_width (m : PhaseAutoEncoder.t) (x : list (list R))
    (rows : list ((R * R) * list R)) :
  mapM (PhaseAutoEncoder.forward_row m) x = Ok rows ->
  Forall (fun r => List.length r = PhaseAutoEncoder.input_dim m) (map snd rows).
Proof.
  revert rows. induction x as [ | row x IH ]; intros rows; cbn [mapM].
  - intros [= <-]. constructor.
  - destruct (PhaseAutoEncoder.forward_row m row) as [[u rec] | e] eqn:Hf;
      cbn [bind]; [ | discriminate ].
    destruct (mapM (PhaseAutoEncoder.forward_row m) x) as [rs | e]; cbn [bind];
      [ | discriminate ].
    intros [= <-]. cbn [map snd]. constructor; [ | now apply IH ].
    apply forward_row_inv in Hf as (raw & _ & _ & Hd).
    unfold PhaseAutoEncoder.decode in Hd. now apply linear_length in Hd.
Qed.

(** X6.  The phase model's forward pass succeeds exactly on batches whose
    rows all have the configured width: it then returns one phase
    coordinate and one reconstruction of that width per row; if some row
    has another width it raises a shape error. *)
Theorem forward_shape_contract (m : PhaseAutoEncoder.t) (x : list (list R)) :
  (Forall (fun row => List.length row = PhaseAutoEncoder.input_dim m) x ->
   exists phase_coords reconstructed,
     PhaseAutoEncoder.forward m x = Ok (phase_coords, reconstructed) /\
     List.length phase_coords = List.length x /\
     List.length reconstructed = List.length x /\
     Forall (fun r => List.length r = PhaseAutoEncoder.input_dim m) reconstructed) /\
  (Exists (fun row => List.length row <> PhaseAutoEncoder.input_dim m) x ->
   PhaseAutoEncoder.forward m x = Raise ShapeError).
Proof.
  split; [ | apply forward_raise ].
  intros Hw. destruct (forward_ok m x Hw) as (pc & rec & Hf & Hl1 & Hl2).
  exists pc, rec. repeat split; try assumption.
  unfold PhaseAutoEncoder.forward in Hf.
  destruct (mapM (PhaseAutoEncoder.forward_row m) x) as [rows | e] eqn:Hr;
    cbn [bind] in Hf; [ | discriminate ].
  injection Hf as _ <-. now apply (forward_rows_width m x).
Qed.

Lemma forward_shape_contract_witness :
  Forall (fun row => List.length row = 1%nat) [[1]; [-1]] /\
  exists phase_coords reconstructed,
    PhaseAutoEncoder.forward (model_of 1 zero_phase_weights) [[1]; [-1]]
    = Ok (phase_coords, reconstructed) /\
    List.length phase_coords = 2%nat.
Proof.
  assert (H : Forall (fun row => List.length row = 1%nat) [[1]; [-1]])
    by (repeat constructor).
  split; [ exact H | ].
  destruct (proj1 (forward_shape_contract (model_of 1 zero_phase_weights)
                     [[1]; [-1]]) H) as (pc & rec & Hf & Hl & _).
  exists pc, rec. split; assumption.
Defined.

(** X7.  The sine-parameter predictor returns a triple exactly on inputs
    of the width it was built for, whatever dropout masks are drawn; on any
    other width it raises a shape error. *)
Theorem predictor_shape_contract (p : SineParameterPredictor.t)
    (mk : SineParameterPredictor.masks) (x : list R) :
  (List.length x = SineParameterPredictor.input_dim p <->
   exists out, SineParameterPredictor.forward p mk x = Ok out) /\
  (List.length x <> SineParameterPredictor.input_dim p <->
   SineParameterPredictor.forward p mk x = Raise ShapeError).
Proof.
  destruct (Nat.eq_dec (List.length x) (SineParameterPredictor.input_dim p))
    as [Heq | Hne].
  - destruct (predictor_forward_ok p mk x Heq) as [out Hout].
    split; split; try tauto.
    + intros _. now exists out.
    + rewrite Hout. discriminate.
  - pose proof (predictor_forward_raise p mk x Hne) as Hr.
    split; split; try tauto.
    rewrite Hr. intros [out Hout]. discriminate.
Qed.

Lemma predictor_shape_contract_witness :
  List.length [0; 0] <> SineParameterPredictor.input_dim (const_predictor 3 0) /\
  SineParameterPredictor.forward (const_predictor 3 0) keep_all [0; 0]
  = Raise ShapeError.
Proof.
  assert (H : List.length [0; 0]
              <> SineParameterPredictor.input_dim (const_predictor 3 0))
    by (cbn; lia).
  split; [ exact H | ].
  exact (proj1 (proj2 (predictor_shape_contract (const_predictor 3 0) keep_all
                         [0; 0])) H).
Defined.

(** ** Sign and not-a-number behaviour of the sine-fit term *)

Lemma insert_unique_In (s x : string) (l : list string) :
  In x (insert_unique s l) <-> x = s \/ In x l.
Proof.
  induction l as [ | h t IH ]; cbn [insert_unique].
  - cbn. intuition.
  - destruct (String.compare s h) eqn:Hc.
    + apply String.compare_eq_iff in Hc. subst h. cbn. intuition.
    + cbn. intuition.
    + cbn [In]. rewrite IH. intuition.
Qed.

Lemma np_unique_In (x : string) (l : list string) :
  In x (np_unique l) <-> In x l.
Proof.
  unfold np_unique. induction l as [ | s l IH ]; cbn [fold_right].
  - reflexivity.
  - rewrite insert_unique_In, IH. cbn. intuition.
Qed.

Lemma sq_diffs_nonneg (a b : list R) : Forall (fun v => 0 <= v) (sq_diffs a b).
Proof.
  unfold sq_diffs. apply Forall_forall. intros v Hv.
  apply in_map_iff in Hv as ([x y] & <- & _). apply pow2_ge_0.
Qed.

Lemma tmean_nonneg (l : list R) (m : R) :
  Forall (fun v => 0 <= v) l -> tmean l = Fin m -> 0 <= m.
Proof.
  intros Hall Hm. destruct l as [ | v l ]; [ discriminate | ].
  injection Hm as <-.
  assert (Hs : 0 <= rsum (v :: l)).
  { clear -Hall. induction Hall as [ | w ws Hw _ IH ]; cbn; [ lra | ].
    fold (rsum ws). lra. }
  assert (Hn : 0 < INR (List.length (v :: l))) by (apply lt_0_INR; cbn; lia).
  apply Rmult_le_pos; [ exact Hs | ]. left. now apply Rinv_0_lt_compat.
Qed.


Lemma tadd_nonneg (a b : tscalar) :
  nonneg_or_nan a -> nonneg_or_nan b -> nonneg_or_nan (tadd a b).
Proof. destruct a, b; cbn; intros; trivial; lra. Qed.

Lemma fold_tadd_nonneg (cs : list tscalar) (acc : tscalar) :
  nonneg_or_nan acc -> Forall nonneg_or_nan cs ->
  nonneg_or_nan (fold_left tadd cs acc).
Proof.
  intros Hacc Hall. revert acc Hacc.
  induction Hall as [ | c cs Hc _ IH ]; intros acc Hacc; cbn [fold_left].
  - exact Hacc.
  - apply IH. now apply tadd_nonneg.
Qed.

Lemma contribution_nonneg (sine_predictor : SineParameterPredictor.t)
    (drawn : string -> nat -> SineParameterPredictor.masks) (min_samples : nat)
    (phases : list R) (expressions : list (list R)) (celltypes : list string)
    (ct : string) (g : nat) (c : tscalar) :
  pair_contribution sine_predictor drawn min_samples phases expressions celltypes
                    ct g = Some c ->
  nonneg_or_nan c.
Proof.
  intros H. apply pair_contribution_iff in H as (_ & a & ph & b & _ & ->).
  apply tadd_nonneg.
  - destruct (tmean _) as [m | ] eqn:Hm; cbn; [ | trivial ].
    apply (tmean_nonneg (sinusoid_sq_errors phases expressions celltypes
                                            a ph b ct g)); [ | exact Hm ].
    unfold sinusoid_sq_errors. apply Forall_forall. intros v Hv.
    apply in_map_iff in Hv as ([e p] & <- & _). apply pow2_ge_0.
  - cbn. pose proof (pow2_ge_0 a). pose proof (pow2_ge_0 b). lra.
Qed.

Lemma contributions_nonneg (sine_predictor : SineParameterPredictor.t)
    (drawn : string -> nat -> SineParameterPredictor.masks) (min_samples : nat)
    (phases : list R) (expressions : list (list R)) (celltypes : list string) :
  Forall nonneg_or_nan
         (contributions sine_predictor drawn min_samples phases expressions
                        celltypes).
Proof.
  apply Forall_forall. intros c Hc. unfold contributions in Hc.
  apply in_flat_map in Hc as (ct & _ & Hc).
  unfold celltype_contributions in Hc.
  apply in_flat_map in Hc as (g & _ & Hc).
  destruct (pair_contribution _ _ _ _ _ _ ct g) as [c' | ] eqn:Hp;
    cbn [present In] in Hc; [ | contradiction ].
  destruct Hc as [<- | []]. now apply contribution_nonneg in Hp.
Qed.

(** X8.  With a non-negative weight the neural-sine-fitting term is never
    a negative number: it is either not-a-number or at least 0. *)
Theorem neural_sine_loss_not_negative (sine_predictor : SineParameterPredictor.t)
    (drawn : string -> nat -> SineParameterPredictor.masks) (min_samples : nat)
    (phase_coords : list (R * R)) (expressions : option (list (list R)))
    (celltypes : option (list string)) (lambda_neural_sine v : R) :
  0 <= lambda_neural_sine ->
  neural_sine_fitting_loss sine_predictor drawn min_samples phase_coords
    expressions celltypes lambda_neural_sine = Fin v ->
  0 <= v.
Proof.
  intros Hl.
  destruct celltypes as [cts | ]; [ | cbn; intros [= <-]; lra ].
  destruct expressions as [ex | ]; [ | cbn; intros [= <-]; lra ].
  rewrite neural_sine_loss_closed_form.
  pose proof (contributions_nonneg sine_predictor drawn min_samples
                (map coords_to_phase phase_coords) ex cts) as Hall.
  destruct (contributions _ _ _ _ _ _) as [ | c cs ] eqn:Hcs;
    [ intros [= <-]; lra | ].
  pose proof (fold_tadd_nonneg (c :: cs) (Fin 0)) as Hsum.
  fold (tsum (c :: cs)) in Hsum.
  destruct (tsum (c :: cs)) as [s | ]; cbn [tdiv_nat tscale]; [ | discriminate ].
  intros [= <-].
  assert (Hs : 0 <= s) by (apply Hsum; [ cbn; lra | exact Hall ]).
  assert (Hn : 0 < INR (List.length (c :: cs))) by (apply lt_0_INR; cbn; lia).
  apply Rmult_le_pos; [ exact Hl | ].
  apply Rmult_le_pos; [ exact Hs | ]. left. now apply Rinv_0_lt_compat.
Qed.

Lemma neural_sine_loss_not_negative_witness :
  exists v,
    neural_sine_fitting_loss (const_predictor 5 0) (fun _ _ => keep_all) 5
      (east_coords 5) (Some zero_first_expressions) (Some five_A) 1 = Fin v /\
    0 <= v.
Proof.
  eexists. split; [ apply zero_first_loss | ].
  refine (neural_sine_loss_not_negative _ _ _ _ _ _ 1 _ _ zero_first_loss). lra.
Defined.

Lemma fold_tadd_nan (cs : list tscalar) : fold_left tadd cs NaN = NaN.
Proof.
  induction cs as [ | c cs IH ]; cbn [fold_left]; [ reflexivity | exact IH ].
Qed.

Lemma fold_tadd_with_nan (cs : list tscalar) (acc : tscalar) :
  In NaN cs -> fold_left tadd cs acc = NaN.
Proof.
  revert acc. induction cs as [ | c cs IH ]; intros acc Hin; [ contradiction | ].
  cbn [fold_left]. destruct Hin as [-> | Hin].
  - destruct acc; cbn [tadd]; apply fold_tadd_nan.
  - now apply IH.
Qed.

Lemma filter_all_zero (ge phs : list R) :
  Forall (fun e => e = 0) ge ->
  filter (fun '(e, _) => is_nonzero e) (combine ge phs) = [].
Proof.
  intros H. revert phs. induction H as [ | e ge He _ IH ]; intros phs.
  - reflexivity.
  - destruct phs as [ | ph phs ]; [ reflexivity | ].
    cbn [combine filter]. subst e. rewrite nonzero_0. apply IH.
Qed.

(** X9.  If a scored pair's group has only zero expression values for the
    gene (a constant gene after standardisation, say), its mean squared
    error is the mean of an empty tensor and the whole neural-sine-fitting
    term is not-a-number. *)
Theorem all_zero_gene_poisons_sine_loss (sine_predictor : SineParameterPredictor.t)
    (drawn : string -> nat -> SineParameterPredictor.masks) (min_samples : nat)
    (phase_coords : list (R * R)) (expressions : list (list R))
    (celltypes : list string) (lambda_neural_sine : R) (ct : string) (g : nat) :
  List.length celltypes = List.length expressions ->
  SineParameterPredictor.input_dim sine_predictor = List.length expressions ->
  In ct celltypes -> ct <> PADDING ->
  (min_samples <= group_size celltypes ct)%nat ->
  (g < n_columns expressions)%nat ->
  Forall (fun e => e = 0) (gene_column expressions celltypes ct g) ->
  neural_sine_fitting_loss sine_predictor drawn min_samples phase_coords
    (Some expressions) (Some celltypes) lambda_neural_sine = NaN.
Proof.
  intros Hlen Hfit Hin Hpad Hsize Hg Hzero.
  rewrite neural_sine_loss_closed_form.
  set (phases := map coords_to_phase phase_coords).
  assert (Hq : pair_qualifies min_samples expressions celltypes ct g = true).
  { unfold pair_qualifies, group_qualifies.
    rewrite gene_column_length by exact Hlen.
    apply String.eqb_neq in Hpad. rewrite Hpad.
    apply Nat.leb_le in Hsize. now rewrite Hsize. }
  destruct (predictor_forward_ok sine_predictor (drawn ct g)
              (gene_column expressions celltypes ct g ++
               repeat 0 (List.length expressions
                         - List.length (gene_column expressions celltypes ct g))))
    as [[[a ph] b] Hf].
  { rewrite padded_length by apply gene_column_length_le. now symmetry. }
  assert (Hc : pair_contribution sine_predictor drawn min_samples phases
                 expressions celltypes ct g = Some NaN).
  { apply pair_contribution_iff. split; [ exact Hq | ].
    exists a, ph, b. split; [ exact Hf | ].
    unfold sinusoid_sq_errors. now rewrite filter_all_zero. }
  assert (Hmem : In NaN (contributions sine_predictor drawn min_samples phases
                           expressions celltypes)).
  { unfold contributions. apply in_flat_map. exists ct.
    split; [ now apply np_unique_In | ].
    unfold celltype_contributions. apply in_flat_map. exists g.
    split; [ apply in_seq; lia | ]. rewrite Hc. now left. }
  destruct (contributions _ _ _ _ _ _) as [ | c cs ] eqn:Hcs; [ contradiction | ].
  unfold tsum. now rewrite fold_tadd_with_nan.
Qed.

Lemma all_zero_gene_poisons_sine_loss_witness :
  neural_sine_fitting_loss (const_predictor 5 0) (fun _ _ => keep_all) 5
    (east_coords 5) (Some (repeat [0] 5)) (Some five_A) 1 = NaN.
Proof.
  apply (all_zero_gene_poisons_sine_loss _ _ _ _ _ _ _ "A"%string 0%nat).
  - reflexivity.
  - reflexivity.
  - now left.
  - discriminate.
  - cbn. lia.
  - cbn. lia.
  - repeat constructor.
Defined.

(** ** Rows that reach the sine-fit term during training *)

Lemma mask_select_all {A : Type} (mask : list bool) (xs : list A) :
  Forall (fun b => b = true) mask -> List.length mask = List.length xs ->
  mask_select mask xs = xs.
Proof.
  unfold mask_select. intros Hall. revert xs.
  induction Hall as [ | b mask -> _ IH ]; intros xs Hlen.
  - destruct xs; [ reflexivity | discriminate ].
  - destruct xs as [ | x xs ]; [ discriminate | ].
    injection Hlen as Hlen. cbn [combine filter fst map snd]. f_equal. now apply IH.
Qed.

Lemma count_true_when_all (mask : list bool) :
  Forall (fun b => b = true) mask -> count_true mask = List.length mask.
Proof.
  unfold count_true. induction 1 as [ | b l -> _ IH ]; cbn; [ reflexivity | ].
  now rewrite IH.
Qed.

Lemma kept_labels_not_padding (ca : list string) :
  Forall (fun b => b = true)
         (map (fun c => negb (String.eqb c PADDING))
              (mask_select (map (fun c => if String.eqb c PADDING then false else true)
                                ca) ca)).
Proof.
  unfold mask_select. induction ca as [ | c ca IH ]; [ constructor | ].
  cbn [map combine filter fst].
  destruct (String.eqb c PADDING) eqn:Hc; cbn [fst map snd]; [ exact IH | ].
  constructor; [ now rewrite Hc | exact IH ].
Qed.

Lemma labels_of_prepared (ds : ExpressionDataset) (data : Prepared)
    (cts : list string) :
  prepare ds = Ok data -> celltypes ds = Some cts ->
  exists c ca,
    celltypes_array data = Some (c :: ca) /\
    valid_mask_tensor data =
      map (fun c => if String.eqb c PADDING then false else true) (c :: ca) /\
    List.length (c :: ca) = len ds.
Proof.
  intros Hp Hc. apply prepare_inv in Hp as (Hne & _ & -> & _ & ->).
  unfold is_valid, getitem. cbn [celltype]. rewrite Hc. cbn [option_map present].
  rewrite flat_map_concat_map, <- map_map with (g := fun a => [a]).
  rewrite <- flat_map_concat_map.
  assert (Hfm : forall l : list string, flat_map (fun a => [a]) l = l).
  { induction l as [ | a l IH ]; cbn; [ reflexivity | now rewrite IH ]. }
  rewrite Hfm.
  assert (Hlen : List.length (map (fun i => nth i cts EmptyString) (seq 0 (len ds)))
                 = len ds) by now rewrite length_map, length_seq.
  destruct (map (fun i => nth i cts EmptyString) (seq 0 (len ds))) as [ | c ca ] eqn:Hm.
  - exfalso. unfold len in Hlen. destruct (expressions ds); [ contradiction | ].
    discriminate.
  - exists c, ca. cbn [nonempty]. split; [ reflexivity | ].
    split; [ | exact Hlen ].
    rewrite <- Hm, map_map. reflexivity.
Qed.

Lemma sine_term_on_valid_rows
    (drawn : nat -> string -> nat -> SineParameterPredictor.masks)
    (info : PreprocessingInfo) (epoch : nat) (sp : SineParameterPredictor.t)
    (data : Prepared) (ca : list string) (phase_coords : list (R * R)) :
  celltypes_array data = Some ca ->
  valid_mask_tensor data =
    map (fun c => if String.eqb c PADDING then false else true) ca ->
  List.length (expressions_tensor data) = List.length ca ->
  List.length phase_coords = List.length ca ->
  train_has_celltype info = true ->
  (0 < count_true (valid_mask_tensor data))%nat ->
  sine_term drawn info epoch sp data phase_coords =
  neural_sine_fitting_loss sp (drawn epoch) 5
    (mask_select (valid_mask_tensor data) phase_coords)
    (Some (mask_select (valid_mask_tensor data) (expressions_tensor data)))
    (Some (mask_select (valid_mask_tensor data) ca)) 1.
Proof.
  intros Hca Hvm Hex Hpc Hinfo Hpos. unfold sine_term. rewrite Hinfo, Hca.
  set (vm := valid_mask_tensor data) in *.
  assert (Hlvm : List.length vm = List.length ca) by (rewrite Hvm; apply length_map).
  assert (Hall : Forall (fun b => b = true)
                   (map (fun c => negb (String.eqb c PADDING)) (mask_select vm ca))).
  { rewrite Hvm. apply kept_labels_not_padding. }
  assert (Hn : List.length (map (fun c => negb (String.eqb c PADDING))
                                (mask_select vm ca)) = count_true vm).
  { rewrite length_map. now apply mask_select_length. }
  assert (Hcount : count_true (map (fun c => negb (String.eqb c PADDING))
                                   (mask_select vm ca)) = count_true vm).
  { rewrite count_true_when_all by exact Hall. exact Hn. }
  rewrite Hcount. apply Nat.ltb_lt in Hpos. rewrite Hpos.
  set (npm := map (fun c => negb (String.eqb c PADDING)) (mask_select vm ca)) in *.
  assert (E1 : mask_select npm (mask_select vm phase_coords)
               = mask_select vm phase_coords).
  { apply mask_select_all; [ exact Hall | ].
    rewrite Hn. symmetry. apply mask_select_length. congruence. }
  assert (E2 : mask_select npm (mask_select vm (expressions_tensor data))
               = mask_select vm (expressions_tensor data)).
  { apply mask_select_all; [ exact Hall | ].
    rewrite Hn. symmetry. apply mask_select_length. congruence. }
  assert (E3 : mask_select npm (mask_select vm ca) = mask_select vm ca).
  { apply mask_select_all; [ exact Hall | ].
    rewrite Hn. symmetry. now apply mask_select_length. }
  now rewrite E1, E2, E3.
Qed.

Lemma prepared_valid_count (ds : ExpressionDataset) (data : Prepared) :
  prepare ds = Ok data -> count_true (valid_mask_tensor data) = valid_count ds.
Proof.
  intros Hp. apply prepare_inv in Hp as (_ & _ & -> & _). reflexivity.
Qed.

Lemma prepared_rows (ds : ExpressionDataset) (data : Prepared) :
  prepare ds = Ok data -> List.length (expressions_tensor data) = len ds.
Proof.
  intros Hp. apply prepare_inv in Hp as (_ & -> & _). reflexivity.
Qed.

(** X10.  During training the neural-sine-fitting term is 0 in every
    epoch whenever the number of valid rows differs from the input width
    the sine-parameter predictor was built with: every pair is then
    rejected by the predictor and skipped. *)
Theorem sine_term_needs_matching_width
    (drawn : nat -> string -> nat -> SineParameterPredictor.masks)
    (info : PreprocessingInfo) (epoch : nat) (sp : SineParameterPredictor.t)
    (ds : ExpressionDataset) (data : Prepared) (phase_coords : list (R * R)) :
  prepare ds = Ok data ->
  List.length phase_coords = len ds ->
  valid_count ds <> SineParameterPredictor.input_dim sp ->
  sine_term drawn info epoch sp data phase_coords = Fin 0.
Proof.
  intros Hp Hpc Hdim.
  destruct (celltypes ds) as [cts | ] eqn:Hc.
  2:{ unfold sine_term. rewrite (celltypes_array_absent ds data Hp Hc).
      now destruct (train_has_celltype info). }
  destruct (train_has_celltype info) eqn:Hinfo.
  2:{ unfold sine_term. now rewrite Hinfo. }
  destruct (labels_of_prepared ds data cts Hp Hc) as (c & ca & Hca & Hvm & Hlen).
  pose proof (prepared_valid_count ds data Hp) as Hvc.
  pose proof (prepared_rows ds data Hp) as Hrows.
  destruct (Nat.eq_dec (count_true (valid_mask_tensor data)) 0) as [Hz | Hnz].
  - unfold sine_term. rewrite Hinfo, Hca.
    assert (Hnone : count_true
                      (map (fun c0 => negb (String.eqb c0 PADDING))
                           (mask_select (valid_mask_tensor data) (c :: ca))) = 0%nat).
    { assert (Hl : List.length (mask_select (valid_mask_tensor data) (c :: ca)) = 0%nat).
      { rewrite mask_select_length; [ exact Hz | ]. rewrite Hvm. apply length_map. }
      destruct (mask_select (valid_mask_tensor data) (c :: ca));
        [ reflexivity | discriminate ]. }
    now rewrite Hnone.
  - rewrite (sine_term_on_valid_rows drawn info epoch sp data (c :: ca));
      try assumption; try congruence; try lia.
    apply neural_sine_loss_on_mismatch.
    rewrite mask_select_length; [ congruence | ].
    rewrite Hvm, length_map. congruence.
Qed.

Lemma sine_term_needs_matching_width_witness :
  exists data,
    prepare padded_dataset = Ok data /\
    sine_term (fun _ _ _ => keep_all) (info_of false true 1 6 5) 0
              (const_predictor 6 0) data (east_coords 6) = Fin 0.
Proof.
  eexists. split; [ reflexivity | ].
  apply (sine_term_needs_matching_width _ _ _ _ padded_dataset).
  - reflexivity.
  - reflexivity.
  - cbn. lia.
Defined.

(** X11.  When no row is labelled PADDING the masks are the identity: the
    neural-sine-fitting term of an epoch is the loss function applied to
    the whole batch, with weight 1 and the default threshold 5. *)
Theorem sine_term_without_padding
    (drawn : nat -> string -> nat -> SineParameterPredictor.masks)
    (info : PreprocessingInfo) (epoch : nat) (sp : SineParameterPredictor.t)
    (ds : ExpressionDataset) (data : Prepared) (cts : list string)
    (phase_coords : list (R * R)) :
  prepare ds = Ok data ->
  celltypes ds = Some cts -> List.length cts = len ds ->
  List.length phase_coords = len ds ->
  train_has_celltype info = true ->
  valid_count ds = len ds ->
  sine_term drawn info epoch sp data phase_coords =
  neural_sine_fitting_loss sp (drawn epoch) 5 phase_coords
    (Some (expressions ds)) (Some cts) 1.
Proof.
  intros Hp Hc Hlc Hpc Hinfo Hall.
  destruct (labels_of_prepared ds data cts Hp Hc) as (c & ca & Hca & Hvm & Hlen).
  pose proof (prepared_valid_count ds data Hp) as Hvc.
  pose proof (prepared_rows ds data Hp) as Hrows.
  assert (Hne : (0 < len ds)%nat) by (rewrite <- Hlen; cbn; lia).
  rewrite (sine_term_on_valid_rows drawn info epoch sp data (c :: ca));
    try assumption; try congruence; try lia.
  assert (Hlvm : List.length (valid_mask_tensor data) = len ds).
  { rewrite Hvm, length_map. exact Hlen. }
  assert (Htrue : Forall (fun b => b = true) (valid_mask_tensor data)).
  { assert (Hcnt : count_true (valid_mask_tensor data)
                   = List.length (valid_mask_tensor data)) by congruence.
    clear -Hcnt. unfold count_true in Hcnt.
    induction (valid_mask_tensor data) as [ | b l IH ]; [ constructor | ].
    cbn [filter List.length] in Hcnt. destruct b.
    - constructor; [ reflexivity | ]. apply IH. cbn in Hcnt. lia.
    - exfalso. pose proof (filter_length_le (fun b => b) l). lia. }
  rewrite !mask_select_all; try exact Htrue; try congruence.
  assert (Hca' : c :: ca = cts).
  { apply prepare_inv in Hp as (_ & _ & _ & _ & Hcarr).
    rewrite Hca in Hcarr. unfold getitem in Hcarr. cbn [celltype] in Hcarr.
    rewrite Hc in Hcarr. cbn [option_map present] in Hcarr.
    rewrite flat_map_concat_map, <- map_map with (g := fun a => [a]) in Hcarr.
    rewrite <- flat_map_concat_map in Hcarr.
    assert (Hfm : forall l : list string, flat_map (fun a => [a]) l = l).
    { induction l as [ | a l IH ]; cbn; [ reflexivity | now rewrite IH ]. }
    rewrite Hfm, <- Hlc, map_nth_seq in Hcarr.
    destruct cts; [ discriminate | ]. cbn in Hcarr. congruence. }
  rewrite Hca'. do 2 f_equal.
  apply prepare_inv in Hp as (_ & -> & _). reflexivity.
Qed.


Lemma sine_term_without_padding_witness :
  exists data,
    prepare five_labelled = Ok data /\
    sine_term (fun _ _ _ => keep_all) (info_of false true 1 5 5) 0
              (const_predictor 5 0) data (east_coords 5) =
    neural_sine_fitting_loss (const_predictor 5 0) (fun _ _ => keep_all) 5
      (east_coords 5) (Some (expressions five_labelled)) (Some five_A) 1.
Proof.
  eexists. split; [ reflexivity | ].
  apply (sine_term_without_padding (fun _ _ _ => keep_all)
           (info_of false true 1 5 5) 0 (const_predictor 5 0) five_labelled _
           five_A (east_coords 5)); reflexivity.
Defined.

(** ** Outcomes of a training run *)

Section TrainingOutcomes.

Variable model_input_dim : nat.
Variables sine_input_dim sine_hidden_dim : nat.
Variable sine_dropout : R.
Variable optimizer_step :
  nat -> PhaseAutoEncoder.weights * SineParameterPredictor.weights ->
  PhaseAutoEncoder.weights * SineParameterPredictor.weights.
Variable drawn : nat -> string -> nat -> SineParameterPredictor.masks.
Variable info : PreprocessingInfo.
Variables lambda_recon lambda_time lambda_neural_sine period_hours : R.

Local Abbreviation losses :=
  (epoch_losses model_input_dim sine_input_dim sine_hidden_dim sine_dropout
                drawn info period_hours).
Local Abbreviation train :=
  (train_model model_input_dim sine_input_dim sine_hidden_dim sine_dropout
               optimizer_step drawn info lambda_recon lambda_time
               lambda_neural_sine period_hours).

Lemma epoch_losses_raise (epoch : nat) (data : Prepared)
    (mw : PhaseAutoEncoder.weights) (sw : SineParameterPredictor.weights) :
  Exists (fun row => List.length row <> model_input_dim) (expressions_tensor data) ->
  losses epoch data mw sw = Raise ShapeError.
Proof.
  intros Hex. unfold epoch_losses.
  now rewrite (forward_raise (model_of model_input_dim mw)).
Qed.

(** X12.  How a training run ends.  An empty dataset fails when the rows
    are stacked; with zero epochs a non-empty dataset returns the initial
    weights and an empty history; with at least one epoch a row of the
    wrong width is a shape error, and rows of the right width none of which
    is valid fail in the backward pass; in every other case training
    completes. *)
Theorem train_model_outcome (mw0 : PhaseAutoEncoder.weights)
    (sw0 : SineParameterPredictor.weights) (ds : ExpressionDataset)
    (num_epochs : nat) :
  (expressions ds = [] -> train mw0 sw0 ds num_epochs = Raise EmptyStack) /\
  (expressions ds <> [] -> num_epochs = 0%nat ->
   train mw0 sw0 ds num_epochs =
   Ok {| final_checkpoint :=
           {| model_state_dict := mw0;
              preprocessing_info := info;
              train_losses := [] |};
         returned_losses := [];
         trained_model := mw0;
         trained_sine_predictor := sw0 |}) /\
  (expressions ds <> [] -> (0 < num_epochs)%nat ->
   Exists (fun row => List.length row <> model_input_dim) (expressions ds) ->
   train mw0 sw0 ds num_epochs = Raise ShapeError) /\
  (expressions ds <> [] -> (0 < num_epochs)%nat ->
   Forall (fun row => List.length row = model_input_dim) (expressions ds) ->
   valid_count ds = 0%nat ->
   train mw0 sw0 ds num_epochs = Raise NoGrad) /\
  (expressions ds <> [] ->
   Forall (fun row => List.length row = model_input_dim) (expressions ds) ->
   (0 < valid_count ds)%nat ->
   exists outcome,
     train mw0 sw0 ds num_epochs = Ok outcome /\
     List.length (returned_losses outcome) = num_epochs).
Proof.
  split; [ | split; [ | split; [ | split ] ] ].
  - intros He. unfold train_model, prepare, len. rewrite He. reflexivity.
  - intros Hne ->. destruct (prepare_ok ds Hne) as [data Hp].
    unfold train_model. rewrite Hp. reflexivity.
  - intros Hne Hn Hex. destruct (prepare_ok ds Hne) as [data Hp].
    unfold train_model. rewrite Hp. cbn [bind].
    destruct num_epochs as [ | n ]; [ lia | ].
    cbn [seq run_epochs]. unfold epoch_step at 1.
    rewrite epoch_losses_raise; [ reflexivity | ].
    apply prepare_inv in Hp as (_ & -> & _). exact Hex.
  - intros Hne Hn Hw Hv. destruct (prepare_ok ds Hne) as [data Hp].
    unfold train_model. rewrite Hp. cbn [bind].
    destruct num_epochs as [ | n ]; [ lia | ].
    cbn [seq run_epochs]. unfold epoch_step at 1.
    pose proof (prepared_valid_count ds data Hp) as Hvc.
    pose proof Hp as Hi. apply prepare_inv in Hi as (_ & He & _).
    rewrite <- He in Hw.
    destruct (epoch_losses_ok model_input_dim sine_input_dim sine_hidden_dim
                sine_dropout drawn info period_hours 0 data mw0 sw0 Hw)
      as [terms Hl].
    cbn [model_weights sine_weights]. rewrite Hl. cbn [bind].
    unfold backward. rewrite Hvc, Hv. reflexivity.
  - intros Hne Hw Hv.
    destruct (train_model_ok model_input_dim sine_input_dim sine_hidden_dim
                sine_dropout optimizer_step drawn info lambda_recon lambda_time
                lambda_neural_sine period_hours mw0 sw0 ds num_epochs Hne Hw Hv)
      as [outcome Ht].
    exists outcome. split; [ exact Ht | ].
    apply train_model_inv in Ht as (data & _ & _ & _ & _ & Hrec).
    apply Forall2_length in Hrec. now rewrite length_seq in Hrec.
Qed.

Lemma time_term_agree (data data' : Prepared) (ts ts' : list R)
    (pc pc' : list (R * R)) :
  valid_mask_tensor data' = valid_mask_tensor data ->
  times_tensor data = Some ts -> times_tensor data' = Some ts' ->
  agree_on (valid_mask_tensor data) ts ts' ->
  mask_select (valid_mask_tensor data) pc
  = mask_select (valid_mask_tensor data) pc' ->
  time_term info period_hours data pc = time_term info period_hours data' pc'.
Proof.
  intros Hm Ht Ht' Hag Hpc. unfold time_term. rewrite Ht, Ht', Hm, Hpc.
  now rewrite (agree_on_select _ _ _ Hag).
Qed.

Lemma times_of_prepared (ds : ExpressionDataset) (data : Prepared) (ts : list R) :
  prepare ds = Ok data -> times ds = Some ts -> List.length ts = len ds ->
  times_tensor data = Some ts.
Proof.
  intros Hp Ht Hlen. pose proof Hp as Hi.
  apply prepare_inv in Hi as (Hne & _ & _ & -> & _).
  unfold getitem. cbn [time]. rewrite Ht. cbn [option_map present].
  rewrite flat_map_concat_map, <- map_map with (g := fun a => [a]).
  rewrite <- flat_map_concat_map.
  assert (Hfm : forall l : list R, flat_map (fun a => [a]) l = l).
  { induction l as [ | a l IH ]; cbn; [ reflexivity | now rewrite IH ]. }
  rewrite Hfm, <- Hlen, map_nth_seq.
  destruct ts; [ | reflexivity ].
  exfalso. unfold len in Hlen. destruct (expressions ds); [ contradiction | ].
  discriminate.
Qed.

(** X13.  The time-supervision term of an epoch looks only at rows the
    validity mask keeps: two datasets with the same labels that differ in
    the expression values and time labels of masked-out rows only get the
    same time term. *)
Theorem masked_rows_do_not_influence_time (ds ds' : ExpressionDataset)
    (data data' : Prepared) (ts ts' : list R) (epoch : nat)
    (mw : PhaseAutoEncoder.weights) (sw : SineParameterPredictor.weights) :
  prepare ds = Ok data -> prepare ds' = Ok data' ->
  celltypes ds' = celltypes ds ->
  times ds = Some ts -> times ds' = Some ts' ->
  List.length ts = len ds -> List.length ts' = len ds' ->
  Forall (fun row => List.length row = model_input_dim) (expressions ds) ->
  Forall (fun row => List.length row = model_input_dim) (expressions ds') ->
  agree_on (valid_mask_tensor data) (expressions ds) (expressions ds') ->
  agree_on (valid_mask_tensor data) ts ts' ->
  exists terms terms',
    losses epoch data mw sw = Ok terms /\
    losses epoch data' mw sw = Ok terms' /\
    time_loss terms = time_loss terms'.
Proof.
  intros Hp Hp' Hc Ht Ht' Hl Hl' Hw Hw' Hag Hagt.
  pose proof (times_of_prepared ds data ts Hp Ht Hl) as Htt.
  pose proof (times_of_prepared ds' data' ts' Hp' Ht' Hl') as Htt'.
  assert (Hm : valid_mask_tensor data' = valid_mask_tensor data).
  { pose proof Hp as Hi. apply prepare_inv in Hi as (_ & _ & -> & _).
    pose proof Hp' as Hi'. apply prepare_inv in Hi' as (_ & _ & -> & _).
    unfold is_valid, getitem. cbn [celltype]. rewrite Hc.
    replace (len ds') with (len ds); [ reflexivity | ].
    unfold len. apply agree_on_length in Hag as [-> ->]. reflexivity. }
  pose proof Hp as Hi. apply prepare_inv in Hi as (_ & He & _).
  pose proof Hp' as Hi'. apply prepare_inv in Hi' as (_ & He' & _).
  rewrite <- He in Hw, Hag. rewrite <- He' in Hw', Hag.
  destruct (epoch_losses_ok model_input_dim sine_input_dim sine_hidden_dim
              sine_dropout drawn info period_hours epoch data mw sw Hw)
    as [terms Hls].
  destruct (epoch_losses_ok model_input_dim sine_input_dim sine_hidden_dim
              sine_dropout drawn info period_hours epoch data' mw sw Hw')
    as [terms' Hls'].
  exists terms, terms'. split; [ exact Hls | split; [ exact Hls' | ] ].
  apply epoch_losses_inv in Hls as (pc & rec & Hf & _ & -> & _).
  apply epoch_losses_inv in Hls' as (pc' & rec' & Hf' & _ & -> & _).
  destruct (forward_agree _ _ _ _ _ _ _ _ Hag Hf Hf') as [Hpc _].
  now apply (time_term_agree data data' ts ts').
Qed.

End TrainingOutcomes.


Lemma train_model_outcome_witness :
  train_model 1 1 2 0.1 frozen_step (fun _ _ _ => keep_all)
    (info_of false true 1 1 0) 1 0.5 0.1 24
    zero_phase_weights (const_sine_weights 0) only_padding 3 = Raise NoGrad.
Proof.
  apply (proj1 (proj2 (proj2 (proj2
           (train_model_outcome 1 1 2 0.1 frozen_step (fun _ _ _ => keep_all)
              (info_of false true 1 1 0) 1 0.5 0.1 24
              zero_phase_weights (const_sine_weights 0) only_padding 3))))).
  - discriminate.
  - lia.
  - repeat constructor.
  - reflexivity.
Defined.

Lemma masked_rows_do_not_influence_time_witness :
  exists data data' terms terms',
    prepare timed_padded_dataset = Ok data /\
    prepare timed_padded_dataset_noise = Ok data' /\
    epoch_losses 1 6 2 0.1 (fun _ _ _ => keep_all) (info_of true true 1 6 5) 24
                 0 data zero_phase_weights (const_sine_weights 0) = Ok terms /\
    epoch_losses 1 6 2 0.1 (fun _ _ _ => keep_all) (info_of true true 1 6 5) 24
                 0 data' zero_phase_weights (const_sine_weights 0) = Ok terms' /\
    time_loss terms = time_loss terms'.
Proof.
  destruct (masked_rows_do_not_influence_time 1 6 2 0.1
              (fun _ _ _ => keep_all) (info_of true true 1 6 5) 24
              timed_padded_dataset timed_padded_dataset_noise
              {| expressions_tensor := repeat [1] 5 ++ [[0]];
                 valid_mask_tensor := [true; true; true; true; true; false];
                 times_tensor := Some [0; 4; 8; 12; 16; 0];
                 celltypes_array := Some (five_A ++ [PADDING]) |}
              {| expressions_tensor := repeat [1] 5 ++ [[7]];
                 valid_mask_tensor := [true; true; true; true; true; false];
                 times_tensor := Some [0; 4; 8; 12; 16; 99];
                 celltypes_array := Some (five_A ++ [PADDING]) |}
              [0; 4; 8; 12; 16; 0] [0; 4; 8; 12; 16; 99] 0%nat
              zero_phase_weights (const_sine_weights 0))
    as (terms & terms' & H1 & H2 & H3);
    try reflexivity; try (repeat constructor).
  eexists _, _, terms, terms'.
  split; [ reflexivity | split; [ reflexivity | ] ].
  split; [ exact H1 | split; [ exact H2 | exact H3 ] ].
Defined.

(** ** Truncating and padding the sample set *)

Lemma option_length_map {A B : Type} (f : list A -> list B) (o : option (list A))
    (n m : nat) :
  (forall l, List.length l = n -> List.length (f l) = m) ->
  (forall l, o = Some l -> List.length l = n) ->
  forall l', option_map f o = Some l' -> List.length l' = m.
Proof.
  intros Hf Ho l' H. destruct o as [ l | ]; [ | discriminate ].
  injection H as <-. apply Hf. now apply Ho.
Qed.

Lemma widths_checked (n_components : nat) (rows : list (list R)) :
  forallb (fun row => Nat.eqb (List.length row) n_components) rows = true <->
  Forall (fun row => List.length row = n_components) rows.
Proof.
  rewrite forallb_forall, Forall_forall.
  split; intros H row Hin; apply Nat.eqb_eq; now apply H.
Qed.

Lemma resize_samples_truncates (selected_indices : list nat)
    (n_components max_samples : nat) (selected_expression : list (list R))
    (times_in : option (list R)) (celltypes_in : option (list string)) :
  (max_samples < List.length selected_expression)%nat ->
  resize_samples selected_indices n_components max_samples
    selected_expression times_in celltypes_in =
  Ok {| expressions := map (fun i => nth i selected_expression []) selected_indices;
        times :=
          option_map (fun ts => map (fun i => nth i ts 0) selected_indices)
            times_in;
        celltypes :=
          option_map (fun cs => map (fun i => nth i cs EmptyString) selected_indices)
            celltypes_in |}.
Proof.
  intros H. unfold resize_samples. apply Nat.ltb_lt in H. now rewrite H.
Qed.

Lemma resize_samples_pads (selected_indices : list nat)
    (n_components max_samples : nat) (selected_expression : list (list R))
    (times_in : option (list R)) (celltypes_in : option (list string)) :
  (List.length selected_expression < max_samples)%nat ->
  Forall (fun row => List.length row = n_components) selected_expression ->
  resize_samples selected_indices n_components max_samples
    selected_expression times_in celltypes_in =
  Ok {| expressions :=
          selected_expression
          ++ repeat (repeat 0 n_components)
               (max_samples - List.length selected_expression);
        times :=
          option_map
            (fun ts => ts ++ repeat 0 (max_samples - List.length selected_expression))
            times_in;
        celltypes :=
          option_map
            (fun cs =>
               cs ++ repeat PADDING (max_samples - List.length selected_expression))
            celltypes_in |}.
Proof.
  intros H Hw. unfold resize_samples.
  assert (Hnot : Nat.ltb max_samples (List.length selected_expression) = false)
    by (apply Nat.ltb_ge; lia).
  apply Nat.ltb_lt in H. apply widths_checked in Hw.
  now rewrite Hnot, H, Hw.
Qed.

Lemma resize_samples_keeps (selected_indices : list nat)
    (n_components max_samples : nat) (selected_expression : list (list R))
    (times_in : option (list R)) (celltypes_in : option (list string)) :
  List.length selected_expression = max_samples ->
  resize_samples selected_indices n_components max_samples
    selected_expression times_in celltypes_in =
  Ok {| expressions := selected_expression;
        times := times_in;
        celltypes := celltypes_in |}.
Proof.
  intros <-. unfold resize_samples. now rewrite Nat.ltb_irrefl.
Qed.

Lemma resize_samples_raises (selected_indices : list nat)
    (n_components max_samples : nat) (selected_expression : list (list R))
    (times_in : option (list R)) (celltypes_in : option (list string)) :
  (List.length selected_expression < max_samples)%nat ->
  Exists (fun row => List.length row <> n_components) selected_expression ->
  resize_samples selected_indices n_components max_samples
    selected_expression times_in celltypes_in = Raise ShapeError.
Proof.
  intros H Hex. unfold resize_samples.
  assert (Hnot : Nat.ltb max_samples (List.length selected_expression) = false)
    by (apply Nat.ltb_ge; lia).
  apply Nat.ltb_lt in H. rewrite Hnot, H.
  destruct (forallb _ selected_expression) eqn:Hall; [ | reflexivity ].
  apply widths_checked in Hall. rewrite Forall_forall in Hall.
  apply Exists_exists in Hex as (row & Hin & Hne).
  now specialize (Hall row Hin).
Qed.

(** X14.  The sample-count adjustment returns a dataset of exactly
    [max_samples] rows, times and labels, provided that, when it has to
    pad, the selected matrix has [n_components] columns and, when it has to
    truncate, the random choice has [max_samples] indices.  A dataset that
    already has [max_samples] samples, as [main] arranges, is passed through
    unchanged.  Padding a matrix with a row of another width than
    [n_components] is a shape error. *)
Theorem resize_samples_shape (selected_indices : list nat)
    (n_components max_samples : nat) (selected_expression : list (list R))
    (times_in : option (list R)) (celltypes_in : option (list string)) :
  (forall ts, times_in = Some ts -> List.length ts = List.length selected_expression) ->
  (forall cs, celltypes_in = Some cs -> List.length cs = List.length selected_expression) ->
  let r := resize_samples selected_indices n_components max_samples
                          selected_expression times_in celltypes_in in
  (((List.length selected_expression < max_samples)%nat ->
    Forall (fun row => List.length row = n_components) selected_expression) ->
   ((max_samples < List.length selected_expression)%nat ->
    List.length selected_indices = max_samples) ->
   exists ds,
     r = Ok ds /\
     len ds = max_samples /\
     (forall ts, times ds = Some ts -> List.length ts = max_samples) /\
     (forall cs, celltypes ds = Some cs -> List.length cs = max_samples)) /\
  (List.length selected_expression = max_samples ->
   r = Ok {| expressions := selected_expression;
             times := times_in;
             celltypes := celltypes_in |}) /\
  ((List.length selected_expression < max_samples)%nat ->
   Exists (fun row => List.length row <> n_components) selected_expression ->
   r = Raise ShapeError).
Proof.
  intros Ht Hc r. subst r. split; [ | split ].
  - intros Hpad Htrunc.
    destruct (Nat.lt_trichotomy (List.length selected_expression) max_samples)
      as [ Hlt | [ Heq | Hgt ] ].
    + rewrite (resize_samples_pads _ _ _ _ _ _ Hlt (Hpad Hlt)).
      eexists. split; [ reflexivity | ].
      unfold len. cbn [expressions times celltypes].
      split; [ rewrite length_app, repeat_length; lia | split ].
      * intros ts H. destruct times_in as [ts0 | ]; [ | discriminate ].
        injection H as <-. rewrite length_app, repeat_length.
        rewrite (Ht ts0 eq_refl). lia.
      * intros cs H. destruct celltypes_in as [cs0 | ]; [ | discriminate ].
        injection H as <-. rewrite length_app, repeat_length.
        rewrite (Hc cs0 eq_refl). lia.
    + rewrite (resize_samples_keeps _ _ _ _ _ _ Heq).
      eexists. split; [ reflexivity | ].
      unfold len. cbn [expressions times celltypes].
      split; [ exact Heq | split ].
      * intros ts H. rewrite (Ht ts H). exact Heq.
      * intros cs H. rewrite (Hc cs H). exact Heq.
    + rewrite (resize_samples_truncates _ _ _ _ _ _ Hgt).
      eexists. split; [ reflexivity | ].
      unfold len. cbn [expressions times celltypes].
      split; [ rewrite length_map; now apply Htrunc | split ].
      * intros ts H. destruct times_in; [ | discriminate ].
        injection H as <-. rewrite length_map. now apply Htrunc.
      * intros cs H. destruct celltypes_in; [ | discriminate ].
        injection H as <-. rewrite length_map. now apply Htrunc.
  - apply resize_samples_keeps.
  - apply resize_samples_raises.
Qed.

Lemma resize_samples_shape_witness :
  (exists ds,
     resize_samples [] 1 6 (repeat [1] 5) None (Some five_A) = Ok ds /\
     len ds = 6%nat) /\
  resize_samples [] 3 2 [[1; 2]] None None = Raise ShapeError.
Proof.
  split.
  - destruct (proj1 (resize_samples_shape [] 1 6 (repeat [1] 5) None
                       (Some five_A) ltac:(discriminate)
                       ltac:(intros cs [= <-]; reflexivity)))
      as (ds & Hds & Hlen & _).
    + intros _. repeat constructor.
    + cbn. lia.
    + exists ds. split; assumption.
  - apply (proj2 (proj2 (resize_samples_shape [] 3 2 [[1; 2]] None None
                           ltac:(discriminate) ltac:(discriminate)))).
    + cbn. lia.
    + apply Exists_cons_hd. cbn. discriminate.
Defined.

(** X15.  The adjustment keeps each sample's expression row, time and
    label together: when truncating, sample k of the result is the
    original sample at the k-th chosen index; when padding a matrix of
    [n_components] columns, the original samples keep their positions, and
    every appended row is all-zero with time 0 and the label PADDING. *)
Theorem resize_samples_alignment (selected_indices : list nat)
    (n_components max_samples : nat) (selected_expression : list (list R))
    (times_in : option (list R)) (celltypes_in : option (list string)) :
  (forall ts, times_in = Some ts -> List.length ts = List.length selected_expression) ->
  (forall cs, celltypes_in = Some cs -> List.length cs = List.length selected_expression) ->
  let original := {| expressions := selected_expression;
                     times := times_in;
                     celltypes := celltypes_in |} in
  let r := resize_samples selected_indices n_components max_samples
                          selected_expression times_in celltypes_in in
  ((max_samples < List.length selected_expression)%nat ->
   exists ds,
     r = Ok ds /\
     forall k, (k < List.length selected_indices)%nat ->
       getitem ds k = getitem original (nth k selected_indices 0%nat)) /\
  ((List.length selected_expression <= max_samples)%nat ->
   ((List.length selected_expression < max_samples)%nat ->
    Forall (fun row => List.length row = n_components) selected_expression) ->
   exists ds,
     r = Ok ds /\
     (forall k, (k < List.length selected_expression)%nat ->
        getitem ds k = getitem original k) /\
     (forall k, (List.length selected_expression <= k < max_samples)%nat ->
        getitem ds k =
        {| expression := repeat 0 n_components;
           time := option_map (fun _ => 0) times_in;
           celltype := option_map (fun _ => PADDING) celltypes_in |})).
Proof.
  intros Ht Hc original r. subst original r.
  split.
  - intros Hgt. rewrite (resize_samples_truncates _ _ _ _ _ _ Hgt).
    eexists. split; [ reflexivity | ]. intros k Hk.
    unfold getitem. cbn [expressions times celltypes].
    f_equal.
    + rewrite (nth_indep _ [] (nth 0 selected_expression []))
        by now rewrite length_map.
      now rewrite (map_nth (fun i => nth i selected_expression [])).
    + destruct times_in as [ts | ]; [ | reflexivity ]. cbn [option_map]. f_equal.
      rewrite (nth_indep _ 0 (nth 0 ts 0)) by now rewrite length_map.
      now rewrite (map_nth (fun i => nth i ts 0)).
    + destruct celltypes_in as [cs | ]; [ | reflexivity ]. cbn [option_map]. f_equal.
      rewrite (nth_indep _ EmptyString (nth 0 cs EmptyString))
        by now rewrite length_map.
      now rewrite (map_nth (fun i => nth i cs EmptyString)).
  - intros Hle Hpad.
    destruct (Nat.eq_dec (List.length selected_expression) max_samples)
      as [ Heq | Hne ].
    + rewrite (resize_samples_keeps _ _ _ _ _ _ Heq).
      eexists. split; [ reflexivity | ].
      split; [ reflexivity | ]. intros k Hk. lia.
    + assert (Hlt : (List.length selected_expression < max_samples)%nat) by lia.
      rewrite (resize_samples_pads _ _ _ _ _ _ Hlt (Hpad Hlt)).
      eexists. split; [ reflexivity | ]. split.
      * intros k Hk. unfold getitem.
        cbn [expressions times celltypes]. f_equal.
        -- now rewrite app_nth1.
        -- destruct times_in as [ts | ]; [ | reflexivity ]. cbn [option_map]. f_equal.
           rewrite app_nth1; [ reflexivity | ]. rewrite (Ht ts eq_refl). exact Hk.
        -- destruct celltypes_in as [cs | ]; [ | reflexivity ]. cbn [option_map].
           f_equal. rewrite app_nth1; [ reflexivity | ].
           rewrite (Hc cs eq_refl). exact Hk.
      * intros k [Hk1 Hk2]. unfold getitem.
        cbn [expressions times celltypes]. f_equal.
        -- rewrite app_nth2 by lia. apply nth_repeat_lt. lia.
        -- destruct times_in as [ts | ]; [ | reflexivity ]. cbn [option_map]. f_equal.
           rewrite app_nth2 by (rewrite (Ht ts eq_refl); lia).
           apply nth_repeat_lt. rewrite (Ht ts eq_refl). lia.
        -- destruct celltypes_in as [cs | ]; [ | reflexivity ]. cbn [option_map].
           f_equal. rewrite app_nth2 by (rewrite (Hc cs eq_refl); lia).
           apply nth_repeat_lt. rewrite (Hc cs eq_refl). lia.
Qed.

Lemma resize_samples_alignment_witness :
  exists ds,
    resize_samples [] 1 6 (repeat [1] 5) None (Some five_A) = Ok ds /\
    getitem ds 5 =
    {| expression := repeat 0 1; time := None; celltype := Some PADDING |}.
Proof.
  destruct (proj2 (resize_samples_alignment [] 1 6 (repeat [1] 5) None
                     (Some five_A) ltac:(discriminate)
                     ltac:(intros cs [= <-]; reflexivity)))
    as (ds & Hds & _ & Hpad).
  - cbn. lia.
  - intros _. repeat constructor.
  - exists ds. split; [ exact Hds | ].
    apply (Hpad 5%nat). cbn. lia.
Defined.

(** ** Valid rows after the adjustment *)

Lemma valid_count_of_labels (ds : ExpressionDataset) (cs : list string) :
  celltypes ds = Some cs -> List.length cs = len ds ->
  valid_count ds =
  count_true (map (fun c => if String.eqb c PADDING then false else true) cs).
Proof.
  intros Hc Hlen. unfold valid_count, is_valid, getitem. cbn [celltype].
  rewrite Hc. cbn [option_map]. rewrite <- Hlen.
  transitivity
    (count_true (map (fun c => if String.eqb c PADDING then false else true)
                     (map (fun i => nth i cs EmptyString)
                          (seq 0 (List.length cs))))).
  - now rewrite map_map.
  - now rewrite map_nth_seq.
Qed.

Lemma count_true_app (a b : list bool) :
  count_true (a ++ b) = (count_true a + count_true b)%nat.
Proof. unfold count_true. now rewrite filter_app, length_app. Qed.

Lemma count_true_padding (k : nat) :
  count_true (map (fun c => if String.eqb c PADDING then false else true)
                  (repeat PADDING k)) = 0%nat.
Proof.
  induction k as [ | k IH ]; [ reflexivity | ].
  cbn [repeat map]. rewrite String.eqb_refl. exact IH.
Qed.

(** X16.  Padding and the validity mask fit together when labels are
    present: after padding a labelled sample set of [n_components] columns,
    the number of valid rows is the number of original samples whose label
    is not PADDING, so it is the original sample count when no real label
    is PADDING.  Without labels every row of the padded set counts as
    valid. *)
Theorem valid_rows_after_padding (selected_indices : list nat)
    (n_components max_samples : nat) (selected_expression : list (list R))
    (times_in : option (list R)) :
  (List.length selected_expression <= max_samples)%nat ->
  ((List.length selected_expression < max_samples)%nat ->
   Forall (fun row => List.length row = n_components) selected_expression) ->
  (forall cs, List.length cs = List.length selected_expression ->
     exists ds,
       resize_samples selected_indices n_components max_samples
         selected_expression times_in (Some cs) = Ok ds /\
       valid_count ds
       = count_true (map (fun c => if String.eqb c PADDING then false else true) cs) /\
       (Forall (fun c => c <> PADDING) cs ->
        valid_count ds = List.length selected_expression)) /\
  (exists ds,
     resize_samples selected_indices n_components max_samples
       selected_expression times_in None = Ok ds /\
     valid_count ds = max_samples).
Proof.
  intros Hle Hpad. split.
  - intros cs Hcs.
    assert (Hex : exists ds,
      resize_samples selected_indices n_components max_samples
        selected_expression times_in (Some cs) = Ok ds /\
      valid_count ds
      = count_true (map (fun c => if String.eqb c PADDING then false else true) cs)).
    { destruct (Nat.eq_dec (List.length selected_expression) max_samples)
        as [ Heq | Hne ].
      - rewrite (resize_samples_keeps _ _ _ _ _ _ Heq).
        eexists. split; [ reflexivity | ].
        apply valid_count_of_labels; [ reflexivity | exact Hcs ].
      - assert (Hlt : (List.length selected_expression < max_samples)%nat) by lia.
        rewrite (resize_samples_pads _ _ _ _ _ _ Hlt (Hpad Hlt)).
        eexists. split; [ reflexivity | ]. cbn [option_map].
        rewrite (valid_count_of_labels _
                   (cs ++ repeat PADDING (max_samples - List.length selected_expression)));
          [ | reflexivity | ].
        + rewrite map_app, count_true_app, count_true_padding. lia.
        + unfold len. cbn [expressions].
          rewrite !length_app, !repeat_length. lia. }
    destruct Hex as (ds & Hds & Hcount).
    exists ds. split; [ exact Hds | ]. split; [ exact Hcount | ].
    intros Hreal. rewrite Hcount, <- Hcs.
    rewrite count_true_when_all, length_map; [ reflexivity | ].
    apply Forall_map. eapply Forall_impl; [ | exact Hreal ].
    cbn beta. intros c Hc. apply String.eqb_neq in Hc. now rewrite Hc.
  - destruct (Nat.eq_dec (List.length selected_expression) max_samples)
      as [ Heq | Hne ].
    + rewrite (resize_samples_keeps _ _ _ _ _ _ Heq).
      eexists. split; [ reflexivity | ].
      rewrite unlabelled_rows_all_valid by reflexivity. exact Heq.
    + assert (Hlt : (List.length selected_expression < max_samples)%nat) by lia.
      rewrite (resize_samples_pads _ _ _ _ _ _ Hlt (Hpad Hlt)).
      eexists. split; [ reflexivity | ].
      rewrite unlabelled_rows_all_valid by reflexivity.
      unfold len. cbn [expressions]. rewrite length_app, repeat_length. lia.
Qed.

Lemma valid_rows_after_padding_witness :
  (exists ds,
     resize_samples [] 1 6 (repeat [1] 5) None (Some five_A) = Ok ds /\
     valid_count ds = 5%nat) /\
  (exists ds,
     resize_samples [] 1 6 (repeat [1] 5) None None = Ok ds /\
     valid_count ds = 6%nat).
Proof.
  assert (Hle : (List.length (repeat [1] 5) <= 6)%nat) by (cbn; lia).
  assert (Hw : (List.length (repeat [1] 5) < 6)%nat ->
               Forall (fun row : list R => List.length row = 1%nat) (repeat [1] 5))
    by (intros _; repeat constructor).
  split.
  - destruct (proj1 (valid_rows_after_padding [] 1 6 (repeat [1] 5) None Hle Hw)
                    five_A eq_refl) as (ds & Hds & _ & Hreal).
    exists ds. split; [ exact Hds | ].
    apply Hreal. repeat constructor; discriminate.
  - exact (proj2 (valid_rows_after_padding [] 1 6 (repeat [1] 5) None Hle Hw)).
Defined.


(** ** Gene alignment of the test data *)

Lemma first_index_Some (gene : string) (names : list string) (k : nat) :
  first_index gene names = Some k ->
  nth_error names k = Some gene /\
  forall i, (i < k)%nat -> nth_error names i <> Some gene.
Proof.
  revert k. induction names as [ | name rest IH ]; intros k; cbn [first_index].
  - discriminate.
  - destruct (String.eqb_spec name gene) as [-> | Hne].
    + intros [= <-]. split; [ reflexivity | ]. intros i Hi. lia.
    + destruct (first_index gene rest) as [k' | ]; [ | discriminate ].
      intros [= <-]. destruct (IH k' eq_refl) as [Hk Hfirst].
      split; [ exact Hk | ].
      intros [ | i ] Hi; cbn [nth_error].
      * intros [= H]. contradiction.
      * apply Hfirst. lia.
Qed.

Lemma first_index_None (gene : string) (names : list string) :
  first_index gene names = None <-> ~ In gene names.
Proof.
  induction names as [ | name rest IH ]; cbn [first_index In].
  - tauto.
  - destruct (String.eqb_spec name gene) as [-> | Hne].
    + split; [ discriminate | ]. intros H. exfalso. apply H. now left.
    + destruct (first_index gene rest) as [k | ]; cbn [option_map].
      * split; [ discriminate | ]. intros H. exfalso.
        assert (Hin : In gene rest).
        { destruct (in_dec string_dec gene rest) as [Hin | Hnin]; [ exact Hin | ].
          apply IH in Hnin. discriminate. }
        apply H. now right.
      * split; [ | reflexivity ]. intros _ [Heq | Hin]; [ contradiction | ].
        now apply IH in Hin.
Qed.

Lemma set_nth_fill (f : nat -> R) (n k s : nat) :
  (s <= k < s + n)%nat ->
  set_nth (k - s) (f k)
          (map (fun j => if Nat.ltb j k then f j else 0) (seq s n))
  = map (fun j => if Nat.ltb j (S k) then f j else 0) (seq s n).
Proof.
  revert s. induction n as [ | n IH ]; intros s Hk; [ lia | ].
  cbn [seq map]. destruct (Nat.eq_dec k s) as [-> | Hne].
  - rewrite Nat.sub_diag. cbn [set_nth].
    assert (H1 : Nat.ltb s (S s) = true) by (apply Nat.ltb_lt; lia).
    rewrite H1. f_equal.
    apply map_ext_in. intros j Hj. apply in_seq in Hj.
    assert (H2 : Nat.ltb j s = false) by (apply Nat.ltb_ge; lia).
    assert (H3 : Nat.ltb j (S s) = false) by (apply Nat.ltb_ge; lia).
    now rewrite H2, H3.
  - replace (k - s)%nat with (S (k - S s)) by lia. cbn [set_nth].
    assert (H1 : Nat.ltb s k = true) by (apply Nat.ltb_lt; lia).
    assert (H2 : Nat.ltb s (S k) = true) by (apply Nat.ltb_lt; lia).
    rewrite H1, H2. f_equal. apply IH. lia.
Qed.

Lemma combine_map_same {A B C : Type} (f : A -> B) (g : A -> C) (l : list A) :
  combine (map f l) (map g l) = map (fun x => (f x, g x)) l.
Proof.
  induction l as [ | a l IH ]; cbn [map combine]; [ reflexivity | now rewrite IH ].
Qed.

Lemma fold_left_stuck {A B : Type} (step : option A -> B -> option A) (l : list B) :
  (forall b, step None b = None) -> fold_left step l None = None.
Proof.
  intros H. induction l as [ | b l IH ]; cbn [fold_left]; [ reflexivity | ].
  now rewrite H.
Qed.

Section Alignment.

Variable test_gene_names : list string.
Variable test_expression_scaled : list (list R).
Variable n_components : nat.

Local Abbreviation step :=
  (fun acc entry =>
     match acc with
     | Some st =>
         align_step test_gene_names test_expression_scaled n_components st entry
     | None => None
     end).

Local Abbreviation filled selected k :=
  (map (fun row =>
          map (fun j => if Nat.ltb j k
                        then aligned_entry selected test_gene_names row j
                        else 0)
              (seq 0 n_components))
       test_expression_scaled).

Lemma align_fold (genes : list string) :
  forall (k : nat) (done found missing : list string),
    List.length done = k ->
    (k + List.length genes <= n_components)%nat ->
    fold_left step (combine (seq k (List.length genes)) genes)
      (Some {| test_selected_expression := filled (done ++ genes) k;
               found_genes := found;
               missing_genes := missing |})
    = Some {| test_selected_expression :=
                filled (done ++ genes) (k + List.length genes);
              found_genes := found ++ filter (gene_present test_gene_names) genes;
              missing_genes :=
                missing ++ filter (fun g => negb (gene_present test_gene_names g))
                                  genes |}.
Proof.
  induction genes as [ | g gs IH ]; intros k done found missing Hk Hle.
  - cbn [List.length seq combine fold_left filter].
    now rewrite Nat.add_0_r, !app_nil_r.
  - cbn [List.length seq combine fold_left]. cbn [List.length] in Hle.
    unfold align_step at 2.
    assert (Hlt : Nat.ltb k n_components = true) by (apply Nat.ltb_lt; lia).
    rewrite Hlt.
    assert (Hnth : nth_error (done ++ g :: gs) k = Some g).
    { rewrite nth_error_app2 by lia. now rewrite Hk, Nat.sub_diag. }
    assert (Hdone : done ++ g :: gs = (done ++ [g]) ++ gs)
      by now rewrite <- app_assoc.
    cbn [test_selected_expression found_genes missing_genes filter].
    destruct (first_index g test_gene_names) as [idx | ] eqn:Hidx.
    + assert (Hm : set_column (filled (done ++ g :: gs) k) k
                              (column test_expression_scaled idx)
                   = filled (done ++ g :: gs) (S k)).
      { unfold set_column, column. rewrite combine_map_same, map_map.
        apply map_ext. intros row.
        rewrite <- (Nat.sub_0_r k) at 1.
        replace (nth idx row 0)
          with (aligned_entry (done ++ g :: gs) test_gene_names row k)
          by (unfold aligned_entry; now rewrite Hnth, Hidx).
        apply (set_nth_fill
                 (aligned_entry (done ++ g :: gs) test_gene_names row)). lia. }
      rewrite Hm, Hdone.
      assert (Hgp : gene_present test_gene_names g = true)
        by (unfold gene_present; now rewrite Hidx).
      rewrite (IH (S k) (done ++ [g]) (found ++ [g]) missing).
      * rewrite Hgp. cbn [negb]. now rewrite Nat.add_succ_r, <- !app_assoc.
      * rewrite length_app. cbn. lia.
      * lia.
    + assert (Hm : map (set_nth k 0) (filled (done ++ g :: gs) k)
                   = filled (done ++ g :: gs) (S k)).
      { rewrite map_map. apply map_ext. intros row.
        rewrite <- (Nat.sub_0_r k) at 1.
        replace 0 with (aligned_entry (done ++ g :: gs) test_gene_names row k) at 1
          by (unfold aligned_entry; now rewrite Hnth, Hidx).
        apply (set_nth_fill
                 (aligned_entry (done ++ g :: gs) test_gene_names row)). lia. }
      rewrite Hm, Hdone.
      assert (Hgp : gene_present test_gene_names g = false)
        by (unfold gene_present; now rewrite Hidx).
      rewrite (IH (S k) (done ++ [g]) found (missing ++ [g])).
      * rewrite Hgp. cbn [negb]. now rewrite Nat.add_succ_r, <- !app_assoc.
      * rewrite length_app. cbn. lia.
      * lia.
Qed.

Lemma filled_start (selected : list string) :
  repeat (repeat 0 n_components) (List.length test_expression_scaled)
  = filled selected 0.
Proof.
  induction test_expression_scaled as [ | row rows IH ]; [ reflexivity | ].
  cbn [List.length repeat map]. f_equal; [ | exact IH ].
  clear. generalize 0%nat at 2.
  induction n_components as [ | n IHn ]; intros s; [ reflexivity | ].
  cbn [repeat seq map Nat.ltb Nat.leb]. f_equal. apply IHn.
Qed.

Lemma filled_end (selected : list string) :
  filled selected (List.length selected)
  = map (fun row =>
           map (aligned_entry selected test_gene_names row) (seq 0 n_components))
        test_expression_scaled.
Proof.
  apply map_ext. intros row. apply map_ext. intros j.
  destruct (Nat.ltb_spec j (List.length selected)) as [Hlt | Hge]; [ reflexivity | ].
  unfold aligned_entry.
  now rewrite (proj2 (nth_error_None selected j) Hge).
Qed.

End Alignment.

Lemma combine_app_same {A B : Type} (l1 l2 : list A) (m1 m2 : list B) :
  List.length l1 = List.length m1 ->
  combine (l1 ++ l2) (m1 ++ m2) = combine l1 m1 ++ combine l2 m2.
Proof.
  revert m1. induction l1 as [ | a l1 IH ]; intros [ | b m1 ] Hlen;
    try discriminate; [ reflexivity | ].
  cbn [app combine]. f_equal. apply IH. now injection Hlen.
Qed.

(** X17.  Test genes are aligned by name to the training genes.  When the
    selected genes fit the matrix, the result has one row per test sample
    and [n_components] columns; column j holds the test values of the
    first gene named like the j-th selected gene, or zeros if the test data
    lacks it or there is no j-th selected gene; the found and missing lists
    split the selected genes, each in training order.  More selected genes
    than columns is an index error. *)
Theorem align_test_genes_spec (selected_genes test_gene_names : list string)
    (test_expression_scaled : list (list R)) (n_components : nat) :
  ((List.length selected_genes <= n_components)%nat ->
   align_test_genes selected_genes test_gene_names test_expression_scaled
                    n_components =
   Some {| test_selected_expression :=
             map (fun row =>
                    map (aligned_entry selected_genes test_gene_names row)
                        (seq 0 n_components))
                 test_expression_scaled;
           found_genes := filter (gene_present test_gene_names) selected_genes;
           missing_genes :=
             filter (fun g => negb (gene_present test_gene_names g))
                    selected_genes |}) /\
  ((n_components < List.length selected_genes)%nat ->
   align_test_genes selected_genes test_gene_names test_expression_scaled
                    n_components = None).
Proof.
  split.
  - intros Hle. unfold align_test_genes.
    rewrite (filled_start test_gene_names test_expression_scaled n_components
                          selected_genes).
    pose proof (align_fold test_gene_names test_expression_scaled n_components
                           selected_genes 0 [] [] [] eq_refl Hle) as H.
    cbn [app Nat.add] in H. rewrite H. now rewrite filled_end.
  - intros Hgt. unfold align_test_genes.
    rewrite <- (firstn_skipn n_components selected_genes) at 1 2.
    rewrite length_app, seq_app, combine_app_same.
    2:{ now rewrite length_seq. }
    rewrite fold_left_app.
    rewrite (filled_start test_gene_names test_expression_scaled n_components
                          (firstn n_components selected_genes)).
    assert (Hlen : List.length (firstn n_components selected_genes) = n_components)
      by (rewrite length_firstn; lia).
    assert (Hfit : (0 + List.length (firstn n_components selected_genes)
                    <= n_components)%nat) by lia.
    pose proof (align_fold test_gene_names test_expression_scaled n_components
                           (firstn n_components selected_genes) 0 [] [] []
                           eq_refl Hfit) as H.
    cbn [app Nat.add] in H. rewrite H. rewrite Hlen.
    destruct (skipn n_components selected_genes) as [ | g rest ] eqn:Hskip.
    + exfalso. apply (f_equal (@List.length string)) in Hskip.
      rewrite length_skipn in Hskip. cbn in Hskip. lia.
    + cbn [List.length seq combine fold_left]. unfold align_step at 2.
      rewrite Nat.ltb_irrefl. now apply fold_left_stuck.
Qed.

Lemma align_test_genes_spec_witness :
  align_test_genes ["g1"%string; "g2"%string] ["g2"%string; "g3"%string]
                   [[5; 7]; [6; 8]] 3 =
  Some {| test_selected_expression := [[0; 5; 0]; [0; 6; 0]];
          found_genes := ["g2"%string];
          missing_genes := ["g1"%string] |}.
Proof.
  refine (proj1 (align_test_genes_spec ["g1"%string; "g2"%string]
                   ["g2"%string; "g3"%string] [[5; 7]; [6; 8]] 3) _).
  cbn. lia.
Defined.


Lemma collect_fold (test_gene_names : list string)
    (test_expression_scaled : list (list R)) (genes : list string) :
  forall cols found,
    fold_left (collect_step test_gene_names test_expression_scaled) genes
              (cols, found)
    = (cols ++ map (fun g => map (fun row => named_value test_gene_names row g)
                                 test_expression_scaled)
                   (filter (gene_present test_gene_names) genes),
       found ++ filter (gene_present test_gene_names) genes).
Proof.
  induction genes as [ | g gs IH ]; intros cols found; cbn [fold_left filter map].
  - now rewrite !app_nil_r.
  - unfold collect_step at 2.
    destruct (first_index g test_gene_names) as [idx | ] eqn:Hidx.
    + assert (Hgp : gene_present test_gene_names g = true)
        by (unfold gene_present; now rewrite Hidx).
      rewrite IH, Hgp. cbn [fst snd map]. f_equal.
      * rewrite <- app_assoc. cbn [app]. do 2 f_equal.
        unfold column. apply map_ext. intros row.
        unfold named_value. now rewrite Hidx.
      * now rewrite <- app_assoc.
    + assert (Hgp : gene_present test_gene_names g = false)
        by (unfold gene_present; now rewrite Hidx).
      rewrite IH, Hgp. reflexivity.
Qed.

Lemma column_stack_of_rows {A : Type} (rows : list (list R)) (keys : list A)
    (value : list R -> A -> R) :
  column_stack (List.length rows)
               (map (fun key => map (fun row => value row key) rows) keys)
  = map (fun row => map (value row) keys) rows.
Proof.
  unfold column_stack.
  transitivity (map (fun row => map (value row) keys)
                    (map (fun s => nth s rows []) (seq 0 (List.length rows))));
    [ | now rewrite map_nth_seq ].
  rewrite map_map.
  apply map_ext_in. intros s Hs. apply in_seq in Hs.
  rewrite map_map. apply map_ext. intros key.
  rewrite (nth_indep _ 0 (value [] key)) by (rewrite length_map; lia).
  now rewrite (map_nth (fun row => value row key)).
Qed.

(** X18.  The custom genes kept for plotting are exactly those named in
    the test data, in the order requested; the returned matrix has one row
    per test sample and one column per kept gene, holding the scaled
    values of the first test gene of that name.  The function returns
    nothing exactly when none of the requested genes is in the test
    data. *)
Theorem get_original_gene_expressions_spec
    (custom_genes test_gene_names : list string)
    (test_expression_scaled : list (list R)) :
  let kept := filter (gene_present test_gene_names) custom_genes in
  (get_original_gene_expressions custom_genes test_gene_names
                                 test_expression_scaled = None <->
   Forall (fun g => ~ In g test_gene_names) custom_genes) /\
  (kept <> [] ->
   get_original_gene_expressions custom_genes test_gene_names
                                 test_expression_scaled =
   Some (map (fun row => map (named_value test_gene_names row) kept)
             test_expression_scaled,
         kept)).
Proof.
  cbv zeta. unfold get_original_gene_expressions.
  rewrite collect_fold. cbn [app].
  rewrite column_stack_of_rows.
  assert (Hkept : filter (gene_present test_gene_names) custom_genes = [] <->
                  Forall (fun g => ~ In g test_gene_names) custom_genes).
  { induction custom_genes as [ | g gs IH ]; cbn [filter].
    - split; [ constructor | reflexivity ].
    - unfold gene_present at 1.
      destruct (first_index g test_gene_names) as [k | ] eqn:Hk.
      + split; [ discriminate | ]. intros H. inversion H as [ | ? ? Hg _ ]; subst.
        apply first_index_None in Hg. congruence.
      + rewrite IH. split.
        * intros H. constructor; [ now apply first_index_None | exact H ].
        * intros H. now inversion H. }
  split.
  - rewrite <- Hkept.
    destruct (filter (gene_present test_gene_names) custom_genes);
      split; try reflexivity; discriminate.
  - intros Hne.
    destruct (filter (gene_present test_gene_names) custom_genes);
      [ contradiction | reflexivity ].
Qed.

Lemma get_original_gene_expressions_spec_witness :
  get_original_gene_expressions ["g3"%string; "g9"%string; "g2"%string]
    ["g2"%string; "g3"%string] [[5; 7]; [6; 8]] =
  Some ([[7; 5]; [8; 6]], ["g3"%string; "g2"%string]).
Proof.
  refine (proj2 (get_original_gene_expressions_spec
                   ["g3"%string; "g9"%string; "g2"%string]
                   ["g2"%string; "g3"%string] [[5; 7]; [6; 8]]) _).
  discriminate.
Defined.


(** ** Phase prediction *)

Lemma mapM_app {A B : Type} (f : A -> result B) (l1 l2 : list A) :
  mapM f (l1 ++ l2) =
  (a <- mapM f l1 ;; b <- mapM f l2 ;; Ok (a ++ b)).
Proof.
  induction l1 as [ | x l1 IH ]; cbn [mapM app bind].
  - destruct (mapM f l2); reflexivity.
  - destruct (f x) as [ b | e ]; cbn [bind]; [ | reflexivity ].
    rewrite IH. destruct (mapM f l1) as [ bs | e ]; cbn [bind]; [ | reflexivity ].
    destruct (mapM f l2) as [ cs | e ]; cbn [bind]; reflexivity.
Qed.

Lemma mapM_concat {A B : Type} (f : A -> result B) (ls : list (list A)) :
  mapM f (concat ls) =
  (rows <- mapM (mapM f) ls ;; Ok (concat rows)).
Proof.
  induction ls as [ | l ls IH ]; cbn [concat mapM bind]; [ reflexivity | ].
  rewrite mapM_app, IH.
  destruct (mapM f l) as [ a | e ]; cbn [bind]; [ | reflexivity ].
  destruct (mapM (mapM f) ls) as [ rows | e ]; cbn [bind concat]; reflexivity.
Qed.

(** The loop in closed form: the per-batch outputs, appended in order. *)
Lemma predict_loop_closed (m : PhaseAutoEncoder.t) (test_loader : list Batch) :
  forall st,
  predict_loop m st test_loader =
  (rowss <- mapM (fun b => mapM (PhaseAutoEncoder.forward_row m)
                             (batch_expression b)) test_loader ;;
   Ok {| all_phase_coords := all_phase_coords st ++ map (map fst) rowss;
         all_phases :=
           all_phases st ++ map (fun rows => map coords_to_phase (map fst rows)) rowss;
         all_times := all_times st ++ collected_times test_loader;
         all_celltypes := all_celltypes st ++ collected_celltypes test_loader;
         sample_indices :=
           sample_indices st
           ++ seq (batch_start_idx st) (List.length (loader_rows test_loader));
         batch_start_idx :=
           (batch_start_idx st + List.length (loader_rows test_loader))%nat |}).
Proof.
  induction test_loader as [ | b rest IH ]; intros st.
  - cbn [predict_loop mapM bind map collected_times collected_celltypes
         flat_map loader_rows concat List.length seq].
    rewrite !app_nil_r, Nat.add_0_r. now destruct st.
  - cbn [predict_loop mapM]. unfold predict_step, PhaseAutoEncoder.forward.
    destruct (mapM (PhaseAutoEncoder.forward_row m) (batch_expression b))
      as [ rows | e ] eqn:Hrows; cbn [bind]; [ | reflexivity ].
    rewrite IH. clear IH.
    destruct (mapM _ rest) as [ rowss | e ]; cbn [bind]; [ | reflexivity ].
    f_equal.
    cbn [all_phase_coords all_phases all_times all_celltypes sample_indices
         batch_start_idx fst map].
    unfold collected_times, collected_celltypes, loader_rows.
    cbn [flat_map map concat]. rewrite length_app, seq_app.
    f_equal.
    + now rewrite <- app_assoc.
    + now rewrite <- app_assoc.
    + destruct (batch_time b); [ now rewrite <- app_assoc | reflexivity ].
    + destruct (batch_celltype b); [ now rewrite <- app_assoc | reflexivity ].
    + now rewrite <- app_assoc.
    + lia.
Qed.

Lemma mapM_map {A B C : Type} (f : B -> result C) (h : A -> B) (l : list A) :
  mapM f (map h l) = mapM (fun a => f (h a)) l.
Proof.
  induction l as [ | a l IH ]; cbn [map mapM]; [ reflexivity | ].
  now rewrite IH.
Qed.

Lemma mapM_same_length {A B : Type} (f : A -> result B) (l : list A) :
  forall bs, mapM f l = Ok bs -> List.length bs = List.length l.
Proof.
  induction l as [ | a l IH ]; cbn [mapM]; intros bs H.
  - now inversion H.
  - destruct (f a) as [ b | e ]; cbn [bind] in H; [ | discriminate ].
    destruct (mapM f l) as [ bs' | e ]; cbn [bind] in H; [ | discriminate ].
    inversion H. cbn [List.length]. now rewrite (IH bs').
Qed.

Lemma data_loader_nil (fuel batch_size : nat) (d : ExpressionDataset) :
  expressions d = [] -> data_loader_from fuel batch_size d = [].
Proof. intros H. destruct fuel; cbn [data_loader_from]; now rewrite ?H. Qed.

Lemma loader_rows_from (batch_size : nat) :
  (0 < batch_size)%nat ->
  forall fuel d, (len d <= fuel)%nat ->
  loader_rows (data_loader_from fuel batch_size d) = expressions d.
Proof.
  intros Hb. induction fuel as [ | fuel IH ]; intros d Hd; unfold len in Hd.
  - destruct (expressions d); [ reflexivity | cbn [List.length] in Hd; lia ].
  - cbn [data_loader_from].
    destruct (expressions d) as [ | x l ] eqn:He; [ reflexivity | ].
    unfold loader_rows. cbn [map concat batch_expression].
    fold (loader_rows (data_loader_from fuel batch_size
            {| expressions := skipn batch_size (x :: l);
               times := option_map (skipn batch_size) (times d);
               celltypes := option_map (skipn batch_size) (celltypes d) |})).
    rewrite IH.
    + cbn [expressions]. apply firstn_skipn.
    + unfold len. cbn [expressions]. rewrite length_skipn.
      cbn [List.length] in *. lia.
Qed.

Lemma collected_celltypes_from (batch_size : nat) :
  (0 < batch_size)%nat ->
  forall fuel d, (len d <= fuel)%nat ->
  (forall cs, celltypes d = Some cs -> List.length cs = len d) ->
  collected_celltypes (data_loader_from fuel batch_size d) =
  match celltypes d with Some cs => cs | None => [] end.
Proof.
  intros Hb. induction fuel as [ | fuel IH ]; intros d Hd Hc; unfold len in *.
  - cbn [data_loader_from collected_celltypes flat_map].
    destruct (celltypes d) as [ cs | ]; [ | reflexivity ].
    specialize (Hc cs eq_refl). destruct cs; [ reflexivity | ].
    cbn [List.length] in Hc. lia.
  - cbn [data_loader_from].
    destruct (expressions d) as [ | x l ] eqn:He.
    + cbn [collected_celltypes flat_map].
      destruct (celltypes d) as [ cs | ]; [ | reflexivity ].
      specialize (Hc cs eq_refl). destruct cs; [ reflexivity | ].
      cbn [List.length] in Hc. lia.
    + unfold collected_celltypes. cbn [flat_map batch_celltype].
      fold (collected_celltypes (data_loader_from fuel batch_size
              {| expressions := skipn batch_size (x :: l);
                 times := option_map (skipn batch_size) (times d);
                 celltypes := option_map (skipn batch_size) (celltypes d) |})).
      rewrite IH.
      * cbn [celltypes]. destruct (celltypes d) as [ cs | ]; cbn [option_map].
        -- apply firstn_skipn.
        -- reflexivity.
      * unfold len. cbn [expressions]. rewrite length_skipn.
        cbn [List.length] in *. lia.
      * unfold len. cbn [expressions celltypes]. intros cs' Hcs'.
        destruct (celltypes d) as [ cs | ]; cbn [option_map] in Hcs';
          [ | discriminate ].
        inversion Hcs'. rewrite !length_skipn. now rewrite (Hc cs eq_refl).
Qed.

Lemma collected_times_from (batch_size : nat) :
  (0 < batch_size)%nat ->
  forall fuel d, (len d <= fuel)%nat ->
  (forall ts, times d = Some ts -> List.length ts = len d) ->
  match times d with
  | Some ts =>
      concat (collected_times (data_loader_from fuel batch_size d)) = ts /\
      (expressions d <> [] ->
       collected_times (data_loader_from fuel batch_size d) <> [])
  | None => collected_times (data_loader_from fuel batch_size d) = []
  end.
Proof.
  intros Hb. induction fuel as [ | fuel IH ]; intros d Hd Hc; unfold len in *.
  - cbn [data_loader_from collected_times flat_map concat].
    destruct (times d) as [ ts | ]; [ | reflexivity ].
    specialize (Hc ts eq_refl).
    destruct (expressions d); [ | cbn [List.length] in Hd; lia ].
    split; [ | congruence ].
    destruct ts; [ reflexivity | cbn [List.length] in Hc; lia ].
  - cbn [data_loader_from].
    destruct (expressions d) as [ | x l ] eqn:He.
    + cbn [collected_times flat_map concat].
      destruct (times d) as [ ts | ]; [ | reflexivity ].
      specialize (Hc ts eq_refl). split; [ | congruence ].
      destruct ts; [ reflexivity | cbn [List.length] in Hc; lia ].
    + unfold collected_times. cbn [flat_map batch_time].
      fold (collected_times (data_loader_from fuel batch_size
              {| expressions := skipn batch_size (x :: l);
                 times := option_map (skipn batch_size) (times d);
                 celltypes := option_map (skipn batch_size) (celltypes d) |})).
      specialize (IH {| expressions := skipn batch_size (x :: l);
                        times := option_map (skipn batch_size) (times d);
                        celltypes := option_map (skipn batch_size) (celltypes d) |}).
      unfold len in IH. cbn [expressions times] in IH.
      destruct (times d) as [ ts | ]; cbn [option_map] in *.
      * destruct IH as [ IH _ ].
        -- rewrite length_skipn. cbn [List.length] in *. lia.
        -- intros ts' Hts'. inversion Hts'. rewrite !length_skipn.
           now rewrite (Hc ts eq_refl).
        -- split; [ | cbn [app]; discriminate ].
           cbn [app concat]. rewrite IH. apply firstn_skipn.
      * cbn [app]. apply IH.
        -- rewrite length_skipn. cbn [List.length] in *. lia.
        -- discriminate.
Qed.

(** Prediction over the batches of a data loader is prediction on the whole
    dataset. *)
Lemma predict_canonical (m : PhaseAutoEncoder.t) (d : ExpressionDataset)
    (batch_size : nat) (test_loader : list Batch) (period_entry : option R) :
  columns_match d ->
  DataLoader d batch_size = Some test_loader ->
  predict_and_save_phases m test_loader period_entry =
  match expressions d with
  | [] => Raise EmptyStack
  | _ :: _ =>
      out <- PhaseAutoEncoder.forward m (expressions d) ;;
      results_frame (seq 0 (len d)) (fst out) (map coords_to_phase (fst out))
        (times d) (celltypes d) period_entry
  end.
Proof.
  intros [ Ht Hc ] Hl. unfold DataLoader in Hl.
  destruct (Nat.eqb_spec batch_size 0) as [ | Hb ]; [ discriminate | ].
  injection Hl as Hloader.
  assert (Hpos : (0 < batch_size)%nat) by lia.
  pose proof (loader_rows_from batch_size Hpos (len d) d (le_n _)) as Hrows.
  pose proof (collected_celltypes_from batch_size Hpos (len d) d (le_n _) Hc)
    as Hcells.
  pose proof (collected_times_from batch_size Hpos (len d) d (le_n _) Ht)
    as Htimes.
  rewrite Hloader in Hrows, Hcells, Htimes.
  unfold predict_and_save_phases. rewrite predict_loop_closed.
  cbn [predict_init all_phase_coords all_phases all_times all_celltypes
       sample_indices batch_start_idx app Nat.add].
  assert (Hfw : mapM (PhaseAutoEncoder.forward_row m) (expressions d) =
                (rowss <- mapM (fun b => mapM (PhaseAutoEncoder.forward_row m)
                                          (batch_expression b)) test_loader ;;
                 Ok (concat rowss))).
  { rewrite <- Hrows. unfold loader_rows.
    now rewrite mapM_concat, mapM_map. }
  unfold PhaseAutoEncoder.forward. rewrite Hfw. clear Hfw.
  destruct (expressions d) as [ | x l ] eqn:He.
  - rewrite <- Hloader, (data_loader_nil (len d) batch_size d He).
    reflexivity.
  - assert (Hne : test_loader <> []).
    { rewrite <- Hloader. unfold len. rewrite He.
      cbn [List.length data_loader_from]. rewrite He. discriminate. }
    destruct (mapM _ test_loader) as [ rowss | e ] eqn:Hm; cbn [bind];
      [ | reflexivity ].
    cbn [all_phase_coords all_phases all_times all_celltypes sample_indices
         fst].
    pose proof (mapM_same_length _ _ _ Hm) as Hlen.
    destruct rowss as [ | rows rowss ];
      [ destruct test_loader; [ congruence | discriminate ] | ].
    cbn [map]. 
    change (map fst rows :: map (map fst) rowss)
      with (map (map fst) (rows :: rowss)).
    change (map coords_to_phase (map fst rows)
            :: map (fun rows0 => map coords_to_phase (map fst rows0)) rowss)
      with (map (fun rows0 => map coords_to_phase (map fst rows0))
              (rows :: rowss)).
    rewrite <- (concat_map fst (rows :: rowss)).
    rewrite <- (map_map (map fst) (map coords_to_phase) (rows :: rowss)).
    rewrite <- (concat_map coords_to_phase).
    rewrite <- (concat_map fst (rows :: rowss)).
    rewrite Hrows. unfold len. rewrite He.
    f_equal.
    + destruct (times d) as [ ts | ].
      * destruct Htimes as [ Hcat Hnn ].
        destruct (collected_times test_loader) as [ | c cs ] eqn:Hct.
        -- exfalso. apply Hnn; [ discriminate | reflexivity ].
        -- now rewrite Hcat.
      * now rewrite Htimes.
    + rewrite Hcells. destruct (celltypes d) as [ cs | ]; [ | reflexivity ].
      specialize (Hc cs eq_refl). unfold len in Hc. rewrite He in Hc.
      destruct cs; [ cbn [List.length] in Hc; lia | reflexivity ].
Qed.

Lemma results_frame_inv (indices : list nat) (phase_coords : list (R * R))
    (phases : list R) (true_times : option (list R))
    (labels : option (list string)) (period_entry : option R)
    (r : PhasePredictions) :
  results_frame indices phase_coords phases true_times labels period_entry
  = Ok r ->
  same_rows (List.length phases) true_times = true /\
  same_rows (List.length phases) labels = true /\
  r = {| Sample_Index := indices;
         Phase_X := map fst phase_coords;
         Phase_Y := map snd phase_coords;
         Predicted_Phase_Radians := phases;
         Predicted_Phase_Degrees := map (fun p => p * 180 / PI) phases;
         Predicted_Phase_Hours :=
           map (fun p => p * period_of period_entry / (2 * PI)) phases;
         True_Time_Hours := true_times;
         True_Phase_Radians :=
           option_map (map (fun t => time_to_phase t (period_of period_entry)))
             true_times;
         Phase_Error_Radians :=
           option_map
             (fun tp => map (fun pt => circular_distance (fst pt) (snd pt))
                            (combine phases tp))
             (option_map
                (map (fun t => time_to_phase t (period_of period_entry)))
                true_times);
         Phase_Error_Hours :=
           option_map
             (map (fun e => e * period_of period_entry / (2 * PI)))
             (option_map
                (fun tp => map (fun pt => circular_distance (fst pt) (snd pt))
                               (combine phases tp))
                (option_map
                   (map (fun t => time_to_phase t (period_of period_entry)))
                   true_times));
         Cell_Type := labels |}.
Proof.
  unfold results_frame.
  destruct (same_rows (List.length phases) true_times); cbn [andb];
    [ | discriminate ].
  destruct (same_rows (List.length phases) labels); [ | discriminate ].
  intros H. inversion H. repeat split.
Qed.

(** Whatever the batches are, a returned frame is the frame of the
    concatenated coordinates. *)
Lemma predict_inv (m : PhaseAutoEncoder.t) (test_loader : list Batch)
    (period_entry : option R) (r : PhasePredictions) :
  predict_and_save_phases m test_loader period_entry = Ok r ->
  exists phase_coords true_times labels,
    List.length phase_coords = List.length (loader_rows test_loader) /\
    results_frame (seq 0 (List.length (loader_rows test_loader))) phase_coords
      (map coords_to_phase phase_coords) true_times labels period_entry = Ok r.
Proof.
  unfold predict_and_save_phases. rewrite predict_loop_closed.
  cbn [predict_init all_phase_coords all_phases all_times all_celltypes
       sample_indices batch_start_idx app Nat.add].
  destruct (mapM _ test_loader) as [ rowss | e ] eqn:Hm; cbn [bind];
    [ | discriminate ].
  cbn [all_phase_coords all_phases all_times all_celltypes sample_indices].
  destruct (map (map fst) rowss) eqn:Hmap; [ discriminate | ].
  rewrite <- Hmap. clear Hmap. intros H.
  exists (concat (map (map fst) rowss)).
  eexists. eexists. split.
  - rewrite <- concat_map, length_map.
    assert (Hc : mapM (PhaseAutoEncoder.forward_row m) (loader_rows test_loader)
                 = Ok (concat rowss)).
    { unfold loader_rows. rewrite mapM_concat, mapM_map, Hm. reflexivity. }
    apply (mapM_same_length _ _ _ Hc).
  - rewrite <- H. f_equal.
    rewrite <- (map_map (map fst) (map coords_to_phase) rowss).
    now rewrite <- (concat_map coords_to_phase).
Qed.

Lemma scaled_turn_range (k p : R) :
  0 < k -> 0 <= p < 2 * PI -> 0 <= p * k / (2 * PI) < k.
Proof.
  intros Hk [ Hp0 Hp1 ]. pose proof PI_RGT_0 as Hpi.
  set (t := p / (2 * PI)).
  assert (Ht : p = t * (2 * PI)) by (unfold t; field; lra).
  assert (Hs : p * k / (2 * PI) = t * k) by (unfold t; field; lra).
  rewrite Hs.
  assert (Ht0 : 0 <= t).
  { unfold t, Rdiv. apply Rmult_le_pos; [ exact Hp0 | ].
    left. apply Rinv_0_lt_compat. lra. }
  assert (Ht1 : t < 1).
  { apply (Rmult_lt_reg_r (2 * PI)); lra. }
  split; nra.
Qed.

Lemma scaled_half_turn_range (k e : R) :
  0 < k -> 0 <= e <= PI -> 0 <= e * k / (2 * PI) <= k / 2.
Proof.
  intros Hk [ He0 He1 ]. pose proof PI_RGT_0 as Hpi.
  set (t := e / (2 * PI)).
  assert (Ht : e = t * (2 * PI)) by (unfold t; field; lra).
  assert (Hs : e * k / (2 * PI) = t * k) by (unfold t; field; lra).
  rewrite Hs.
  assert (Ht0 : 0 <= t).
  { unfold t, Rdiv. apply Rmult_le_pos; [ exact He0 | ].
    left. apply Rinv_0_lt_compat. lra. }
  assert (Ht1 : t <= / 2).
  { apply (Rmult_le_reg_r (2 * PI)); lra. }
  split; nra.
Qed.

(** Prediction on the batches of a well-formed, non-empty dataset of the
    model's width. *)
Lemma predict_succeeds (m : PhaseAutoEncoder.t) (d : ExpressionDataset)
    (batch_size : nat) (test_loader : list Batch) (period_entry : option R) :
  columns_match d ->
  expressions d <> [] ->
  Forall (fun row => List.length row = PhaseAutoEncoder.input_dim m)
    (expressions d) ->
  DataLoader d batch_size = Some test_loader ->
  exists phase_coords reconstructed r,
    PhaseAutoEncoder.forward m (expressions d)
    = Ok (phase_coords, reconstructed) /\
    predict_and_save_phases m test_loader period_entry = Ok r /\
    Sample_Index r = seq 0 (len d) /\
    Phase_X r = map fst phase_coords /\
    Phase_Y r = map snd phase_coords /\
    Predicted_Phase_Radians r = map coords_to_phase phase_coords /\
    True_Time_Hours r = times d /\
    Cell_Type r = celltypes d.
Proof.
  intros Hcm Hne Hw Hl.
  rewrite (predict_canonical m d batch_size test_loader period_entry Hcm Hl).
  destruct (forward_ok m (expressions d) Hw) as (pcs & recs & Hf & Hlp & _).
  exists pcs, recs. rewrite Hf.
  destruct (expressions d) as [ | x l ] eqn:He; [ congruence | ].
  cbn [bind fst]. unfold results_frame.
  destruct Hcm as [ Ht Hc ]. unfold len in Ht, Hc. rewrite He in Ht, Hc.
  assert (H1 : same_rows (List.length (map coords_to_phase pcs)) (times d)
               = true).
  { unfold same_rows. destruct (times d) as [ ts | ]; [ | reflexivity ].
    apply Nat.eqb_eq. rewrite length_map, Hlp. now apply Ht. }
  assert (H2 : same_rows (List.length (map coords_to_phase pcs)) (celltypes d)
               = true).
  { unfold same_rows. destruct (celltypes d) as [ cs | ]; [ | reflexivity ].
    apply Nat.eqb_eq. rewrite length_map, Hlp. now apply Hc. }
  rewrite H1, H2. cbn [andb].
  eexists. split; [ reflexivity | ]. split; [ reflexivity | ].
  cbn [Sample_Index Phase_X Phase_Y Predicted_Phase_Radians True_Time_Hours
       Cell_Type].
  repeat split.
Qed.

(** X19.  The frame returned by [predict_and_save_phases] does not depend on
    the batch size of the data loader: two loaders over the same dataset give
    the same result, the same error included. *)
Theorem predictions_independent_of_batch_size (m : PhaseAutoEncoder.t)
    (d : ExpressionDataset) (size1 size2 : nat) (loader1 loader2 : list Batch)
    (period_entry : option R) :
  columns_match d ->
  DataLoader d size1 = Some loader1 ->
  DataLoader d size2 = Some loader2 ->
  predict_and_save_phases m loader1 period_entry
  = predict_and_save_phases m loader2 period_entry.
Proof.
  intros Hcm H1 H2.
  rewrite (predict_canonical m d size1 loader1 period_entry Hcm H1).
  now rewrite (predict_canonical m d size2 loader2 period_entry Hcm H2).
Qed.

Lemma timed_padded_columns_match : columns_match timed_padded_dataset.
Proof.
  split; intros l H; inversion H; reflexivity.
Qed.

Lemma timed_padded_width :
  Forall (fun row => List.length row = 1%nat) (expressions timed_padded_dataset).
Proof. repeat constructor. Qed.

Lemma predictions_independent_of_batch_size_witness :
  predict_and_save_phases (model_of 1 (east_phase_weights 0))
    (data_loader_from 6 4 timed_padded_dataset) (Some 24)
  = predict_and_save_phases (model_of 1 (east_phase_weights 0))
      (data_loader_from 6 1000 timed_padded_dataset) (Some 24).
Proof.
  apply (predictions_independent_of_batch_size _ timed_padded_dataset 4 1000).
  - exact timed_padded_columns_match.
  - reflexivity.
  - reflexivity.
Defined.

(** X20.  On the batches of a non-empty dataset whose rows have the model's
    width, [predict_and_save_phases] returns a frame: sample indices
    0 .. N-1 in dataset order, the coordinates and phases of the model's
    forward pass on the whole expression matrix, and the dataset's time and
    celltype columns. *)
Theorem predict_on_dataset (m : PhaseAutoEncoder.t) (d : ExpressionDataset)
    (batch_size : nat) (test_loader : list Batch) (period_entry : option R) :
  columns_match d ->
  expressions d <> [] ->
  Forall (fun row => List.length row = PhaseAutoEncoder.input_dim m)
    (expressions d) ->
  DataLoader d batch_size = Some test_loader ->
  exists phase_coords reconstructed r,
    PhaseAutoEncoder.forward m (expressions d)
    = Ok (phase_coords, reconstructed) /\
    predict_and_save_phases m test_loader period_entry = Ok r /\
    Sample_Index r = seq 0 (len d) /\
    Phase_X r = map fst phase_coords /\
    Phase_Y r = map snd phase_coords /\
    Predicted_Phase_Radians r = map coords_to_phase phase_coords /\
    True_Time_Hours r = times d /\
    Cell_Type r = celltypes d.
Proof. apply predict_succeeds. Qed.

Lemma predict_on_dataset_witness :
  exists phase_coords reconstructed r,
    PhaseAutoEncoder.forward (model_of 1 (east_phase_weights 0))
      (expressions timed_padded_dataset)
    = Ok (phase_coords, reconstructed) /\
    predict_and_save_phases (model_of 1 (east_phase_weights 0))
      (data_loader_from 6 4 timed_padded_dataset) (Some 24) = Ok r /\
    Sample_Index r = seq 0 (len timed_padded_dataset) /\
    Phase_X r = map fst phase_coords /\
    Phase_Y r = map snd phase_coords /\
    Predicted_Phase_Radians r = map coords_to_phase phase_coords /\
    True_Time_Hours r = times timed_padded_dataset /\
    Cell_Type r = celltypes timed_padded_dataset.
Proof.
  apply (predict_on_dataset _ timed_padded_dataset 4).
  - exact timed_padded_columns_match.
  - discriminate.
  - exact timed_padded_width.
  - reflexivity.
Defined.

(** X21.  Every column of a returned frame has one entry per sample of the
    loader, and the sample indices count them from 0 in loading order. *)
Theorem prediction_columns_cover_every_sample (m : PhaseAutoEncoder.t)
    (test_loader : list Batch) (period_entry : option R)
    (r : PhasePredictions) :
  predict_and_save_phases m test_loader period_entry = Ok r ->
  let n := List.length (loader_rows test_loader) in
  Sample_Index r = seq 0 n /\
  List.length (Phase_X r) = n /\
  List.length (Phase_Y r) = n /\
  List.length (Predicted_Phase_Radians r) = n /\
  List.length (Predicted_Phase_Degrees r) = n /\
  List.length (Predicted_Phase_Hours r) = n /\
  (forall l, True_Time_Hours r = Some l -> List.length l = n) /\
  (forall l, True_Phase_Radians r = Some l -> List.length l = n) /\
  (forall l, Phase_Error_Radians r = Some l -> List.length l = n) /\
  (forall l, Phase_Error_Hours r = Some l -> List.length l = n) /\
  (forall l, Cell_Type r = Some l -> List.length l = n).
Proof.
  intros H n.
  destruct (predict_inv _ _ _ _ H) as (pcs & tt & ll & Hlen & Hf).
  destruct (results_frame_inv _ _ _ _ _ _ _ Hf) as (Ht & Hl & Hr).
  fold n in Hlen. rewrite length_map, Hlen in Ht, Hl.
  rewrite Hr.
  cbn [Sample_Index Phase_X Phase_Y Predicted_Phase_Radians
       Predicted_Phase_Degrees Predicted_Phase_Hours True_Time_Hours
       True_Phase_Radians Phase_Error_Radians Phase_Error_Hours Cell_Type].
  rewrite !length_map. fold n.
  assert (Htt : forall l, tt = Some l -> List.length l = n).
  { intros l ->. cbn [same_rows] in Ht. now apply Nat.eqb_eq. }
  repeat split; try assumption.
  - intros l Hs. destruct tt as [ ts | ]; cbn [option_map] in Hs;
      [ | discriminate ].
    inversion Hs. rewrite length_map. now apply Htt.
  - intros l Hs. destruct tt as [ ts | ]; cbn [option_map] in Hs;
      [ | discriminate ].
    inversion Hs. rewrite length_map, length_combine, !length_map, Hlen.
    rewrite (Htt ts eq_refl). apply Nat.min_id.
  - intros l Hs. destruct tt as [ ts | ]; cbn [option_map] in Hs;
      [ | discriminate ].
    inversion Hs. rewrite !length_map, length_combine, !length_map, Hlen.
    rewrite (Htt ts eq_refl). apply Nat.min_id.
  - intros l ->. cbn [same_rows] in Hl. now apply Nat.eqb_eq.
Qed.

Lemma prediction_columns_cover_every_sample_witness :
  exists r,
    predict_and_save_phases (model_of 1 (east_phase_weights 0))
      (data_loader_from 6 4 timed_padded_dataset) (Some 24) = Ok r /\
    Sample_Index r = [0; 1; 2; 3; 4; 5]%nat /\
    List.length (Predicted_Phase_Hours r) = 6%nat.
Proof.
  destruct (predict_succeeds (model_of 1 (east_phase_weights 0))
              timed_padded_dataset 4
              (data_loader_from 6 4 timed_padded_dataset) (Some 24)
              timed_padded_columns_match ltac:(discriminate)
              timed_padded_width eq_refl)
    as (pcs & recs & r & _ & Hr & _).
  exists r. split; [ exact Hr | ].
  pose proof (prediction_columns_cover_every_sample _ _ _ _ Hr) as H.
  cbv zeta in H. destruct H as (H1 & _ & _ & _ & _ & H6 & _).
  split; [ exact H1 | exact H6 ].
Defined.

(** X22.  In a returned frame every predicted phase lies in [0, 2*PI)
    radians, [0, 360) degrees and, for a positive period, in
    [0, period) hours. *)
Theorem predicted_phase_ranges (m : PhaseAutoEncoder.t)
    (test_loader : list Batch) (period_entry : option R)
    (r : PhasePredictions) :
  predict_and_save_phases m test_loader period_entry = Ok r ->
  0 < period_of period_entry ->
  Forall (fun p => 0 <= p < 2 * PI) (Predicted_Phase_Radians r) /\
  Forall (fun g => 0 <= g < 360) (Predicted_Phase_Degrees r) /\
  Forall (fun h => 0 <= h < period_of period_entry) (Predicted_Phase_Hours r).
Proof.
  intros H Hp.
  destruct (predict_inv _ _ _ _ H) as (pcs & tt & ll & _ & Hf).
  destruct (results_frame_inv _ _ _ _ _ _ _ Hf) as (_ & _ & Hr).
  rewrite Hr.
  cbn [Predicted_Phase_Radians Predicted_Phase_Degrees Predicted_Phase_Hours].
  pose proof PI_RGT_0 as Hpi.
  repeat split; rewrite Forall_forall; intros x Hx.
  - apply in_map_iff in Hx. destruct Hx as (c & <- & _).
    apply coords_to_phase_lower_upper.
  - apply in_map_iff in Hx. destruct Hx as (p & <- & Hx).
    apply in_map_iff in Hx. destruct Hx as (c & <- & _).
    replace (coords_to_phase c * 180 / PI)
      with (coords_to_phase c * 360 / (2 * PI)) by (field; lra).
    apply scaled_turn_range; [ lra | apply coords_to_phase_lower_upper ].
  - apply in_map_iff in Hx. destruct Hx as (p & <- & Hx).
    apply in_map_iff in Hx. destruct Hx as (c & <- & _).
    apply scaled_turn_range; [ exact Hp | apply coords_to_phase_lower_upper ].
Qed.

Lemma predicted_phase_ranges_witness :
  exists r,
    predict_and_save_phases (model_of 1 (east_phase_weights 0))
      (data_loader_from 6 4 timed_padded_dataset) (Some 24) = Ok r /\
    Forall (fun h => 0 <= h < 24) (Predicted_Phase_Hours r).
Proof.
  destruct (predict_succeeds (model_of 1 (east_phase_weights 0))
              timed_padded_dataset 4
              (data_loader_from 6 4 timed_padded_dataset) (Some 24)
              timed_padded_columns_match ltac:(discriminate)
              timed_padded_width eq_refl)
    as (pcs & recs & r & _ & Hr & _).
  exists r. split; [ exact Hr | ].
  apply (predicted_phase_ranges _ _ (Some 24) r Hr).
  cbn [period_of]. lra.
Defined.

(** X23.  When the true times of a returned frame lie within one period
    (0 <= t <= period), every entry of [Phase_Error_Hours] lies between 0 and
    half the period, and there is one entry per true time. *)
Theorem phase_error_hours_bounds (m : PhaseAutoEncoder.t)
    (test_loader : list Batch) (period_entry : option R)
    (r : PhasePredictions) (true_times : list R) :
  predict_and_save_phases m test_loader period_entry = Ok r ->
  0 < period_of period_entry ->
  True_Time_Hours r = Some true_times ->
  Forall (fun t => 0 <= t <= period_of period_entry) true_times ->
  exists errors,
    Phase_Error_Hours r = Some errors /\
    List.length errors = List.length true_times /\
    Forall (fun e => 0 <= e <= period_of period_entry / 2) errors.
Proof.
  intros H Hp Ht Hrange.
  destruct (predict_inv _ _ _ _ H) as (pcs & tt & ll & _ & Hf).
  destruct (results_frame_inv _ _ _ _ _ _ _ Hf) as (Hsame & _ & Hr).
  rewrite Hr in Ht |- *. cbn [True_Time_Hours] in Ht. subst tt.
  cbn [Phase_Error_Hours option_map same_rows] in *.
  apply Nat.eqb_eq in Hsame.
  eexists. split; [ reflexivity | ].
  pose proof PI_RGT_0 as Hpi.
  split.
  - rewrite !length_map, length_combine, <- Hsame, length_map.
    apply Nat.min_id.
  - rewrite Forall_forall. intros x Hx.
    apply in_map_iff in Hx. destruct Hx as (e & <- & He).
    apply in_map_iff in He. destruct He as ([ p tp ] & <- & Hpt).
    cbn [fst snd].
    apply scaled_half_turn_range; [ exact Hp | ].
    apply circular_distance_range.
    pose proof (in_combine_l _ _ _ _ Hpt) as Hin1.
    pose proof (in_combine_r _ _ _ _ Hpt) as Hin2.
    apply in_map_iff in Hin1. destruct Hin1 as (c & <- & _).
    apply in_map_iff in Hin2. destruct Hin2 as (t & <- & Hin2).
    rewrite Forall_forall in Hrange. specialize (Hrange t Hin2).
    pose proof (coords_to_phase_lower_upper c) as Hc.
    assert (Htp : 0 <= time_to_phase t (period_of period_entry) <= 2 * PI).
    { unfold time_to_phase.
      set (k := period_of period_entry) in *.
      set (s := t / k).
      assert (Hs : 2 * PI * t / k = 2 * PI * s) by (unfold s; field; lra).
      rewrite Hs.
      assert (Hs0 : 0 <= s).
      { unfold s, Rdiv. apply Rmult_le_pos; [ lra | ].
        left. apply Rinv_0_lt_compat. lra. }
      assert (Hs1 : s <= 1).
      { apply (Rmult_le_reg_r k); [ lra | ].
        replace (s * k) with t by (unfold s; field; lra). lra. }
      split; nra. }
    unfold Rabs. destruct (Rcase_abs _); lra.
Qed.

Lemma phase_error_hours_bounds_witness :
  exists r errors,
    predict_and_save_phases (model_of 1 (east_phase_weights 0))
      (data_loader_from 6 4 timed_padded_dataset) (Some 24) = Ok r /\
    Phase_Error_Hours r = Some errors /\
    List.length errors = 6%nat /\
    Forall (fun e => 0 <= e <= 24 / 2) errors.
Proof.
  destruct (predict_succeeds (model_of 1 (east_phase_weights 0))
              timed_padded_dataset 4
              (data_loader_from 6 4 timed_padded_dataset) (Some 24)
              timed_padded_columns_match ltac:(discriminate)
              timed_padded_width eq_refl)
    as (pcs & recs & r & _ & Hr & _ & _ & _ & _ & Ht & _).
  destruct (phase_error_hours_bounds _ _ (Some 24) r [0; 4; 8; 12; 16; 0] Hr)
    as (errors & He & Hlen & Hb).
  - cbn [period_of]. lra.
  - exact Ht.
  - cbn [period_of]. repeat constructor; lra.
  - exists r, errors. split; [ exact Hr | ].
    split; [ exact He | ]. split; [ exact Hlen | exact Hb ].
Defined.

(** X24.  [predict_and_save_phases] fails on the batches of an empty dataset
    (nothing to stack) and on a dataset with a row whose width is not the
    model's input width (shape error). *)
Theorem predict_failure_modes (m : PhaseAutoEncoder.t) (d : ExpressionDataset)
    (batch_size : nat) (test_loader : list Batch) (period_entry : option R) :
  columns_match d ->
  DataLoader d batch_size = Some test_loader ->
  (expressions d = [] ->
   predict_and_save_phases m test_loader period_entry = Raise EmptyStack) /\
  (Exists (fun row => List.length row <> PhaseAutoEncoder.input_dim m)
     (expressions d) ->
   predict_and_save_phases m test_loader period_entry = Raise ShapeError).
Proof.
  intros Hcm Hl.
  rewrite (predict_canonical m d batch_size test_loader period_entry Hcm Hl).
  split.
  - now intros ->.
  - intros Hex. rewrite (forward_raise m (expressions d) Hex).
    destruct (expressions d); [ inversion Hex | reflexivity ].
Qed.

Lemma predict_failure_modes_witness :
  predict_and_save_phases (model_of 2 (east_phase_weights 0))
    (data_loader_from 6 4 timed_padded_dataset) None = Raise ShapeError.
Proof.
  apply (predict_failure_modes (model_of 2 (east_phase_weights 0))
           timed_padded_dataset 4 _ None timed_padded_columns_match eq_refl).
  apply Exists_cons_hd. cbn. discriminate.
Defined.

(** ** Plots of the test stage *)

Lemma plot_loop_closed (m : PhaseAutoEncoder.t) (period_entry : option R)
    (test_loader : list Batch) :
  forall acc,
  plot_loop m period_entry acc test_loader =
  (rowss <- mapM (fun b => mapM (PhaseAutoEncoder.forward_row m)
                             (batch_expression b)) test_loader ;;
   Ok (fst acc
       ++ map (fun rows =>
                 map (fun p => p * period_of period_entry / (2 * PI))
                   (map coords_to_phase (map fst rows))) rowss,
       snd acc ++ collected_celltypes test_loader)).
Proof.
  induction test_loader as [ | b rest IH ]; intros acc.
  - cbn [plot_loop mapM bind map collected_celltypes flat_map].
    rewrite !app_nil_r. now destruct acc.
  - cbn [plot_loop mapM]. unfold plot_step, PhaseAutoEncoder.forward.
    destruct (mapM (PhaseAutoEncoder.forward_row m) (batch_expression b))
      as [ rows | e ]; cbn [bind]; [ | reflexivity ].
    rewrite IH. clear IH.
    destruct (mapM _ rest) as [ rowss | e ]; cbn [bind]; [ | reflexivity ].
    cbn [fst snd map]. unfold collected_celltypes. cbn [flat_map].
    f_equal. f_equal.
    + now rewrite <- app_assoc.
    + destruct (batch_celltype b); [ now rewrite <- app_assoc | reflexivity ].
Qed.

(** After a successful prediction, the plotting function works on the saved
    hour column and on the saved celltype column. *)
Lemma plot_after_predict (m : PhaseAutoEncoder.t) (test_loader : list Batch)
    (period_entry : option R) (r : PhasePredictions)
    (custom : option (list (list R) * list string)) :
  predict_and_save_phases m test_loader period_entry = Ok r ->
  plot_gene_expression_with_custom_data m test_loader period_entry custom =
  match custom with
  | None => ([], Some AttributeError)
  | Some (custom_gene_expressions, custom_gene_names) =>
      match Cell_Type r with
      | None =>
          ([plot_celltype_gene_expression_raw custom_gene_expressions
              (Predicted_Phase_Hours r) custom_gene_names "All_Samples"],
           gene_plot_outcome custom_gene_expressions (Predicted_Phase_Hours r)
             custom_gene_names)
      | Some labels =>
          labelled_plots custom_gene_expressions (Predicted_Phase_Hours r)
            labels custom_gene_names
      end
  end.
Proof.
  unfold predict_and_save_phases, plot_gene_expression_with_custom_data.
  rewrite predict_loop_closed, plot_loop_closed.
  cbn [predict_init all_phase_coords all_phases all_times all_celltypes
       sample_indices batch_start_idx app Nat.add fst snd].
  destruct (mapM _ test_loader) as [ rowss | e ]; cbn [bind];
    [ | discriminate ].
  cbn [all_phase_coords all_phases all_times all_celltypes sample_indices].
  destruct rowss as [ | rows rowss ]; cbn [map]; [ discriminate | ].
  intros H. apply results_frame_inv in H. destruct H as (_ & _ & ->).
  cbn [Predicted_Phase_Hours Cell_Type].
  change (map (fun p : R => p * period_of period_entry / (2 * PI))
            (map coords_to_phase (map fst rows))
          :: map (fun rows0 =>
                    map (fun p : R => p * period_of period_entry / (2 * PI))
                      (map coords_to_phase (map fst rows0))) rowss)
    with (map (fun rows0 =>
                 map (fun p : R => p * period_of period_entry / (2 * PI))
                   (map coords_to_phase (map fst rows0))) (rows :: rowss)).
  change (map coords_to_phase (map fst rows)
          :: map (fun rows0 => map coords_to_phase (map fst rows0)) rowss)
    with (map (fun rows0 => map coords_to_phase (map fst rows0))
            (rows :: rowss)).
  rewrite <- (map_map (fun rows0 => map coords_to_phase (map fst rows0))
                (map (fun p : R => p * period_of period_entry / (2 * PI)))
                (rows :: rowss)).
  rewrite <- (concat_map (fun p : R => p * period_of period_entry / (2 * PI))).
  destruct custom as [ [ ce cn ] | ]; [ | reflexivity ].
  destruct (collected_celltypes test_loader); reflexivity.
Qed.

Lemma no_custom_gene_found (custom_genes test_gene_names : list string)
    (test_expression_scaled : list (list R)) :
  Forall (fun g => ~ In g test_gene_names) custom_genes ->
  get_original_gene_expressions custom_genes test_gene_names
    test_expression_scaled = None.
Proof.
  intros Hall. unfold get_original_gene_expressions.
  rewrite collect_fold. cbn [app].
  assert (Hk : filter (gene_present test_gene_names) custom_genes = []).
  { induction Hall as [ | g gs Hg _ IH ]; cbn [filter]; [ reflexivity | ].
    unfold gene_present at 1.
    apply first_index_None in Hg. now rewrite Hg. }
  now rewrite Hk.
Qed.

Lemma saved_hours_length (m : PhaseAutoEncoder.t) (test_loader : list Batch)
    (period_entry : option R) (r : PhasePredictions) (labels : list string) :
  predict_and_save_phases m test_loader period_entry = Ok r ->
  Cell_Type r = Some labels ->
  List.length labels = List.length (Predicted_Phase_Hours r).
Proof.
  intros H Hl.
  destruct (predict_inv _ _ _ _ H) as (pcs & tt & ll & _ & Hf).
  destruct (results_frame_inv _ _ _ _ _ _ _ Hf) as (_ & Hsame & Hr).
  rewrite Hr in Hl |- *. cbn [Cell_Type Predicted_Phase_Hours] in *.
  subst ll. cbn [same_rows] in Hsame. apply Nat.eqb_eq in Hsame.
  now rewrite length_map.
Qed.

(** The grid has a panel for every gene. *)
Lemma grid_has_room (width n_panels n_rows n_cols : nat) :
  subplot_grid width n_panels = Some (n_rows, n_cols) ->
  (n_panels <= n_rows * n_cols)%nat.
Proof.
  unfold subplot_grid.
  set (c := Nat.min width n_panels).
  destruct (Nat.eqb_spec c 0) as [ | Hc ]; [ discriminate | ].
  intros [= <- <-].
  pose proof (Nat.div_mod_eq (n_panels + c - 1) c) as Hdm.
  pose proof (Nat.mod_upper_bound (n_panels + c - 1) c Hc) as Hm.
  set (q := ((n_panels + c - 1) / c)%nat) in *.
  set (t := ((n_panels + c - 1) mod c)%nat) in *.
  nia.
Qed.

Lemma subplot_grid_some (width n_panels : nat) :
  (0 < width)%nat -> (0 < n_panels)%nat ->
  exists n_rows n_cols, subplot_grid width n_panels = Some (n_rows, n_cols).
Proof.
  intros Hw Hn. unfold subplot_grid.
  destruct (Nat.eqb_spec (Nat.min width n_panels) 0) as [ | _ ]; [ lia | ].
  eexists _, _. reflexivity.
Qed.

Lemma n_columns_bound (rows : list (list R)) (k : nat) :
  rows <> [] -> Forall (fun row => (k <= List.length row)%nat) rows ->
  (k <= n_columns rows)%nat.
Proof.
  intros Hne Hall. destruct rows as [ | row rest ]; [ contradiction | ].
  now inversion Hall.
Qed.

Lemma gene_panels_complete (n_axes : nat) (rows : list (list R))
    (phase_hours : list R) :
  List.length phase_hours = List.length rows ->
  forall gene_names i,
    (i + List.length gene_names <= n_axes)%nat ->
    (i + List.length gene_names <= n_columns rows)%nat ->
    gene_panels n_axes rows phase_hours i gene_names = None.
Proof.
  intros Hlen. induction gene_names as [ | g rest IH ]; intros i Ha Hc;
    cbn [gene_panels List.length] in *; [ reflexivity | ].
  destruct (Nat.leb_spec n_axes i); [ lia | ].
  destruct (Nat.leb_spec (n_columns rows) i); [ lia | ].
  rewrite Hlen, Nat.eqb_refl.
  destruct (Nat.eqb (List.length rows) 0); apply IH; lia.
Qed.

Lemma gene_plot_completes (rows : list (list R)) (phase_hours : list R)
    (gene_names : list string) :
  gene_names <> [] -> rows <> [] ->
  Forall (fun row => (List.length gene_names <= List.length row)%nat) rows ->
  List.length phase_hours = List.length rows ->
  gene_plot_outcome rows phase_hours gene_names = None.
Proof.
  intros Hn Hr Hw Hlen. unfold gene_plot_outcome.
  destruct (subplot_grid_some 5 (List.length gene_names)) as (nr & nc & Hg).
  - lia.
  - destruct gene_names; [ contradiction | cbn [List.length]; lia ].
  - rewrite Hg. apply gene_panels_complete; [ exact Hlen | | ].
    + cbn [Nat.add]. now apply (grid_has_room 5).
    + cbn [Nat.add]. now apply n_columns_bound.
Qed.

Lemma gene_plot_without_names (rows : list (list R)) (phase_hours : list R) :
  gene_plot_outcome rows phase_hours [] = Some ZeroDivisionError.
Proof. reflexivity. Qed.

Lemma comparison_groups_complete (rows : list (list R)) (phase_hours : list R)
    (labels : list string) (i : nat) :
  List.length labels = List.length rows ->
  List.length labels = List.length phase_hours ->
  (i < n_columns rows)%nat ->
  forall valid_celltypes,
    comparison_groups rows phase_hours labels i valid_celltypes = None.
Proof.
  intros Hr Hh Hi. induction valid_celltypes as [ | ct rest IH ];
    cbn [comparison_groups]; [ reflexivity | ].
  unfold mask_index. rewrite !length_map.
  rewrite <- Hr, Nat.eqb_refl. cbn [negb orb].
  destruct (Nat.leb_spec (n_columns rows) i); [ lia | ].
  rewrite Hh, Nat.eqb_refl. exact IH.
Qed.

Lemma comparison_panels_complete (n_axes : nat) (rows : list (list R))
    (phase_hours : list R) (labels valid_celltypes : list string) :
  List.length labels = List.length rows ->
  List.length labels = List.length phase_hours ->
  forall top_genes i,
    (i + List.length top_genes <= n_columns rows)%nat ->
    comparison_panels n_axes rows phase_hours labels valid_celltypes i top_genes
    = None.
Proof.
  intros Hr Hh. induction top_genes as [ | g rest IH ]; intros i Hc;
    cbn [comparison_panels List.length] in *; [ reflexivity | ].
  destruct (Nat.leb n_axes i); [ reflexivity | ].
  rewrite comparison_groups_complete by (assumption || lia).
  apply IH. lia.
Qed.

Lemma comparison_plot_completes (rows : list (list R)) (phase_hours : list R)
    (labels gene_names valid_celltypes : list string) :
  gene_names <> [] -> rows <> [] ->
  Forall (fun row => (List.length gene_names <= List.length row)%nat) rows ->
  List.length labels = List.length rows ->
  List.length labels = List.length phase_hours ->
  comparison_plot_outcome rows phase_hours labels gene_names valid_celltypes
  = None.
Proof.
  intros Hn Hne Hw Hr Hh. unfold comparison_plot_outcome.
  assert (Hpos : (0 < List.length gene_names)%nat)
    by (destruct gene_names; [ contradiction | cbn [List.length]; lia ]).
  destruct (subplot_grid_some 2 (Nat.min 4 (List.length gene_names)))
    as (nr & nc & Hg); [ lia | lia | ].
  rewrite Hg. apply comparison_panels_complete; [ exact Hr | exact Hh | ].
  cbn [Nat.add]. rewrite length_firstn.
  pose proof (n_columns_bound rows _ Hne Hw). lia.
Qed.

Lemma mask_select_forall {A : Type} (P : A -> Prop) (mask : list bool)
    (xs : list A) :
  Forall P xs -> Forall P (mask_select mask xs).
Proof.
  intros H. unfold mask_select. rewrite Forall_forall in *.
  intros x Hx. apply in_map_iff in Hx as ([ b y ] & <- & Hin).
  apply filter_In in Hin as [ Hin _ ]. apply in_combine_r in Hin.
  now apply H.
Qed.

Lemma celltype_plots_ok (rows : list (list R)) (hours : list R)
    (labels names : list string) :
  List.length labels = List.length rows ->
  List.length labels = List.length hours ->
  names <> [] ->
  Forall (fun row => (List.length names <= List.length row)%nat) rows ->
  forall unique,
  exists calls,
    celltype_plots rows hours labels names unique = (calls, None) /\
    (forall e p l g v, ~ In (plot_celltype_comparison_raw e p l g v) calls) /\
    (forall e p g ct,
        In (plot_celltype_gene_expression_raw e p g ct) calls <->
        In ct unique /\ ct <> PADDING /\
        (5 <= group_size labels ct)%nat /\
        e = mask_select (group_mask labels ct) rows /\
        p = mask_select (group_mask labels ct) hours /\
        g = names).
Proof.
  intros Hr Hh Hn Hw. induction unique as [ | ct rest (calls & IH & Hno & Hin) ].
  - exists []. cbn [celltype_plots In]. split; [ reflexivity | ].
    split; [ tauto | ]. intros. tauto.
  - cbn [celltype_plots].
    destruct (String.eqb_spec ct PADDING) as [ -> | Hpad ].
    + exists calls. split; [ exact IH | ]. split; [ exact Hno | ].
      intros e p g c. rewrite Hin. cbn [In].
      split; [ tauto | ].
      intros ([ <- | Hc ] & Hne & Hrest); [ congruence | tauto ].
    + change (map (fun c => String.eqb c ct) labels) with (group_mask labels ct).
      assert (E1 : mask_index (group_mask labels ct) rows
                   = inr (mask_select (group_mask labels ct) rows)).
      { unfold mask_index, group_mask.
        now rewrite length_map, Hr, Nat.eqb_refl. }
      assert (E2 : mask_index (group_mask labels ct) hours
                   = inr (mask_select (group_mask labels ct) hours)).
      { unfold mask_index, group_mask.
        now rewrite length_map, Hh, Nat.eqb_refl. }
      rewrite E1, E2, IH.
      assert (Hlen : List.length (mask_select (group_mask labels ct) rows)
                     = group_size labels ct).
      { unfold group_size. apply mask_select_length.
        unfold group_mask. now rewrite length_map. }
      assert (Hlen' : List.length (mask_select (group_mask labels ct) hours)
                      = group_size labels ct).
      { unfold group_size. apply mask_select_length.
        unfold group_mask. now rewrite length_map. }
      rewrite Hlen.
      destruct (Nat.ltb_spec (group_size labels ct) 5) as [ Hsmall | Hbig ].
      * exists calls. split; [ reflexivity | ]. split; [ exact Hno | ].
        intros e p g c. rewrite Hin. cbn [In].
        split; [ tauto | ].
        intros ([ <- | Hc ] & Hne & Hge & Hrest); [ lia | tauto ].
      * rewrite gene_plot_completes.
        -- cbn [fst snd]. eexists. split; [ reflexivity | ]. split.
           ++ intros e p l g v [ Habs | Habs ]; [ discriminate | ].
              now apply (Hno e p l g v).
           ++ intros e p g c. cbn [In]. rewrite Hin. split.
              ** intros [ Heq | Hc ]; [ | tauto ].
                 inversion Heq; subst. tauto.
              ** intros ([ <- | Hc ] & Hne & Hge & -> & -> & ->);
                   [ now left | right; tauto ].
        -- exact Hn.
        -- intros Hnil. rewrite Hnil in Hlen. cbn [List.length] in Hlen. lia.
        -- now apply mask_select_forall.
        -- now rewrite Hlen, Hlen'.
Qed.

Lemma celltype_plots_without_names (rows : list (list R)) (hours : list R)
    (labels : list string) :
  List.length labels = List.length rows ->
  List.length labels = List.length hours ->
  forall unique,
    (exists ct, In ct unique /\ ct <> PADDING /\
                (5 <= group_size labels ct)%nat) ->
    snd (celltype_plots rows hours labels [] unique) = Some ZeroDivisionError.
Proof.
  intros Hr Hh. induction unique as [ | ct rest IH ];
    intros (ct' & Hin & Hne & Hge); [ contradiction | ].
  cbn [celltype_plots].
  destruct (String.eqb_spec ct PADDING) as [ -> | Hpad ].
  - apply IH. exists ct'. destruct Hin as [ <- | Hin ]; [ congruence | tauto ].
  - change (map (fun c => String.eqb c ct) labels) with (group_mask labels ct).
    unfold mask_index. unfold group_mask at 1 3.
    rewrite !length_map. rewrite <- Hr at 1. rewrite Nat.eqb_refl.
    rewrite Hh, Nat.eqb_refl.
    assert (Hlen : List.length (mask_select (group_mask labels ct) rows)
                   = group_size labels ct).
    { unfold group_size. apply mask_select_length.
      unfold group_mask. now rewrite length_map. }
    rewrite Hlen.
    destruct (Nat.ltb_spec (group_size labels ct) 5) as [ Hsmall | Hbig ].
    + apply IH. exists ct'. destruct Hin as [ <- | Hin ]; [ lia | tauto ].
    + reflexivity.
Qed.

(** X25.  Without celltype labels the single plot requested after a
    successful prediction pairs the custom gene expressions with the saved
    [Predicted_Phase_Hours] column, under the name All_Samples, and the
    function ends as that plot call ends. *)
Theorem plots_use_saved_phase_hours (m : PhaseAutoEncoder.t)
    (test_loader : list Batch) (period_entry : option R)
    (r : PhasePredictions) (rows : list (list R)) (names : list string) :
  predict_and_save_phases m test_loader period_entry = Ok r ->
  Cell_Type r = None ->
  plot_gene_expression_with_custom_data m test_loader period_entry
    (Some (rows, names))
  = ([plot_celltype_gene_expression_raw rows (Predicted_Phase_Hours r)
        names "All_Samples"],
     gene_plot_outcome rows (Predicted_Phase_Hours r) names).
Proof.
  intros H Hc. rewrite (plot_after_predict _ _ _ r _ H). now rewrite Hc.
Qed.

(** X26.  When none of the requested custom genes is a gene of the test
    data, [get_original_gene_expressions] returns nothing and the plotting
    function called on it raises before any plot is requested, although
    prediction succeeded. *)
Theorem plot_without_custom_genes_raises (m : PhaseAutoEncoder.t)
    (test_loader : list Batch) (period_entry : option R)
    (r : PhasePredictions) (custom_genes test_gene_names : list string)
    (test_expression_scaled : list (list R)) :
  predict_and_save_phases m test_loader period_entry = Ok r ->
  Forall (fun g => ~ In g test_gene_names) custom_genes ->
  plot_gene_expression_with_custom_data m test_loader period_entry
    (get_original_gene_expressions custom_genes test_gene_names
       test_expression_scaled)
  = ([], Some AttributeError).
Proof.
  intros H Hall. rewrite (plot_after_predict _ _ _ r _ H).
  now rewrite no_custom_gene_found.
Qed.

(** X27.  With celltype labels and a custom expression matrix of one row per
    label: if there is at least one custom gene and every row has a column
    for each of them, the plotting function returns; it requests a gene
    plot for exactly the celltypes other than PADDING that have at least
    five samples, each on that celltype's rows and saved phase hours, and
    the comparison plot exactly when two or more celltypes other than
    PADDING occur.  With an empty list of gene names and a celltype that
    qualifies for a plot, the function ends in a division by zero. *)
Theorem labelled_plots_spec (m : PhaseAutoEncoder.t)
    (test_loader : list Batch) (period_entry : option R)
    (r : PhasePredictions) (labels : list string)
    (rows : list (list R)) (names : list string) :
  predict_and_save_phases m test_loader period_entry = Ok r ->
  Cell_Type r = Some labels ->
  List.length rows = List.length labels ->
  (names <> [] ->
   Forall (fun row => (List.length names <= List.length row)%nat) rows ->
   exists calls,
     plot_gene_expression_with_custom_data m test_loader period_entry
       (Some (rows, names)) = (calls, None) /\
     (forall e p g ct,
         In (plot_celltype_gene_expression_raw e p g ct) calls <->
         In ct labels /\ ct <> PADDING /\
         (5 <= group_size labels ct)%nat /\
         e = mask_select (group_mask labels ct) rows /\
         p = mask_select (group_mask labels ct) (Predicted_Phase_Hours r) /\
         g = names) /\
     (forall e p l g v,
         In (plot_celltype_comparison_raw e p l g v) calls <->
         e = rows /\ p = Predicted_Phase_Hours r /\ l = labels /\ g = names /\
         v = filter not_padding (np_unique labels) /\
         (1 < List.length v)%nat)) /\
  (names = [] ->
   (exists ct, In ct labels /\ ct <> PADDING /\
               (5 <= group_size labels ct)%nat) ->
   snd (plot_gene_expression_with_custom_data m test_loader period_entry
          (Some (rows, names))) = Some ZeroDivisionError).
Proof.
  intros H Hc Hrows.
  rewrite (plot_after_predict _ _ _ r _ H), Hc.
  pose proof (saved_hours_length _ _ _ _ _ H Hc) as Hh.
  split.
  - intros Hn Hw.
    destruct (celltype_plots_ok rows (Predicted_Phase_Hours r) labels names
                (eq_sym Hrows) Hh Hn Hw (np_unique labels))
      as (calls & Hcalls & Hno & Hin).
    unfold labelled_plots. rewrite Hcalls. cbn [fst snd].
    set (valid := filter not_padding (np_unique labels)).
    assert (Hle : (List.length valid <= List.length (np_unique labels))%nat)
      by apply filter_length_le.
    destruct (Nat.ltb_spec 1 (List.length valid)) as [ Hmany | Hfew ].
    + assert (Hu : Nat.ltb 1 (List.length (np_unique labels)) = true)
        by (apply Nat.ltb_lt; lia).
      rewrite Hu. cbn [andb].
      assert (Hne : rows <> []).
      { intros ->. destruct labels; [ | discriminate ].
        cbn in Hmany. lia. }
      rewrite comparison_plot_completes
        by (assumption || (now symmetry)).
      eexists. split; [ reflexivity | ]. split.
      * intros e p g ct. rewrite in_app_iff, Hin, np_unique_In. cbn [In].
        split; [ | tauto ].
        intros [ Hl | [ Habs | [] ] ]; [ exact Hl | discriminate ].
      * intros e p l g v. rewrite in_app_iff. cbn [In]. split.
        -- intros [ Habs | [ Heq | [] ] ]; [ now apply Hno in Habs | ].
           inversion Heq; subst. fold valid. tauto.
        -- intros (-> & -> & -> & -> & -> & _). right. now left.
    + rewrite andb_false_r. exists calls. split; [ reflexivity | ]. split.
      * intros e p g ct. now rewrite Hin, np_unique_In.
      * intros e p l g v. split.
        -- intros Habs. now apply Hno in Habs.
        -- intros (_ & _ & _ & _ & -> & Hv). fold valid in Hv. lia.
  - intros -> (ct & Hin & Hne & Hge).
    unfold labelled_plots.
    rewrite (celltype_plots_without_names rows (Predicted_Phase_Hours r)
               labels (eq_sym Hrows) Hh (np_unique labels)).
    + reflexivity.
    + exists ct. rewrite np_unique_In. tauto.
Qed.

(** X28.  For a non-empty list of genes the subplot grid has a panel for
    every gene and no empty row; for an empty list it is a division by
    zero. *)
Theorem subplot_grid_fits (width n_panels : nat) :
  (0 < width)%nat ->
  subplot_grid width 0 = None /\
  ((0 < n_panels)%nat ->
   exists n_rows n_cols,
     subplot_grid width n_panels = Some (n_rows, n_cols) /\
     n_cols = Nat.min width n_panels /\
     (n_panels <= n_rows * n_cols)%nat /\
     (n_rows * n_cols < n_panels + n_cols)%nat).
Proof.
  intros Hw. split.
  - unfold subplot_grid. now rewrite Nat.min_0_r.
  - intros Hn. unfold subplot_grid.
    set (c := Nat.min width n_panels).
    assert (Hc : (0 < c)%nat) by (unfold c; lia).
    destruct (Nat.eqb_spec c 0) as [ | _ ]; [ lia | ].
    exists ((n_panels + c - 1) / c)%nat, c.
    split; [ reflexivity | ]. split; [ reflexivity | ].
    pose proof (Nat.div_mod_eq (n_panels + c - 1) c) as Hdm.
    pose proof (Nat.mod_upper_bound (n_panels + c - 1) c ltac:(lia)) as Hm.
    set (q := ((n_panels + c - 1) / c)%nat) in *.
    set (t := ((n_panels + c - 1) mod c)%nat) in *.
    nia.
Qed.

Lemma two_samples_columns_match : columns_match two_samples.
Proof. split; intros l H; discriminate H. Qed.

Lemma two_samples_width :
  Forall (fun row => List.length row = 1%nat) (expressions two_samples).
Proof. repeat constructor. Qed.

Lemma plots_use_saved_phase_hours_witness :
  exists r,
    predict_and_save_phases (model_of 1 (east_phase_weights 0))
      (data_loader_from 2 1000 two_samples) None = Ok r /\
    plot_gene_expression_with_custom_data (model_of 1 (east_phase_weights 0))
      (data_loader_from 2 1000 two_samples) None
      (Some ([[3]; [4]], ["g1"%string]))
    = ([plot_celltype_gene_expression_raw [[3]; [4]]
          (Predicted_Phase_Hours r) ["g1"%string] "All_Samples"],
       gene_plot_outcome [[3]; [4]] (Predicted_Phase_Hours r) ["g1"%string]).
Proof.
  destruct (predict_succeeds (model_of 1 (east_phase_weights 0))
              two_samples 1000 (data_loader_from 2 1000 two_samples) None
              two_samples_columns_match ltac:(discriminate)
              two_samples_width eq_refl)
    as (pcs & recs & r & _ & Hr & _ & _ & _ & _ & _ & Hc).
  exists r. split; [ exact Hr | ].
  exact (plots_use_saved_phase_hours _ _ None r [[3]; [4]] ["g1"%string]
           Hr Hc).
Defined.

Lemma plot_without_custom_genes_raises_witness :
  plot_gene_expression_with_custom_data (model_of 1 (east_phase_weights 0))
    (data_loader_from 2 1000 two_samples) None
    (get_original_gene_expressions ["g9"%string]
       ["g2"%string; "g3"%string] [[5; 7]; [6; 8]])
  = ([], Some AttributeError).
Proof.
  destruct (predict_succeeds (model_of 1 (east_phase_weights 0))
              two_samples 1000 (data_loader_from 2 1000 two_samples) None
              two_samples_columns_match ltac:(discriminate)
              two_samples_width eq_refl)
    as (pcs & recs & r & _ & Hr & _).
  apply (plot_without_custom_genes_raises _ _ None r _ _ _ Hr).
  constructor; [ | constructor ].
  intros [ H | [ H | [] ] ]; discriminate H.
Defined.

Lemma labelled_plots_spec_witness :
  exists r calls,
    predict_and_save_phases (model_of 1 (east_phase_weights 0))
      (data_loader_from 6 4 timed_padded_dataset) (Some 24) = Ok r /\
    plot_gene_expression_with_custom_data (model_of 1 (east_phase_weights 0))
      (data_loader_from 6 4 timed_padded_dataset) (Some 24)
      (Some (expressions timed_padded_dataset, ["g1"%string]))
    = (calls, None) /\
    (forall e p g, ~ In (plot_celltype_gene_expression_raw e p g PADDING) calls) /\
    In (plot_celltype_gene_expression_raw
          (mask_select (group_mask (five_A ++ [PADDING]) "A")
             (expressions timed_padded_dataset))
          (mask_select (group_mask (five_A ++ [PADDING]) "A")
             (Predicted_Phase_Hours r))
          ["g1"%string] "A") calls /\
    snd (plot_gene_expression_with_custom_data
           (model_of 1 (east_phase_weights 0))
           (data_loader_from 6 4 timed_padded_dataset) (Some 24)
           (Some (expressions timed_padded_dataset, [])))
    = Some ZeroDivisionError.
Proof.
  destruct (predict_succeeds (model_of 1 (east_phase_weights 0))
              timed_padded_dataset 4
              (data_loader_from 6 4 timed_padded_dataset) (Some 24)
              timed_padded_columns_match ltac:(discriminate)
              timed_padded_width eq_refl)
    as (pcs & recs & r & _ & Hr & _ & _ & _ & _ & _ & Hc).
  destruct (proj1 (labelled_plots_spec _ _ (Some 24) r (five_A ++ [PADDING])
                     (expressions timed_padded_dataset) ["g1"%string]
                     Hr Hc eq_refl))
    as (calls & Hcalls & Hgene & _).
  - discriminate.
  - repeat constructor.
  - exists r, calls. split; [ exact Hr | ]. split; [ exact Hcalls | ].
    split; [ | split ].
    + intros e p g Hin. apply Hgene in Hin. destruct Hin as (_ & Hne & _).
      now apply Hne.
    + apply Hgene. split; [ now left | ]. split; [ discriminate | ].
      split; [ | repeat split ].
      apply Nat.leb_le. reflexivity.
    + apply (proj2 (labelled_plots_spec _ _ (Some 24) r (five_A ++ [PADDING])
                      (expressions timed_padded_dataset) [] Hr Hc eq_refl)
               eq_refl).
      exists "A"%string. split; [ now left | ]. split; [ discriminate | ].
      apply Nat.leb_le. reflexivity.
Defined.

Lemma subplot_grid_fits_witness :
  exists n_rows n_cols,
    subplot_grid 5 7 = Some (n_rows, n_cols) /\
    n_cols = Nat.min 5 7 /\
    (7 <= n_rows * n_cols)%nat /\
    (n_rows * n_cols < 7 + n_cols)%nat.
Proof.
  apply (proj2 (subplot_grid_fits 5 7 ltac:(lia))). lia.
Defined.
